(** * A shallow embedding of the batch renamer

    The program renames files in bulk: a file name is cut into segments,
    the segments and a few named variables are substituted into a template,
    the resulting plan is disambiguated and finally executed through a
    temporary name space.

    Conventions of the embedding.
    - Python [str] is [string]; the development covers the ASCII alphabet
      (case mapping, white space and digits are the ASCII ones; bytes above
      127 are inert symbols).  Python [int] is [Z], [str(int)] is stdpp's
      [pretty].  Resource limits (memory, index width) are not modelled.
    - A Python exception is a value [Raise e] of the error monad [result];
      every partial operation of the source (indexing, tuple unpacking,
      [int()], [with_name], [rename]) is partial here as well.
    - [pathlib] is the POSIX flavour of Python 3.12.
    - What the source obtains from the outside (the regular-expression
      engine, glob matching, the time zone) is a field of [Externals]. *)

From Stdlib Require Import ZArith Ascii String List Bool Lia Sorted.
From stdpp Require Import base tactics option list gmap strings pretty sorting.

Local Open Scope Z_scope.

(** ** Exceptions and the error monad *)

Inductive exn : Type :=
  | ValueError
  | IndexError
  | KeyError
  | OSError
  | ReError      (* re.error: the pattern does not compile *)
  | LoopBound.   (* not a Python exception: the bound of a modelled
                    [while] loop was reached (shown never to happen) *)

Inductive result (A : Type) : Type :=
  | Ok (a : A)
  | Raise (e : exn).
Arguments Ok {A} a.
Arguments Raise {A} e.

Global Instance exn_eq_dec : EqDecision exn.
Proof. solve_decision. Defined.

Global Instance result_eq_dec {A} `{EqDecision A} : EqDecision (result A).
Proof. solve_decision. Defined.

Global Instance result_ret : MRet result := λ A a, Ok a.
Global Instance result_bind : MBind result := λ A B f m,
  match m with
  | Ok a => f a
  | Raise e => Raise e
  end.

(** [try: m except d] is [try: return m / except Exception: return d]. *)
Definition try_except {A} (m : result A) (d : A) : A :=
  match m with
  | Ok a => a
  | Raise _ => d
  end.

Definition is_Ok {A} (m : result A) : Prop := ∃ a, m = Ok a.

(** Monadic left fold: a [for] loop whose body may raise. *)
Fixpoint foldM {S A} (f : S → A → result S) (s : S) (l : list A) : result S :=
  match l with
  | [] => Ok s
  | x :: l' => s' ← f s x; foldM f s' l'
  end.

(** ** Characters *)

Module Char.
Definition code (c : ascii) : N := N_of_ascii c.
Definition between (lo hi c : ascii) : bool :=
  ((code lo <=? code c) && (code c <=? code hi))%N.
Definition isupper : ascii → bool := between "A" "Z".
Definition islower : ascii → bool := between "a" "z".
Definition isdigit : ascii → bool := between "0" "9".
Definition isalpha (c : ascii) : bool := isupper c || islower c.
(** [str.isspace] on ASCII: TAB..CR, FS..US and the blank. *)
Definition isspace (c : ascii) : bool :=
  between "009" "013" c || between "028" "032" c.
Definition lower (c : ascii) : ascii :=
  if isupper c then ascii_of_N (code c + 32) else c.
Definition upper (c : ascii) : ascii :=
  if islower c then ascii_of_N (code c - 32) else c.
Definition digit (c : ascii) : Z := Z.of_N (code c) - 48.
Definition eqb (a b : ascii) : bool := Ascii.eqb a b.
End Char.

(** ** Python string methods *)

Module Str.
Abbreviation len := String.length.

Fixpoint map (f : ascii → ascii) (s : string) : string :=
  match s with
  | EmptyString => EmptyString
  | String c r => String (f c) (map f r)
  end.

Fixpoint forallb (f : ascii → bool) (s : string) : bool :=
  match s with
  | EmptyString => true
  | String c r => f c && forallb f r
  end.

Definition lower : string → string := map Char.lower.
Definition upper : string → string := map Char.upper.

(** [str.title]: a cased character is upper-cased after an uncased one
    and lower-cased after a cased one. *)
Fixpoint title_go (prev_cased : bool) (s : string) : string :=
  match s with
  | EmptyString => EmptyString
  | String c r =>
      if Char.isalpha c
      then String (if prev_cased then Char.lower c else Char.upper c)
                  (title_go true r)
      else String c (title_go false r)
  end.
Definition title : string → string := title_go false.

Fixpoint lstrip_by (f : ascii → bool) (s : string) : string :=
  match s with
  | EmptyString => EmptyString
  | String c r => if f c then lstrip_by f r else s
  end.
Fixpoint rstrip_by (f : ascii → bool) (s : string) : string :=
  match s with
  | EmptyString => EmptyString
  | String c r =>
      match rstrip_by f r with
      | EmptyString => if f c then EmptyString else String c EmptyString
      | r' => String c r'
      end
  end.
Definition strip (s : string) : string :=
  rstrip_by Char.isspace (lstrip_by Char.isspace s).

Definition isdigit (s : string) : bool :=
  negb (String.eqb s "") && forallb Char.isdigit s.

Fixpoint repeat (c : ascii) (n : nat) : string :=
  match n with
  | O => EmptyString
  | S n' => String c (repeat c n')
  end.

(** [str.zfill]: zeros go after a leading sign. *)
Definition zfill (s : string) (width : Z) : string :=
  let fill := repeat "0" (Z.to_nat (width - Z.of_nat (len s))) in
  match s with
  | String c r =>
      if Char.eqb c "+" || Char.eqb c "-"
      then String c (fill +:+ r) else fill +:+ s
  | EmptyString => fill
  end.

Definition startswith (s p : string) : bool := String.prefix p s.

Fixpoint endswith (s suf : string) : bool :=
  if String.eqb s suf then true
  else match s with
       | EmptyString => false
       | String _ r => endswith r suf
       end.

(** [sub in s] *)
Fixpoint contains (sub s : string) : bool :=
  if String.prefix sub s then true
  else match s with
       | EmptyString => false
       | String _ r => contains sub r
       end.

Fixpoint drop (n : nat) (s : string) : string :=
  match n, s with
  | O, _ => s
  | S n', String _ r => drop n' r
  | S _, EmptyString => EmptyString
  end.

Fixpoint take (n : nat) (s : string) : string :=
  match n, s with
  | S n', String c r => String c (take n' r)
  | _, _ => EmptyString
  end.

Definition snoc (s : string) (c : ascii) : string :=
  s +:+ String c EmptyString.

(** [s.split(sep)] for a non-empty [sep], scanning left to right;
    [skip] counts the characters of a separator still to be passed and
    [cur] is the segment being read. *)
Fixpoint split_go (sep : string) (skip : nat) (cur : string) (s : string)
    : list string :=
  match s with
  | EmptyString => [cur]
  | String c r =>
      match skip with
      | S k => split_go sep k cur r
      | O => if String.prefix sep s
             then cur :: split_go sep (len sep - 1) EmptyString r
             else split_go sep O (snoc cur c) r
      end
  end.
Definition split (s sep : string) : result (list string) :=
  if String.eqb sep "" then Raise ValueError
  else Ok (split_go sep O "" s).

(** [s.split(sep, 1)] *)
Fixpoint split1_go (sep : string) (cur : string) (s : string) : list string :=
  if String.prefix sep s then [cur; drop (len sep) s]
  else match s with
       | EmptyString => [cur]
       | String c r => split1_go sep (snoc cur c) r
       end.
Definition split1 (s sep : string) : result (list string) :=
  if String.eqb sep "" then Raise ValueError
  else Ok (split1_go sep "" s).

(** [s.replace(old, new)]; an empty [old] matches before every character
    and at the end. *)
Fixpoint replace_go (old new : string) (skip : nat) (s : string) : string :=
  match s with
  | EmptyString =>
      match skip with
      | O => if String.eqb old "" then new else EmptyString
      | S _ => EmptyString
      end
  | String c r =>
      match skip with
      | S k => replace_go old new k r
      | O => if String.eqb old "" then new +:+ String c (replace_go old new O r)
             else if String.prefix old s
                  then new +:+ replace_go old new (len old - 1) r
                  else String c (replace_go old new O r)
      end
  end.
Definition replace (s old new : string) : string := replace_go old new O s.

(** [s.replace(old, new, 1)] *)
Fixpoint replace1 (old new : string) (s : string) : string :=
  if String.prefix old s then new +:+ drop (len old) s
  else match s with
       | EmptyString => EmptyString
       | String c r => String c (replace1 old new r)
       end.

(** [sep.join(l)] *)
Definition join (sep : string) (l : list string) : string :=
  String.concat sep l.

(** [int(s)]: surrounding white space, an optional sign, decimal digits
    with single underscores between digits. *)
Fixpoint digits_go (acc : Z) (prev_digit : bool) (s : string) : option Z :=
  match s with
  | EmptyString => if prev_digit then Some acc else None
  | String c r =>
      if Char.isdigit c then digits_go (10 * acc + Char.digit c) true r
      else if Char.eqb c "_" && prev_digit then digits_go acc false r
      else None
  end.
Definition int (s : string) : result Z :=
  let body := strip s in
  let parsed :=
    match body with
    | String c r =>
        if Char.eqb c "-" then Z.opp <$> digits_go 0 false r
        else if Char.eqb c "+" then digits_go 0 false r
        else digits_go 0 false body
    | EmptyString => None
    end in
  match parsed with
  | Some z => Ok z
  | None => Raise ValueError
  end.
End Str.

(** ** Python sequence operations *)

Module Seq.
(** [l[i]] with Python's negative indices. *)
Definition index {A} (l : list A) (i : Z) : result A :=
  let n := Z.of_nat (length l) in
  let j := if i <? 0 then i + n else i in
  if (0 <=? j) && (j <? n)
  then match l !! Z.to_nat j with
       | Some x => Ok x
       | None => Raise IndexError
       end
  else Raise IndexError.

(** Clamping of a slice bound. *)
Definition bound (n i : Z) : Z :=
  if i <? 0 then Z.max 0 (i + n) else Z.min n i.

(** [l[lo:hi]], [hi = None] for an omitted bound. *)
Definition slice {A} (l : list A) (lo : Z) (hi : option Z) : list A :=
  let n := Z.of_nat (length l) in
  let a := bound n lo in
  let b := match hi with Some h => bound n h | None => n end in
  take (Z.to_nat (b - a)) (drop (Z.to_nat a) l).

(** [s[:hi]] on a string. *)
Definition str_upto (s : string) (hi : Z) : string :=
  Str.take (Z.to_nat (bound (Z.of_nat (Str.len s)) hi)) s.

(** [any(f(x) for x in l)], stopping at the first hit. *)
Fixpoint any {A} (f : A → result bool) (l : list A) : result bool :=
  match l with
  | [] => Ok false
  | x :: l' => b ← f x; if (b : bool) then Ok true else any f l'
  end.

(** Stable insertion into a sorted list: [x] stood before all of [l]. *)
Fixpoint insert_sorted {A} (le : A → A → bool) (x : A) (l : list A) : list A :=
  match l with
  | [] => [x]
  | y :: l' => if le x y then x :: l else y :: insert_sorted le x l'
  end.
Definition stable_sort {A} (le : A → A → bool) (l : list A) : list A :=
  foldr (insert_sorted le) [] l.

(** [sorted(l, key=..., reverse=r)]: the sort is stable; with [reverse]
    the list is reversed, sorted and reversed again. *)
Definition sorted {A} (le : A → A → bool) (l : list A) (reverse : bool)
    : list A :=
  if reverse then rev (stable_sort le (rev l)) else stable_sort le l.

(** [a, b = l] *)
Definition unpack2 {A} (l : list A) : result (A * A) :=
  match l with
  | [a; b] => Ok (a, b)
  | _ => Raise ValueError
  end.
End Seq.

(** ** Paths ([pathlib.PurePosixPath]) *)

(** A path is the text up to and including the last separator, and the
    final component: [str(p) = dir p ++ name p]. *)
Record Path : Type := mkPath { dir : string; name : string }.

Global Instance Path_eq_dec : EqDecision Path.
Proof. solve_decision. Defined.

Definition path_str (p : Path) : string := dir p +:+ name p.

(** [p.suffixes] *)
Definition suffixes (p : Path) : list string :=
  let nm := name p in
  if Str.endswith nm "." then []
  else
    let nm := Str.lstrip_by (Char.eqb ".") nm in
    (λ suffix, "." +:+ suffix) <$> Seq.slice (Str.split_go "." O "" nm) 1 None.

(** [p.with_name(new)] raises on a path without a name and on a name that
    is empty, is a single dot or holds a separator. *)
Definition with_name (p : Path) (new : string) : result Path :=
  if String.eqb (name p) "" then Raise ValueError
  else if String.eqb new "" || Str.contains "/" new || String.eqb new "."
       then Raise ValueError
       else Ok (mkPath (dir p) new).

(** ** Utility functions of the source *)

Definition all_suffixes (p : Path) : string := Str.join "" (suffixes p).

Definition real_stem (p : Path) : string :=
  let suf := all_suffixes p in
  let nm := name p in
  if String.eqb suf "" then nm else Seq.str_upto nm (- Z.of_nat (Str.len suf)).

Definition split_segments (stem delim : string) : result (list string) :=
  if String.eqb delim "" then Ok [stem] else Str.split stem delim.

Definition safe_int (s : string) (default : Z) : Z :=
  try_except (Str.int s) default.

(** ** Configuration and plan *)

Record Rules : Type := mkRules {
  delimiter : string;
  regex : option string;
  recursive : bool;
  include : list string;
  exclude : list string;
  exts : list string;
  template : string;
  slice_joiner : string;
  conflict : string;        (* skip | suffix *)
  suffix_sep : string;
  dry_run : bool;
  preview_limit : Z;
  export_plan : option Path;
  sort_key : string;        (* name | mtime | ctime *)
  sort_order : string;      (* asc | desc *)
  seq_start : Z;
  seq_step : Z;
  seq_pad : Z
}.

(** The defaults of the dataclass. *)
Definition default_rules : Rules :=
  {| delimiter := "-"; regex := None; recursive := false;
     include := []; exclude := []; exts := [];
     template := "{stem}"; slice_joiner := "-";
     conflict := "skip"; suffix_sep := "_";
     dry_run := true; preview_limit := 0; export_plan := None;
     sort_key := "name"; sort_order := "asc";
     seq_start := 1; seq_step := 1; seq_pad := 4 |}.

Record PlanItem : Type := mkPlanItem {
  src : Path;
  dst : Path;
  changed : bool;
  reason : string
}.

Global Instance PlanItem_eq_dec : EqDecision PlanItem.
Proof. solve_decision. Defined.

(** A name without a separator. *)
Definition slash_free (s : string) : Prop := Str.contains "/" s = false.

(** A destination as [with_name] makes it. *)
Definition valid_dst (it : PlanItem) : Prop :=
  name (dst it) ≠ "" ∧ slash_free (name (dst it)).

(** The flag of a plan item says whether the name changes. *)
Definition flag_sound (it : PlanItem) : Prop :=
  changed it = true ↔ name (dst it) ≠ name (src it).

(** ** Template rendering engine *)

(** Values of the named-variable dictionary: the built-ins are strings, a
    capture group of the regular expression is a string or [None]. *)
Inductive pyval : Type :=
  | PyStr (s : string)
  | PyNone.

(** [str(v)] *)
Definition py_str (v : pyval) : string :=
  match v with
  | PyStr s => s
  | PyNone => "None"
  end.

(** [d[k]] *)
Definition dict_get (d : gmap string pyval) (k : string) : result pyval :=
  match d !! k with
  | Some v => Ok v
  | None => Raise KeyError
  end.

(** The longest prefix without a stop character, and what follows it. *)
Fixpoint span (stop : ascii → bool) (s : string) : string * string :=
  match s with
  | EmptyString => (EmptyString, EmptyString)
  | String c r =>
      if stop c then (EmptyString, s)
      else let '(a, b) := span stop r in (String c a, b)
  end.

(** The character classes of [_PLACEHOLDER]: what a key, respectively a
    filter chain, is made of. *)
Definition key_char (c : ascii) : bool :=
  negb (Char.eqb c "|" || Char.eqb c "}").
Definition chain_char (c : ascii) : bool := negb (Char.eqb c "}").

(** [_PLACEHOLDER] tried right after an opening brace: the key is a
    non-empty run without bar and closing brace; then either the closing
    brace, or a bar, a non-empty run without closing brace and the closing
    brace.  Both runs are maximal, so backtracking finds nothing else.
    Returns the two groups and the number of characters matched after the
    opening brace. *)
Definition placeholder_at (s : string) : option (string * option string * nat) :=
  let '(key, rest) := span (λ c, Char.eqb c "|" || Char.eqb c "}") s in
  if String.eqb key "" then None
  else match rest with
       | String c rest' =>
           if Char.eqb c "}" then Some (key, None, S (Str.len key))
           else
             let '(filters, rest'') := span (λ c, Char.eqb c "}") rest' in
             if String.eqb filters "" then None
             else match rest'' with
                  | String _ _ =>
                      Some (key, Some filters,
                            S (S (Str.len key + Str.len filters))%nat)
                  | EmptyString => None
                  end
       | EmptyString => None
       end.

(** [_PLACEHOLDER.sub(repl, template)]: leftmost matches, not overlapping;
    [skip] counts the characters of the current match still to be passed. *)
Fixpoint placeholder_sub (repl : string → option string → result string)
    (skip : nat) (s : string) : result string :=
  match s with
  | EmptyString => Ok EmptyString
  | String c r =>
      match skip with
      | S k => placeholder_sub repl k r
      | O =>
          match (if Char.eqb c "{" then placeholder_at r else None) with
          | Some (key, filters, n) =>
              v ← repl key filters;
              rest ← placeholder_sub repl n r;
              Ok (v +:+ rest)
          | None =>
              rest ← placeholder_sub repl O r;
              Ok (String c rest)
          end
      end
  end.

(** One round of the [for part in filters.split("|")] loop. *)
Definition apply_filter (t part : string) : result string :=
  let part := Str.strip part in
  if String.eqb part "" then Ok t
  else if String.eqb part "lower" then Ok (Str.lower t)
  else if String.eqb part "upper" then Ok (Str.upper t)
  else if String.eqb part "title" then Ok (Str.title t)
  else if String.eqb part "strip" then Ok (Str.strip t)
  else if Str.startswith part "pad=" || Str.startswith part "zfill=" then
    l ← Str.split1 part "=";
    arg ← Seq.index l 1;
    let n := safe_int arg 0 in
    Ok (if (0 <? n) && Str.isdigit t then Str.zfill t n else t)
  else if Str.startswith part "prefix=" then
    l ← Str.split1 part "=";
    arg ← Seq.index l 1;
    Ok (arg +:+ t)
  else if Str.startswith part "suffix=" then
    l ← Str.split1 part "=";
    arg ← Seq.index l 1;
    Ok (t +:+ arg)
  else if Str.startswith part "replace=" then
    l ← Str.split1 part "=";
    body ← Seq.index l 1;
    if Str.contains ":" body then
      l' ← Str.split1 body ":";
      '(old, new) ← Seq.unpack2 l';
      Ok (Str.replace t old new)
    else Ok t
  else Ok t.


Definition _apply_filters (val : string) (filters : option string)
    : result string :=
  match filters with
  | None => Ok val
  | Some fs =>
      if String.eqb (Str.strip fs) "" then Ok val
      else parts ← Str.split fs "|"; foldM apply_filter val parts
  end.

(** A list comprehension whose element expression may raise. *)
Fixpoint traverse {A B} (f : A → result B) (l : list A) : result (list B) :=
  match l with
  | [] => Ok []
  | x :: l' => y ← f x; ys ← traverse f l'; Ok (y :: ys)
  end.

Definition _slice_join (items : list string) (joiner : string)
    (filters : option string) : result string :=
  proc ← traverse (λ x, _apply_filters x filters) items;
  Ok (Str.join joiner proc).

Definition seg_len (segs : list string) : Z := Z.of_nat (length segs).

(** The inner function [repl] of [render_template]. *)
Definition repl (vars_map : gmap string pyval) (segs : list string)
    (joiner : string) (key : string) (filters : option string)
    : result string :=
  let key := Str.strip key in
  if decide (is_Some (vars_map !! key)) then
    v ← dict_get vars_map key;
    _apply_filters (py_str v) filters
  else if Str.endswith key "+" then
    let base := Seq.str_upto key (-1) in
    let idx := safe_int base 0 in
    if idx =? 0 then Ok ""
    else
      let idx := if idx <? 0 then seg_len segs + 1 + idx else idx in
      let start := Z.max 1 idx in
      if seg_len segs <? start then Ok ""
      else _slice_join (Seq.slice segs (start - 1) None) joiner filters
  else if Str.contains ":" key then
    l ← Str.split1 key ":";
    '(s_str, e_str) ← Seq.unpack2 l;
    let s := safe_int s_str 0 in
    let e := safe_int e_str 0 in
    if (s =? 0) || (e =? 0) then Ok ""
    else
      let s := if s <? 0 then seg_len segs + 1 + s else s in
      let e := if e <? 0 then seg_len segs + 1 + e else e in
      let s := Z.max 1 s in
      let e := Z.min (seg_len segs) e in
      if e <? s then Ok ""
      else _slice_join (Seq.slice segs (s - 1) (Some e)) joiner filters
  else
    let idx := safe_int key 0 in
    if negb (idx =? 0) then
      let idx := if idx <? 0 then seg_len segs + 1 + idx else idx in
      if (1 <=? idx) && (idx <=? seg_len segs)
      then x ← Seq.index segs (idx - 1); _apply_filters x filters
      else Ok ""
    else Ok "".

Definition render_template (template : string) (vars_map : gmap string pyval)
    (segs : list string) (joiner : string) : result string :=
  placeholder_sub (repl vars_map segs joiner) O template.

(** ** The outside world of the planner *)

Class Externals : Type := {
  (** [re.match(pattern, s)]: [re.error] on a bad pattern, else no match or
      the [groupdict()] of the match, in which a named group that took no
      part in the match is [None]. *)
  re_match : string → string → result (option (gmap string pyval));
  (** [path.match(glob)] of [pathlib]; raises on an empty pattern. *)
  path_match : Path → string → result bool;
  (** [datetime.fromtimestamp(t).isoformat(timespec="seconds")] *)
  isoformat : Z → string
}.

(** A directory entry with what [stat()] reports for it. *)
Record File : Type := mkFile {
  path : Path;
  st_mtime : Z;
  st_ctime : Z
}.

Section Planner.
Context `{Externals}.

(** ** Parsing and planning *)

Definition parse_with_regex (stem pattern : string)
    : result (gmap string pyval) :=
  m ← re_match pattern stem;
  Ok (match m with Some groupdict => groupdict | None => ∅ end).

(** The condition of the first guard of [should_take]. *)
Definition ext_allowed (p : Path) (rules : Rules) : bool :=
  let nm := Str.lower (path_str p) in
  existsb (λ ext, Str.endswith nm (Str.lower ext)) (exts rules).

Definition should_take (p : Path) (rules : Rules) : result bool :=
  if negb (bool_decide (exts rules = [])) && negb (ext_allowed p rules)
  then Ok false
  else
    inc ← (if bool_decide (include rules = []) then Ok true
           else Seq.any (path_match p) (include rules));
    if negb (inc : bool) then Ok false
    else
      exc ← (if bool_decide (exclude rules = []) then Ok false
             else Seq.any (path_match p) (exclude rules));
      Ok (negb (exc : bool)).

(** Order of the sort keys: a lower-cased name, or a time stamp paired with
    it (tuples compare lexicographically). *)
Definition name_key (f : File) : string := Str.lower (name (path f)).
Definition name_le (a b : File) : bool := String.leb (name_key a) (name_key b).
Definition time_le (t : File → Z) (a b : File) : bool :=
  (t a <? t b) || ((t a =? t b) && name_le a b).

Definition sort_files (files : list File) (sort_key sort_order : string)
    : list File :=
  let reverse := String.eqb sort_order "desc" in
  if String.eqb sort_key "mtime" then Seq.sorted (time_le st_mtime) files reverse
  else if String.eqb sort_key "ctime" then Seq.sorted (time_le st_ctime) files reverse
  else Seq.sorted name_le files reverse.

(** The dictionary literal of [build_plan]. *)
Definition builtin_vars (f : File) (seq_value : Z) (rules : Rules)
    : gmap string pyval :=
  let p := path f in
  list_to_map
    [ ("stem", PyStr (real_stem p));
      ("ext", PyStr (all_suffixes p));
      ("name", PyStr (name p));
      ("seq", PyStr (Str.zfill (pretty seq_value) (Z.max 0 (seq_pad rules))));
      ("seq_raw", PyStr (pretty seq_value));
      ("mtime", PyStr (isoformat (st_mtime f)));
      ("ctime", PyStr (isoformat (st_ctime f))) ].

(** The named variables of a file: the built-ins, updated with the capture
    groups when a pattern is configured ([if rules.regex] is false on [None]
    and on the empty string). *)
Definition item_vars (rules : Rules) (seq_value : Z) (f : File)
    : result (gmap string pyval) :=
  let vars_map := builtin_vars f seq_value rules in
  match regex rules with
  | Some pattern =>
      if String.eqb pattern "" then Ok vars_map
      else g ← parse_with_regex (real_stem (path f)) pattern; Ok (g ∪ vars_map)
  | None => Ok vars_map
  end.

(** The body of the loop of [build_plan] past the two [continue] guards:
    the plan item of a file that is taken, at a given sequence value. *)
Definition plan_item (rules : Rules) (seq_value : Z) (f : File)
    : result PlanItem :=
  let p := path f in
  let stem := real_stem p in
  let ext := all_suffixes p in
  segs ← split_segments stem (delimiter rules);
  vars_map ← item_vars rules seq_value f;
  new_stem ← render_template (template rules) vars_map segs (slice_joiner rules);
  let new_name := if Str.contains "{ext}" (template rules)
                  then new_stem else new_stem +:+ ext in
  let changed := negb (String.eqb new_name (name p)) in
  dst ← with_name p new_name;
  let reason := if changed then "ok" else "no-change" in
  Ok (mkPlanItem p dst changed reason).

(** Is the file skipped by one of the two [continue] guards? *)
Definition taken (rules : Rules) (f : File) : result bool :=
  if Str.startswith (name (path f)) "__tmp_rename__" then Ok false
  else should_take (path f) rules.

(** One round of the loop over the sorted files; the state is the sequence
    value and the plan so far. *)
Definition plan_step (rules : Rules) (st : Z * list PlanItem) (f : File)
    : result (Z * list PlanItem) :=
  let '(seq_value, plan) := st in
  take ← taken rules f;
  if negb (take : bool) then Ok st
  else
    it ← plan_item rules seq_value f;
    Ok (seq_value + seq_step rules, plan ++ [it]).

(** [build_plan]; [files] is what [collect_files(root, rules.recursive)]
    returns. *)
Definition build_plan (files : list File) (rules : Rules)
    : result (list PlanItem) :=
  let files := sort_files files (sort_key rules) (sort_order rules) in
  '(_, plan) ← foldM (plan_step rules) (seq_start rules, []) files;
  Ok (if 0 <? preview_limit rules
      then Seq.slice plan 0 (Some (preview_limit rules)) else plan).

(** The files of a listing that get past both guards, in sort order. *)
Definition kept_files (files : list File) (rules : Rules) : list File :=
  filter (λ f, taken rules f = Ok true)
    (sort_files files (sort_key rules) (sort_order rules)).

End Planner.

(** ** Conflict resolution *)

(** The name tried at the [n]-th round: [f"{stem}{sep}{n}{ext}"]. *)
Definition suffixed (stem sep : string) (n : Z) (ext : string) : string :=
  stem +:+ sep +:+ pretty n +:+ ext.

(** The [while base in seen] loop; it leaves with the counter and the free
    name.  Distinct counters give distinct names, so among [size seen + 1]
    of them one is free: that many rounds are always enough. *)
Fixpoint probe (fuel : nat) (seen : gset string) (stem sep ext : string)
    (n : Z) (base : string) : result (Z * string) :=
  if decide (base ∈ seen) then
    match fuel with
    | O => Raise LoopBound
    | S fuel' =>
        let n := n + 1 in
        probe fuel' seen stem sep ext n (Str.lower (suffixed stem sep n ext))
    end
  else Ok (n, base).

Definition dedupe_step (rules : Rules) (st : gset string * list PlanItem)
    (it : PlanItem) : result (gset string * list PlanItem) :=
  let '(seen, out) := st in
  if negb (changed it) then Ok (seen, out ++ [it])
  else
    let cand := dst it in
    let stem := real_stem cand in
    let ext := all_suffixes cand in
    let base := Str.lower (name cand) in
    '(n, _) ← probe (S (size seen)) seen stem (suffix_sep rules) ext 0 base;
    final ← (if n =? 0 then Ok cand
             else with_name cand (suffixed stem (suffix_sep rules) n ext));
    Ok ({[ Str.lower (name final) ]} ∪ seen,
        out ++ [mkPlanItem (src it) final
                  (negb (String.eqb (name final) (name (src it))))
                  (if 0 <? n then "dedup-suffix" else reason it)]).

Definition dedupe (plan : list PlanItem) (rules : Rules)
    : result (list PlanItem) :=
  if negb (String.eqb (conflict rules) "suffix") then Ok plan
  else '(_, out) ← foldM (dedupe_step rules) (∅, []) plan; Ok out.

(** What holds between the items read so far and the state of the loop:
    an unchanged item is passed on as it is; a changed one keeps its source,
    has its flag recomputed and its lower-cased destination name claimed;
    and the destinations of two changed ones differ, also up to case. *)
Definition dedupe_inv (prefix : list PlanItem)
    (st : gset string * list PlanItem) : Prop :=
  length st.2 = length prefix
  ∧ (∀ j a b, prefix !! j = Some a → st.2 !! j = Some b →
       if changed a
       then src b = src a ∧ Str.lower (name (dst b)) ∈ st.1 ∧ flag_sound b
       else b = a)
  ∧ (∀ i j a a' b b', i ≠ j →
       prefix !! i = Some a → prefix !! j = Some a' →
       changed a = true → changed a' = true →
       st.2 !! i = Some b → st.2 !! j = Some b' →
       Str.lower (name (dst b)) ≠ Str.lower (name (dst b'))).

(** ** Two-phase execution *)

(** The directory tree: the content of every regular file, by path text.
    Directories are implicit, so creating the parents of a destination
    changes nothing. *)
Abbreviation FS := (gmap string string).

Definition fs_exists (fs : FS) (p : Path) : bool :=
  bool_decide (is_Some (fs !! path_str p)).

(** [a.rename(b)] on POSIX: fails without [a], replaces [b] silently. *)
Definition fs_rename (fs : FS) (a b : Path) : result FS :=
  match fs !! path_str a with
  | Some content => Ok (<[path_str b := content]> (delete (path_str a) fs))
  | None => Raise OSError
  end.

(** The lines of the log, by their format string. *)
Inductive log_line : Type :=
  | LogNoChange (src_name : string)
  | LogDstExists (src_name dst_name : string)
  | LogFailed1 (src_name dst_name : string) (e : exn)
  | LogDone (src_name dst_name : string)
  | LogFailed2 (tmp_name dst_name : string) (e : exn).

Record Phase1 : Type := mkPhase1 {
  p1_fs : FS;
  temp_pairs : list (Path * Path);
  p1_logs : list log_line;
  p1_skipped : Z
}.

Definition phase1_step (tmp_tag : string) (st : Phase1) (it : PlanItem)
    : result Phase1 :=
  if negb (changed it) then
    Ok (mkPhase1 (p1_fs st) (temp_pairs st)
          (p1_logs st ++ [LogNoChange (name (src it))]) (p1_skipped st + 1))
  else if fs_exists (p1_fs st) (dst it) then
    Ok (mkPhase1 (p1_fs st) (temp_pairs st)
          (p1_logs st ++ [LogDstExists (name (src it)) (name (dst it))])
          (p1_skipped st + 1))
  else
    tmp ← with_name (src it) (tmp_tag +:+ name (src it));
    match fs_rename (p1_fs st) (src it) tmp with
    | Ok fs' =>
        Ok (mkPhase1 fs' (temp_pairs st ++ [(tmp, dst it)])
              (p1_logs st) (p1_skipped st))
    | Raise e =>
        Ok (mkPhase1 (p1_fs st) (temp_pairs st)
              (p1_logs st ++ [LogFailed1 (name (src it)) (name (dst it)) e])
              (p1_skipped st + 1))
    end.

Record Phase2 : Type := mkPhase2 {
  p2_fs : FS;
  p2_logs : list log_line;
  p2_ok : Z
}.

Definition phase2_step (tmp_tag : string) (st : Phase2) (pair : Path * Path)
    : Phase2 :=
  let '(tmp, dst) := pair in
  match fs_rename (p2_fs st) tmp dst with
  | Ok fs' =>
      mkPhase2 fs'
        (p2_logs st ++ [LogDone (Str.replace1 tmp_tag "" (name tmp)) (name dst)])
        (p2_ok st + 1)
  | Raise e =>
      mkPhase2 (p2_fs st)
        (p2_logs st ++ [LogFailed2 (name tmp) (name dst) e]) (p2_ok st)
  end.

(** [two_phase_rename]; [token] is [uuid.uuid4().hex[:8]] and the directory
    tree is threaded through.  Returns [(ok, skipped, logs)] and the tree. *)
Definition two_phase_rename (token : string) (fs : FS)
    (to_apply : list PlanItem) : result (Z * Z * list log_line * FS) :=
  let tmp_tag := "__tmp_rename__" +:+ token +:+ "__" in
  st1 ← foldM (phase1_step tmp_tag) (mkPhase1 fs [] [] 0) to_apply;
  let st2 := foldl (phase2_step tmp_tag)
               (mkPhase2 (p1_fs st1) (p1_logs st1) 0) (temp_pairs st1) in
  Ok (p2_ok st2, p1_skipped st1, p2_logs st2, p2_fs st2).

(** ** The command-line driver *)

(** [run_cli] past the construction of the rules, without the printing:
    plan, resolve, and unless this is a dry run execute the changed items.
    [files] is the listing of the root, [fs] its content. *)
Definition run_cli `{Externals} (token : string) (fs : FS) (files : list File)
    (rules : Rules) : result (option (Z * Z * list log_line) * FS) :=
  plan ← build_plan files rules;
  if bool_decide (plan = []) then Ok (None, fs)
  else
    plan ← dedupe plan rules;
    if dry_run rules then Ok (None, fs)
    else
      let to_apply := filter (λ it, changed it = true) plan in
      '(ok, skipped, logs, fs') ← two_phase_rename token fs to_apply;
      Ok (Some (ok, skipped, logs), fs').

(** ** Sample inputs

    Configurations as the command line builds them, and an outside world for
    the runs below: its regular-expression engine knows one pattern on one
    stem, [re.match("(?P<tag>[A-Z]+)?(?P<num>[0-9]+)", "12")], whose group
    [tag] takes no part in the match; its glob matcher knows the pattern
    [*]; its clock prints the time stamp as a number. *)

Definition with_template (t : string) (r : Rules) : Rules :=
  mkRules (delimiter r) (regex r) (recursive r) (include r) (exclude r)
    (exts r) t (slice_joiner r) (conflict r) (suffix_sep r) (dry_run r)
    (preview_limit r) (export_plan r) (sort_key r) (sort_order r)
    (seq_start r) (seq_step r) (seq_pad r).

Definition with_regex (pattern : string) (r : Rules) : Rules :=
  mkRules (delimiter r) (Some pattern) (recursive r) (include r) (exclude r)
    (exts r) (template r) (slice_joiner r) (conflict r) (suffix_sep r)
    (dry_run r) (preview_limit r) (export_plan r) (sort_key r) (sort_order r)
    (seq_start r) (seq_step r) (seq_pad r).


Definition with_conflict (c : string) (r : Rules) : Rules :=
  mkRules (delimiter r) (regex r) (recursive r) (include r) (exclude r)
    (exts r) (template r) (slice_joiner r) c (suffix_sep r) (dry_run r)
    (preview_limit r) (export_plan r) (sort_key r) (sort_order r)
    (seq_start r) (seq_step r) (seq_pad r).

Definition with_seq_pad (n : Z) (r : Rules) : Rules :=
  mkRules (delimiter r) (regex r) (recursive r) (include r) (exclude r)
    (exts r) (template r) (slice_joiner r) (conflict r) (suffix_sep r)
    (dry_run r) (preview_limit r) (export_plan r) (sort_key r) (sort_order r)
    (seq_start r) (seq_step r) n.

Definition with_sort_order (o : string) (r : Rules) : Rules :=
  mkRules (delimiter r) (regex r) (recursive r) (include r) (exclude r)
    (exts r) (template r) (slice_joiner r) (conflict r) (suffix_sep r)
    (dry_run r) (preview_limit r) (export_plan r) (sort_key r) o
    (seq_start r) (seq_step r) (seq_pad r).

(** Every file is sent to the name [a]: with [a.txt] in the directory, the
    other files collide with it. *)
Definition collide_rules : Rules :=
  with_conflict "suffix" (with_template "a" default_rules).

(** A file in the directory [/data/], stamped with its position. *)
Definition file_in_data (nm : string) (t : Z) : File :=
  mkFile (mkPath "/data/" nm) t t.

Definition with_dry_run (b : bool) (r : Rules) : Rules :=
  mkRules (delimiter r) (regex r) (recursive r) (include r) (exclude r)
    (exts r) (template r) (slice_joiner r) (conflict r) (suffix_sep r)
    b (preview_limit r) (export_plan r) (sort_key r) (sort_order r)
    (seq_start r) (seq_step r) (seq_pad r).

(** The template that swaps the stems [A] and [B], applied for real. *)
Definition swap_rules : Rules :=
  with_dry_run false
    (with_template "{stem|replace=A:X|replace=B:A|replace=X:B}" default_rules).

(** A directory with exactly [A.txt] and [B.txt]. *)
Definition swap_files : list File :=
  [file_in_data "A.txt" 1; file_in_data "B.txt" 2].
Definition swap_fs : FS :=
  <["/data/A.txt" := "alpha"]> (<["/data/B.txt" := "beta"]> ∅).

Definition sample_pattern : string := "(?P<tag>[A-Z]+)?(?P<num>[0-9]+)".

Definition sample_groupdict : gmap string pyval :=
  <["tag" := PyNone]> (<["num" := PyStr "12"]> ∅).

Definition sample_externals : Externals :=
  {| re_match pattern s :=
       if String.eqb pattern sample_pattern && String.eqb s "12"
       then Ok (Some sample_groupdict) else Ok None;
     path_match _ glob :=
       if String.eqb glob "" then Raise ValueError else Ok (String.eqb glob "*");
     isoformat t := pretty t |}.

(** ** Names used by the further properties *)

Definition with_preview_limit (n : Z) (r : Rules) : Rules :=
  mkRules (delimiter r) (regex r) (recursive r) (include r) (exclude r)
    (exts r) (template r) (slice_joiner r) (conflict r) (suffix_sep r)
    (dry_run r) n (export_plan r) (sort_key r) (sort_order r)
    (seq_start r) (seq_step r) (seq_pad r).

(** The tag of a run: [f"__tmp_rename__{uuid.uuid4().hex[:8]}__"]. *)
Definition tmp_tag (token : string) : string :=
  "__tmp_rename__" +:+ token +:+ "__".

(** The temporary path of an item: [it.src.with_name(tmp_tag + it.src.name)]
    when that does not raise. *)
Definition tmp_of (tag : string) (it : PlanItem) : Path :=
  mkPath (dir (src it)) (tag +:+ name (src it)).

(** The order [sort_files] sorts by, for a sort key. *)
Definition sort_le (sort_key : string) : File → File → bool :=
  if String.eqb sort_key "mtime" then time_le st_mtime
  else if String.eqb sort_key "ctime" then time_le st_ctime
  else name_le.

(** The characters of a numeral: digits and the minus sign. *)
Definition numeral_char (c : ascii) : bool := Char.isdigit c || Char.eqb c "-".


(** The lower-cased destination names that the resolver has claimed when
    it reads the [j]-th item: those it gave to the earlier items that were
    changed in the input. *)
Definition claimed_before (plan out : list PlanItem) (j : nat) (s : string)
    : Prop :=
  ∃ i a b, (i < j)%nat ∧ plan !! i = Some a ∧ changed a = true
           ∧ out !! i = Some b ∧ Str.lower (name (dst b)) = s.

(** What the resolver makes of a changed item [a] at position [j]: the
    destination is kept when its name is free, and otherwise gets the
    smallest positive counter whose name is free. *)
Definition resolved (rules : Rules) (plan out : list PlanItem) (j : nat)
    (a b : PlanItem) : Prop :=
  let stem := real_stem (dst a) in
  let ext := all_suffixes (dst a) in
  let cand n := suffixed stem (suffix_sep rules) n ext in
  let claimed := claimed_before plan out j in
  src b = src a
  ∧ flag_sound b
  ∧ ((¬ claimed (Str.lower (name (dst a)))
      ∧ dst b = dst a ∧ reason b = reason a)
     ∨ (∃ n, 0 < n
          ∧ dst b = mkPath (dir (dst a)) (cand n)
          ∧ reason b = "dedup-suffix"
          ∧ claimed (Str.lower (name (dst a)))
          ∧ (∀ k, 0 < k < n → claimed (Str.lower (cand k)))
          ∧ ¬ claimed (Str.lower (cand n)))).

(** The paths of an item as the directory tree knows them. *)
Definition src_path (it : PlanItem) : string := path_str (src it).
Definition dst_path (it : PlanItem) : string := path_str (dst it).
Definition tmp_path (tag : string) (it : PlanItem) : string :=
  path_str (tmp_of tag it).

(** The lines of the log that count as a success, and those that count as
    skipped (phase 2 failures count as neither). *)
Definition log_done (l : log_line) : bool :=
  match l with LogDone _ _ => true | _ => false end.
Definition log_skip (l : log_line) : bool :=
  match l with
  | LogNoChange _ | LogDstExists _ _ | LogFailed1 _ _ _ => true
  | LogDone _ _ | LogFailed2 _ _ _ => false
  end.


(** ** The selection of the graphical front end

    The callbacks of [run_ui] that decide what is checked.  The table widget
    is the list of its rows; the mouse events come with the column and the
    row that the widget has identified ([""] for none). *)

(** A row of the table: its iid and the columns [sel], [src], [dst] and
    [status] (the check mark and the status by what they say). *)
Record Row : Type := mkRow {
  iid : string;
  sel : bool;
  row_src : string;
  row_dst : string;
  row_changed : bool
}.

(** [state["drag"]] *)
Record Drag : Type := mkDrag {
  active : bool;
  target : option bool;
  seen : gset string
}.

(** What the selection depends on between two callbacks: [state["plan"]],
    [state["checked"]], [state["drag"]], the rows of the table and the three
    numbers in the text of the counter label. *)
Record UI : Type := mkUI {
  ui_plan : list PlanItem;
  checked : gset string;
  drag : Drag;
  tree : list Row;
  lbl_count : nat * nat * nat
}.

(** A callback returns, or a call of the widget raises [TclError] and leaves
    the state as it stands. *)
Inductive outcome : Type :=
  | Returned (st : UI)
  | TclError (st : UI).

(** [tree.set(iid, "sel", mark)]: fails on an iid that is no row. *)
Definition tree_set (i : string) (flag : bool) (rows : list Row)
    : option (list Row) :=
  if bool_decide (i ∈ iid <$> rows)
  then Some ((λ r, if String.eqb (iid r) i
                   then mkRow (iid r) flag (row_src r) (row_dst r)
                          (row_changed r)
                   else r) <$> rows)
  else None.

(** The numbers of the counter label: items, changed items, checked rows. *)
Definition count_label (plan : list PlanItem) (marked : gset string)
    : nat * nat * nat :=
  (length plan, length (filter (λ it, changed it = true) plan), size marked).

Definition _set_checked (i : string) (flag : bool) (st : UI) : outcome :=
  let marked := if flag then {[ i ]} ∪ checked st else checked st ∖ {[ i ]} in
  match tree_set i flag (tree st) with
  | Some rows =>
      Returned (mkUI (ui_plan st) marked (drag st) rows
                  (count_label (ui_plan st) marked))
  | None =>
      TclError (mkUI (ui_plan st) marked (drag st) (tree st) (lbl_count st))
  end.

Definition on_click (col row : string) (st : UI) : outcome :=
  if String.eqb col "#1" && negb (String.eqb row "") then
    let new_state := negb (bool_decide (row ∈ checked st)) in
    match _set_checked row new_state st with
    | Returned st' =>
        Returned (mkUI (ui_plan st') (checked st')
                    (mkDrag true (Some new_state) {[ row ]})
                    (tree st') (lbl_count st'))
    | TclError st' => TclError st'
    end
  else Returned st.

(** The truth value of [state["drag"]["target"]], which is [None] outside a
    gesture. *)
Definition truthy (t : option bool) : bool :=
  match t with Some b => b | None => false end.

Definition on_drag (row : string) (st : UI) : outcome :=
  if negb (active (drag st)) then Returned st
  else if negb (String.eqb row "")
          && negb (bool_decide (row ∈ seen (drag st))) then
    match _set_checked row (truthy (target (drag st))) st with
    | Returned st' =>
        Returned (mkUI (ui_plan st') (checked st')
                    (mkDrag (active (drag st')) (target (drag st'))
                       ({[ row ]} ∪ seen (drag st')))
                    (tree st') (lbl_count st'))
    | TclError st' => TclError st'
    end
  else Returned st.

Definition on_release (st : UI) : UI :=
  mkUI (ui_plan st) (checked st) (mkDrag false None ∅) (tree st)
    (lbl_count st).

(** The three buttons: [[_set_checked(i, flag) for i in
    tree.get_children("")]], the flag computed when its row is reached. *)
Fixpoint for_children (flag : string → UI → bool) (children : list string)
    (st : UI) : outcome :=
  match children with
  | [] => Returned st
  | i :: rest =>
      match _set_checked i (flag i st) st with
      | Returned st' => for_children flag rest st'
      | TclError st' => TclError st'
      end
  end.
Definition select_all (st : UI) : outcome :=
  for_children (λ _ _, true) (iid <$> tree st) st.
Definition select_none (st : UI) : outcome :=
  for_children (λ _ _, false) (iid <$> tree st) st.
Definition select_invert (st : UI) : outcome :=
  for_children (λ i st, negb (bool_decide (i ∈ checked st)))
    (iid <$> tree st) st.

(** What the user does to the selection. *)
Inductive event : Type :=
  | Click (col row : string)
  | Motion (row : string)
  | Release
  | SelectAll
  | SelectNone
  | Invert.

Definition handle (ev : event) (st : UI) : outcome :=
  match ev with
  | Click col row => on_click col row st
  | Motion row => on_drag row st
  | Release => Returned (on_release st)
  | SelectAll => select_all st
  | SelectNone => select_none st
  | Invert => select_invert st
  end.

(** The main loop goes on after a callback has raised; the outcome of a
    sequence of events says whether one of them did. *)
Fixpoint run_events (evs : list event) (st : UI) : outcome :=
  match evs with
  | [] => Returned st
  | ev :: rest =>
      match handle ev st with
      | Returned st' => run_events rest st'
      | TclError st' =>
          match run_events rest st' with
          | Returned st'' | TclError st'' => TclError st''
          end
      end
  end.

(** The name that [refresh_plan] remembers for a checked iid:
    [state["plan"][int(iid)].src.name], read in the plan that has just been
    computed; an iid that is no index of it is passed over. *)
Definition prev_name (plan : list PlanItem) (i : string) : option string :=
  match (z ← Str.int i; Seq.index plan z) with
  | Ok it => Some (name (src it))
  | Raise _ => None
  end.

Definition refresh_row (prev_names : gset string) (i : nat) (it : PlanItem)
    : Row :=
  mkRow (pretty (Z.of_nat i))
    (bool_decide (name (src it) ∈ prev_names) || changed it)
    (name (src it)) (name (dst it)) (changed it).

(** [refresh_plan]: the new state, and the exception shown in the message
    box when planning has raised (the state is then as it was). *)
Definition refresh_plan `{Externals} (files : list File) (rules : Rules)
    (st : UI) : UI * option exn :=
  match (plan ← build_plan files rules; dedupe plan rules) with
  | Raise e => (st, Some e)
  | Ok plan =>
      let prev_names : gset string :=
        list_to_set (omap (prev_name plan) (elements (checked st))) in
      let rows := imap (refresh_row prev_names) plan in
      let marked : gset string :=
        list_to_set (iid <$> filter (λ r, sel r = true) rows) in
      (mkUI plan marked (drag st) rows (count_label plan marked), None)
  end.

(** The table shows what is checked: the iids of the rows are distinct,
    every row carries the mark of its iid, only rows are checked, and the
    label counts right. *)
Definition consistent (st : UI) : Prop :=
  NoDup (iid <$> tree st)
  ∧ (∀ r, r ∈ tree st → sel r = bool_decide (iid r ∈ checked st))
  ∧ (∀ i, i ∈ checked st → i ∈ iid <$> tree st)
  ∧ lbl_count st = count_label (ui_plan st) (checked st).

(** The rows that the widget can identify under the pointer. *)
Definition event_in (rows : list string) (ev : event) : Prop :=
  match ev with
  | Click _ row | Motion row => row = "" ∨ row ∈ rows
  | Release | SelectAll | SelectNone | Invert => True
  end.

(** The marks after a gesture that sets the rows [painted] to [flag]. *)
Definition paint (flag : bool) (painted marked : gset string) : gset string :=
  if flag then painted ∪ marked else marked ∖ painted.

(** The iids of the table are the positions of the plan, as [refresh_plan]
    makes them. *)
Definition positional (st : UI) : Prop :=
  iid <$> tree st
  = (λ i, pretty (Z.of_nat i)) <$> seq 0 (length (ui_plan st)).

(** The comprehension of [on_apply_selected],
    [[plan[int(i)] for i in checked if plan[int(i)].changed]]: the test, then
    the element; [order] is [list(state["checked"])], the checked iids in the
    order in which the set hands them out. *)
Definition selected_step (plan : list PlanItem) (items : list PlanItem)
    (i : string) : result (list PlanItem) :=
  z ← Str.int i;
  it ← Seq.index plan z;
  if changed it
  then z' ← Str.int i; it' ← Seq.index plan z'; Ok (items ++ [it'])
  else Ok items.
Definition selected_items (order : list string) (plan : list PlanItem)
    : result (list PlanItem) :=
  foldM (selected_step plan) [] order.

(** ** Exporting the plan *)

Definition dquote : ascii := "034"%char.
Definition newline : ascii := "010"%char.

(** [str(b)] of a boolean. *)
Definition py_bool (b : bool) : string := if b then "True" else "False".

(** [s.rfind(c)], [None] for [-1]. *)
Fixpoint rfind (c : ascii) (s : string) : option nat :=
  match s with
  | EmptyString => None
  | String d r =>
      match rfind c r with
      | Some i => Some (S i)
      | None => if Char.eqb d c then Some O else None
      end
  end.

(** [p.suffix]: the name from its last dot on, when that dot is neither the
    first nor the last character. *)
Definition path_suffix (p : Path) : string :=
  match rfind "." (name p) with
  | Some i => if (0 <? i)%nat && (S i <? Str.len (name p))%nat
              then Str.drop i (name p) else ""
  | None => ""
  end.

(** The fields of an item that are exported. *)
Definition plan_fields (it : PlanItem) : string * string * bool * string :=
  (path_str (src it), path_str (dst it), changed it, reason it).

(** A line of the CSV file: the four fields between double quotes, with
    commas between them. *)
Definition csv_line (it : PlanItem) : string :=
  String dquote (path_str (src it) +:+
  String dquote ("," +:+
  String dquote (path_str (dst it) +:+
  String dquote ("," +:+
  String dquote (py_bool (changed it) +:+
  String dquote ("," +:+
  String dquote (reason it +:+
  String dquote ""))))))).

Section ExportPlan.
(** [json.dumps(data, ensure_ascii=False, indent=2)] on the list of the
    dictionaries of the items, from the standard library. *)
Variable json_dumps : list (string * string * bool * string) → string.

(** [export_plan]; the file is written into the directory tree. *)
Definition export_plan_file (plan : list PlanItem) (out_path : Path) (fs : FS)
    : FS :=
  let text :=
    if String.eqb (Str.lower (path_suffix out_path)) ".json"
    then json_dumps (plan_fields <$> plan)
    else Str.join (String newline "")
           ("src,dst,changed,reason" :: (csv_line <$> plan)) in
  <[path_str out_path := text]> fs.
End ExportPlan.

(** A field that the CSV file gives back as it was: it holds neither a
    double quote nor a line break. *)
Definition csv_clean (s : string) : Prop :=
  Str.forallb (λ c, negb (Char.eqb c dquote) && negb (Char.eqb c newline)) s
  = true.
Definition csv_clean_item (it : PlanItem) : Prop :=
  csv_clean (path_str (src it)) ∧ csv_clean (path_str (dst it))
  ∧ csv_clean (reason it).

(** * Properties *)

(** ** Strings *)

Section StringFacts.
Implicit Types s t u : string.

Lemma sapp_nil_l s : "" +:+ s = s.
Proof. reflexivity. Qed.

Lemma sapp_cons c s t : String c s +:+ t = String c (s +:+ t).
Proof. reflexivity. Qed.

Lemma sapp_nil_r s : s +:+ "" = s.
Proof. induction s as [|c s IH]; [done|]. by rewrite sapp_cons, IH. Qed.

Lemma sapp_assoc s t u : (s +:+ t) +:+ u = s +:+ (t +:+ u).
Proof. induction s as [|c s IH]; [done|]. by rewrite !sapp_cons, IH. Qed.

Lemma snoc_app s c t : Str.snoc s c +:+ t = s +:+ String c t.
Proof. unfold Str.snoc. by rewrite sapp_assoc. Qed.

Lemma len_sapp s t : Str.len (s +:+ t) = (Str.len s + Str.len t)%nat.
Proof. induction s as [|c s IH]; [done|]. rewrite sapp_cons. simpl. by rewrite IH. Qed.

Lemma prefix_nil s : String.prefix "" s = true.
Proof. by destruct s. Qed.

(** A prefix can be cut off and put back. *)
Lemma prefix_drop p s :
  String.prefix p s = true → s = p +:+ Str.drop (Str.len p) s.
Proof.
  revert s. induction p as [|c p IH]; intros s Hp.
  - by destruct s.
  - destruct s as [|d s]; [done|]. simpl in Hp.
    destruct (ascii_dec c d) as [->|]; [|done].
    rewrite sapp_cons. simpl. by rewrite <-IH.
Qed.

End StringFacts.

(** ** Splitting and joining *)

Lemma split_go_nonempty sep skip cur s : Str.split_go sep skip cur s ≠ [].
Proof.
  revert skip cur. induction s as [|c s IH]; intros skip cur; [done|].
  change (match skip with
          | S k => Str.split_go sep k cur s
          | O => if String.prefix sep (String c s)
                 then cur :: Str.split_go sep (Str.len sep - 1) "" s
                 else Str.split_go sep O (Str.snoc cur c) s
          end ≠ []).
  destruct skip; [|apply IH]. destruct (String.prefix sep _); [done|apply IH].
Qed.

Lemma join_cons sep x l :
  l ≠ [] → Str.join sep (x :: l) = x +:+ sep +:+ Str.join sep l.
Proof. by destruct l. Qed.

(** What [split_go] has cut, [join] glues: the segment being read, then the
    text that lies past the separator characters still to be skipped. *)
Lemma join_split_go sep skip cur s :
  sep ≠ "" →
  Str.join sep (Str.split_go sep skip cur s) = cur +:+ Str.drop skip s.
Proof.
  intros Hsep. revert skip cur.
  induction s as [|c s IH]; intros skip cur.
  - simpl. destruct skip; by rewrite sapp_nil_r.
  - change (Str.split_go sep skip cur (String c s))
      with (match skip with
            | S k => Str.split_go sep k cur s
            | O => if String.prefix sep (String c s)
                   then cur :: Str.split_go sep (Str.len sep - 1) "" s
                   else Str.split_go sep O (Str.snoc cur c) s
            end).
    destruct skip as [|k]; [|apply IH].
    destruct (String.prefix sep (String c s)) eqn:Hp.
    + rewrite join_cons by apply split_go_nonempty.
      rewrite IH, sapp_nil_l.
      change (Str.drop 0 (String c s)) with (String c s).
      rewrite (prefix_drop _ _ Hp) at 1.
      destruct sep as [|d sep]; [done|].
      simpl. by rewrite Nat.sub_0_r.
    + rewrite IH. simpl. apply snoc_app.
Qed.

(** C9: for every stem and every non-empty delimiter, [split_segments]
    returns a list of segments, and joining them with the delimiter gives the
    stem back. *)
Theorem split_segments_join (stem delim : string) :
  delim ≠ "" →
  ∃ segs, split_segments stem delim = Ok segs ∧ Str.join delim segs = stem.
Proof.
  intros Hd. unfold split_segments, Str.split.
  destruct (String.eqb_spec delim "") as [->|_]; [done|].
  eexists; split; [done|]. by rewrite join_split_go.
Qed.

Lemma split_segments_join_witness :
  "-" ≠ "" ∧
  ∃ segs, split_segments "2024-01--x" "-" = Ok segs ∧ Str.join "-" segs = "2024-01--x".
Proof. split; [done|]. apply split_segments_join. done. Defined.

(** ** The error monad *)

Lemma is_Ok_Ok {A} (a : A) : is_Ok (Ok a).
Proof. by exists a. Qed.


Lemma bind_Ok_inv {A B} (m : result A) (f : A → result B) b :
  m ≫= f = Ok b → ∃ a, m = Ok a ∧ f a = Ok b.
Proof. destruct m as [a|e]; [by exists a|done]. Qed.


Lemma foldM_app {S A} (f : S → A → result S) l1 l2 s :
  foldM f s (l1 ++ l2) = foldM f s l1 ≫= λ s', foldM f s' l2.
Proof.
  revert s. induction l1 as [|x l1 IH]; intros s; simpl; [done|].
  destruct (f s x) as [s'|e]; simpl; [apply IH|done].
Qed.


(** ** Splitting once *)

Lemma split1_go_eq sep cur s :
  Str.split1_go sep cur s =
  if String.prefix sep s then [cur; Str.drop (Str.len sep) s]
  else match s with
       | EmptyString => [cur]
       | String c r => Str.split1_go sep (Str.snoc cur c) r
       end.
Proof. by destruct s. Qed.

Lemma contains_eq sub s :
  Str.contains sub s =
  if String.prefix sub s then true
  else match s with
       | EmptyString => false
       | String _ r => Str.contains sub r
       end.
Proof. by destruct s. Qed.

Lemma endswith_eq s suf :
  Str.endswith s suf =
  if String.eqb s suf then true
  else match s with
       | EmptyString => false
       | String _ r => Str.endswith r suf
       end.
Proof. by destruct s. Qed.




Lemma split1_go_char c cur k rest :
  Str.forallb (λ x, negb (Char.eqb x c)) k = true →
  Str.split1_go (String c "") cur (k +:+ String c rest) = [cur +:+ k; rest].
Proof.
  revert cur. induction k as [|d k IH]; intros cur Hk; rewrite split1_go_eq.
  - rewrite sapp_nil_l, sapp_nil_r. simpl.
    destruct (ascii_dec c c); [|done]. by rewrite prefix_nil.
  - simpl in Hk. apply andb_prop in Hk as [Hd Hk].
    rewrite sapp_cons. simpl.
    destruct (ascii_dec c d) as [->|_].
    { unfold Char.eqb in Hd. by rewrite Ascii.eqb_refl in Hd. }
    rewrite IH by done. by rewrite snoc_app.
Qed.

(** A filter [k=arg]: the argument is what follows the first equals sign. *)
Lemma split1_arg k part :
  Str.forallb (λ x, negb (Char.eqb x "=")) k = true →
  Str.startswith part (k +:+ "=") = true →
  Str.split1 part "=" = Ok [k; Str.drop (S (Str.len k)) part].
Proof.
  intros Hk Hp. unfold Str.startswith in Hp.
  apply prefix_drop in Hp. rewrite len_sapp in Hp. simpl in Hp.
  rewrite Nat.add_1_r in Hp. rewrite Hp at 1.
  unfold Str.split1. simpl. rewrite sapp_assoc.
  change ("=" +:+ ?r) with (String "=" r).
  by rewrite split1_go_char.
Qed.

(** ** The filter chain never raises *)

Lemma index_pair_1 {A} (a b : A) : Seq.index [a; b] 1 = Ok b.
Proof. reflexivity. Qed.

Lemma bind_Ok {A B} (a : A) (f : A → result B) : Ok a ≫= f = f a.
Proof. reflexivity. Qed.









(** ** Scanning for placeholders *)

Lemma span_sapp stop a c rest :
  Str.forallb (λ x, negb (stop x)) a = true → stop c = true →
  span stop (a +:+ String c rest) = (a, String c rest).
Proof.
  intros Ha Hc. induction a as [|d a IH].
  - rewrite sapp_nil_l. simpl. by rewrite Hc.
  - simpl in Ha. apply andb_prop in Ha as [Hd Ha].
    rewrite sapp_cons. simpl. apply negb_true_iff in Hd. rewrite Hd.
    by rewrite IH.
Qed.

Lemma nonempty_eqb s : s ≠ "" → String.eqb s "" = false.
Proof. by intros ?%String.eqb_neq. Qed.

Lemma placeholder_at_bare key rest :
  key ≠ "" → Str.forallb key_char key = true →
  placeholder_at (key +:+ String "}" rest) = Some (key, None, S (Str.len key)).
Proof.
  intros Hne Hkey. unfold placeholder_at.
  rewrite (span_sapp _ key "}" rest) by done.
  by rewrite nonempty_eqb.
Qed.

Lemma placeholder_at_chain key fs rest :
  key ≠ "" → fs ≠ "" →
  Str.forallb key_char key = true → Str.forallb chain_char fs = true →
  placeholder_at (key +:+ String "|" (fs +:+ String "}" rest))
  = Some (key, Some fs, S (S (Str.len key + Str.len fs))).
Proof.
  intros Hne Hfs Hkey Hchain. unfold placeholder_at.
  rewrite (span_sapp _ key "|" _) by done.
  rewrite nonempty_eqb by done. change (Char.eqb "|" "}") with false. cbv iota.
  rewrite (span_sapp _ fs "}" rest) by done.
  by rewrite nonempty_eqb.
Qed.

Lemma placeholder_sub_skip f s rest :
  placeholder_sub f (Str.len s) (s +:+ rest) = placeholder_sub f O rest.
Proof. induction s as [|c s IH]; [by destruct rest|]. by rewrite sapp_cons. Qed.

(** A placeholder without filters is replaced by what [repl] returns for its
    key, and the scan goes on behind the closing brace. *)
Lemma placeholder_sub_bare f key rest :
  key ≠ "" → Str.forallb key_char key = true →
  placeholder_sub f O (String "{" (key +:+ String "}" rest))
  = v ← f key None; r ← placeholder_sub f O rest; Ok (v +:+ r).
Proof.
  intros Hne Hkey.
  change (placeholder_sub f O (String "{" ?s))
    with (match placeholder_at s with
          | Some (key, filters, n) =>
              v ← f key filters; r ← placeholder_sub f n s; Ok (v +:+ r)
          | None => r ← placeholder_sub f O s; Ok (String "{" r)
          end).
  rewrite placeholder_at_bare by done.
  replace (S (Str.len key)) with (Str.len (key +:+ "}"))
    by (rewrite len_sapp; simpl; lia).
  replace (key +:+ String "}" rest) with ((key +:+ "}") +:+ rest)
    by by rewrite sapp_assoc.
  by rewrite placeholder_sub_skip.
Qed.

Lemma placeholder_sub_chain f key fs rest :
  key ≠ "" → fs ≠ "" →
  Str.forallb key_char key = true → Str.forallb chain_char fs = true →
  placeholder_sub f O (String "{" (key +:+ String "|" (fs +:+ String "}" rest)))
  = v ← f key (Some fs); r ← placeholder_sub f O rest; Ok (v +:+ r).
Proof.
  intros Hne Hfs Hkey Hchain.
  change (placeholder_sub f O (String "{" ?s))
    with (match placeholder_at s with
          | Some (key, filters, n) =>
              v ← f key filters; r ← placeholder_sub f n s; Ok (v +:+ r)
          | None => r ← placeholder_sub f O s; Ok (String "{" r)
          end).
  rewrite placeholder_at_chain by done.
  replace (S (S (Str.len key + Str.len fs)))
    with (Str.len (key +:+ String "|" (fs +:+ "}")))
    by (rewrite len_sapp; simpl; rewrite len_sapp; simpl; lia).
  replace (key +:+ String "|" (fs +:+ String "}" rest))
    with ((key +:+ String "|" (fs +:+ "}")) +:+ rest)
    by by rewrite sapp_assoc, sapp_cons, sapp_assoc.
  by rewrite placeholder_sub_skip.
Qed.

(** Text without an opening brace is copied. *)
Lemma placeholder_sub_literal f lit rest :
  Str.forallb (λ c, negb (Char.eqb c "{")) lit = true →
  placeholder_sub f O (lit +:+ rest)
  = r ← placeholder_sub f O rest; Ok (lit +:+ r).
Proof.
  intros Hlit. induction lit as [|c lit IH].
  - rewrite sapp_nil_l. by destruct (placeholder_sub f O rest).
  - simpl in Hlit. apply andb_prop in Hlit as [Hc Hlit].
    apply negb_true_iff in Hc. rewrite sapp_cons. simpl. rewrite Hc.
    rewrite IH by done. by destruct (placeholder_sub f O rest).
Qed.

(** ** Fail-soft rendering *)



Lemma repl_unknown_key vars_map segs joiner key filters :
  vars_map !! Str.strip key = None →
  Str.endswith (Str.strip key) "+" = false →
  Str.contains ":" (Str.strip key) = false →
  safe_int (Str.strip key) 0 = 0 →
  repl vars_map segs joiner key filters = Ok "".
Proof.
  intros Hv Hp Hc Hi. unfold repl. rewrite Hv, Hp, Hc, Hi.
  destruct (decide _) as [[? ?]|_]; done.
Qed.





(** ** Index keys *)

Lemma index_last {A} (l : list A) x :
  last l = Some x → Seq.index l (Z.of_nat (length l) - 1) = Ok x.
Proof.
  intros Hl. rewrite last_lookup in Hl.
  assert (length l ≠ O) by (intros E; rewrite E in Hl; by destruct l).
  unfold Seq.index.
  destruct (_ <? 0) eqn:Hneg; [lia|].
  replace (_ && _) with true by (symmetry; apply andb_true_intro; split; lia).
  replace (Z.to_nat (Z.of_nat (length l) - 1)) with (pred (length l)) by lia.
  by rewrite Hl.
Qed.

Lemma repl_minus_one vars_map segs joiner filters x :
  vars_map !! "-1" = None → last segs = Some x →
  repl vars_map segs joiner "-1" filters = _apply_filters x filters.
Proof.
  intros Hv Hl. unfold repl.
  change (Str.strip "-1") with "-1". rewrite Hv.
  destruct (decide _) as [[? ?]|_]; [done|].
  change (Str.endswith "-1" "+") with false.
  change (Str.contains ":" "-1") with false.
  change (safe_int "-1" 0) with (-1). cbv iota. simpl negb.
  change (-1 <? 0) with true. cbv iota.
  replace (seg_len segs + 1 + -1) with (seg_len segs - 1 + 1) by lia.
  assert (1 ≤ seg_len segs).
  { unfold seg_len. destruct segs; [done|]. simpl length. lia. }
  replace (seg_len segs - 1 + 1) with (seg_len segs) by lia.
  replace (_ && _) with true by (symmetry; apply andb_true_intro; split; lia).
  unfold seg_len. by rewrite (index_last _ x).
Qed.

Lemma repl_zero vars_map segs joiner filters :
  vars_map !! "0" = None → repl vars_map segs joiner "0" filters = Ok "".
Proof. intros Hv. by apply repl_unknown_key. Qed.

(** C8: in a segment list of length N ≥ 1 (it has a last element), under
    every filter chain, the key [-1] resolves to the last segment, to which
    the chain is then applied, and the key [0] resolves to the empty string
    whatever N is; the bare placeholders render accordingly.  The digits are
    looked up among the named variables first, which hold identifiers only. *)
Theorem key_minus_one_and_zero
    (vars_map : gmap string pyval) (segs : list string) (joiner : string)
    (x : string) :
  vars_map !! "-1" = None → vars_map !! "0" = None →
  last segs = Some x →
  (∀ filters,
     repl vars_map segs joiner "-1" filters = _apply_filters x filters
     ∧ repl vars_map segs joiner "0" filters = Ok "")
  ∧ render_template "{-1}" vars_map segs joiner = Ok x
  ∧ render_template "{0}" vars_map segs joiner = Ok ""
  ∧ (∀ chain, chain ≠ "" → Str.forallb chain_char chain = true →
       render_template (String "{" ("-1" +:+ String "|" (chain +:+ "}")))
         vars_map segs joiner
       = _apply_filters x (Some chain)
       ∧ render_template (String "{" ("0" +:+ String "|" (chain +:+ "}")))
           vars_map segs joiner
         = Ok "").
Proof.
  intros Hm Hz Hl. split; [|split; [|split]].
  - intros filters. split; [by apply repl_minus_one|by apply repl_zero].
  - unfold render_template.
    rewrite (placeholder_sub_bare _ "-1" "") by done.
    rewrite (repl_minus_one _ _ _ _ x) by done. simpl. by rewrite sapp_nil_r.
  - unfold render_template.
    rewrite (placeholder_sub_bare _ "0" "") by done. by rewrite repl_zero.
  - intros chain Hne Hchain. unfold render_template.
    rewrite !placeholder_sub_chain by done.
    rewrite (repl_minus_one _ _ _ _ x), repl_zero by done. split; [|done].
    destruct (_apply_filters x (Some chain)) as [v|e]; [|done].
    simpl. by rewrite sapp_nil_r.
Qed.

Lemma key_minus_one_and_zero_witness :
  let vars_map := @builtin_vars sample_externals (file_in_data "a-b-c.txt" 1) 1
                    default_rules in
  let segs := ["a"; "b"; "c"] in
  vars_map !! "-1" = None
  ∧ vars_map !! "0" = None
  ∧ last segs = Some "c"
  ∧ (∀ filters,
       repl vars_map segs "-" "-1" filters = _apply_filters "c" filters
       ∧ repl vars_map segs "-" "0" filters = Ok "")
  ∧ render_template "{-1}" vars_map segs "-" = Ok "c"
  ∧ render_template "{0}" vars_map segs "-" = Ok ""
  ∧ (∀ chain, chain ≠ "" → Str.forallb chain_char chain = true →
       render_template (String "{" ("-1" +:+ String "|" (chain +:+ "}")))
         vars_map segs "-"
       = _apply_filters "c" (Some chain)
       ∧ render_template (String "{" ("0" +:+ String "|" (chain +:+ "}")))
           vars_map segs "-"
         = Ok "").
Proof.
  intros vars_map segs. do 3 (split; [reflexivity|]).
  apply (key_minus_one_and_zero vars_map segs "-" "c"); reflexivity.
Defined.

(** ** The planner *)

Lemma slice_prefix {A} (l : list A) h :
  0 ≤ h → Seq.slice l 0 (Some h) = take (Z.to_nat h) l.
Proof.
  intros Hh. unfold Seq.slice, Seq.bound.
  change (0 <? 0) with false. cbv iota.
  destruct (h <? 0) eqn:?; [lia|].
  rewrite (Z.min_r _ 0) by lia. change (Z.to_nat 0) with O.
  rewrite drop_0, Z.sub_0_r.
  destruct (Z.le_gt_cases h (Z.of_nat (length l))).
  - by rewrite Z.min_r by lia.
  - rewrite Z.min_l by lia. rewrite !take_ge; [done|lia..].
Qed.

(** ** Sorting *)

Lemma insert_sorted_perm {A} (le : A → A → bool) x l :
  Seq.insert_sorted le x l ≡ₚ x :: l.
Proof.
  induction l as [|y l IH]; simpl; [done|].
  destruct (le x y); [done|]. rewrite IH. apply Permutation_swap.
Qed.

Lemma stable_sort_perm {A} (le : A → A → bool) l : Seq.stable_sort le l ≡ₚ l.
Proof.
  induction l as [|x l IH]; simpl; [done|].
  by rewrite insert_sorted_perm, IH.
Qed.

Lemma insert_sorted_Sorted {A} (le : A → A → bool) x l :
  (∀ a b, le a b = false → le b a = true) →
  Sorted (λ a b, le a b = true) l →
  Sorted (λ a b, le a b = true) (Seq.insert_sorted le x l).
Proof.
  intros Htotal. induction 1 as [|y l Hl IH Hhd]; simpl.
  - by repeat constructor.
  - destruct (le x y) eqn:Hxy; [by repeat constructor|].
    constructor; [done|].
    destruct Hhd as [|z l Hyz]; simpl.
    + constructor. by apply Htotal.
    + destruct (le x z); constructor; [by apply Htotal|done].
Qed.

(** For a total order the result of the sort is ascending. *)
Lemma stable_sort_Sorted {A} (le : A → A → bool) l :
  (∀ a b, le a b = false → le b a = true) →
  Sorted (λ a b, le a b = true) (Seq.stable_sort le l).
Proof.
  intros Htotal. induction l as [|x l IH]; simpl; [constructor|].
  by apply insert_sorted_Sorted.
Qed.

Lemma sorted_perm {A} (le : A → A → bool) l reverse :
  Seq.sorted le l reverse ≡ₚ l.
Proof.
  unfold Seq.sorted. destruct reverse; [|apply stable_sort_perm].
  by rewrite <-Permutation_rev, stable_sort_perm, <-Permutation_rev.
Qed.

Section PlannerFacts.
Context `{Externals}.

Lemma with_name_Ok p new q :
  with_name p new = Ok q → q = mkPath (dir p) new.
Proof.
  unfold with_name. destruct (String.eqb (name p) ""); [done|].
  destruct (_ || _); [done|]. by intros [= <-].
Qed.

(** What [plan_item] returns, read off its last lines. *)
Lemma plan_item_Ok rules seq_value f it :
  plan_item rules seq_value f = Ok it →
  ∃ segs vars_map new_stem,
    split_segments (real_stem (path f)) (delimiter rules) = Ok segs
    ∧ item_vars rules seq_value f = Ok vars_map
    ∧ render_template (template rules) vars_map segs (slice_joiner rules)
      = Ok new_stem
    ∧ let new_name := if Str.contains "{ext}" (template rules)
                      then new_stem
                      else new_stem +:+ all_suffixes (path f) in
      it = mkPlanItem (path f) (mkPath (dir (path f)) new_name)
             (negb (String.eqb new_name (name (path f))))
             (if negb (String.eqb new_name (name (path f)))
              then "ok" else "no-change").
Proof.
  unfold plan_item. intros Hit.
  apply bind_Ok_inv in Hit as (segs & Hsegs & Hit).
  apply bind_Ok_inv in Hit as (vars_map & Hvars & Hit).
  apply bind_Ok_inv in Hit as (new_stem & Hnew & Hit).
  apply bind_Ok_inv in Hit as (d & Hd & Hit).
  apply with_name_Ok in Hd as ->. injection Hit as <-.
  by exists segs, vars_map, new_stem.
Qed.

(** The loop of [build_plan]: the [i]-th file that is taken is planned at
    the sequence value [seq0 + i * step], whatever its item turns out to
    be, and the counter ends [length kept] steps further. *)
Lemma plan_loop rules files seq0 plan0 seq' plan' :
  foldM (plan_step rules) (seq0, plan0) files = Ok (seq', plan') →
  let kept := filter (λ f, taken rules f = Ok true) files in
  seq' = seq0 + Z.of_nat (length kept) * seq_step rules
  ∧ ∃ items, plan' = plan0 ++ items
    ∧ length items = length kept
    ∧ ∀ i f, kept !! i = Some f →
        ∃ it, items !! i = Some it
          ∧ plan_item rules (seq0 + Z.of_nat i * seq_step rules) f = Ok it.
Proof.
  revert seq0 plan0. induction files as [|f files IH]; intros seq0 plan0.
  - simpl. intros [= <- <-]. split; [lia|].
    exists []. by rewrite app_nil_r.
  - intros Hrun. simpl in Hrun.
    apply bind_Ok_inv in Hrun as ([seq1 plan1] & Hstep & Hrun).
    apply IH in Hrun as (-> & items & -> & Hlen & Hitems). clear IH.
    unfold plan_step in Hstep.
    apply bind_Ok_inv in Hstep as (b & Hb & Hstep).
    cbn zeta. rewrite filter_cons. destruct b; simpl in Hstep.
    + apply bind_Ok_inv in Hstep as (it & Hit & [= <- <-]).
      rewrite decide_True by done. split; [simpl length; lia|].
      exists (it :: items). split; [by rewrite <-app_assoc|].
      split; [by simpl; rewrite Hlen|].
      intros [|i] g Hg; simpl in Hg.
      * injection Hg as <-. exists it. split; [done|].
        by rewrite Z.add_0_r.
      * destruct (Hitems i g Hg) as (it' & ? & Hit').
        exists it'. split; [done|]. rewrite <-Hit'. f_equal. lia.
    + injection Hstep as <- <-.
      rewrite decide_False by (rewrite Hb; done). eauto.
Qed.

(** The plan is the list of the items of the kept files, cut at the preview
    limit. *)
Lemma build_plan_Ok files rules plan :
  build_plan files rules = Ok plan →
  let kept := kept_files files rules in
  length plan = (if 0 <? preview_limit rules
                 then Nat.min (Z.to_nat (preview_limit rules)) (length kept)
                 else length kept)
  ∧ ∀ i it, plan !! i = Some it →
      ∃ f, kept !! i = Some f
        ∧ plan_item rules (seq_start rules + Z.of_nat i * seq_step rules) f
          = Ok it.
Proof.
  unfold build_plan, kept_files. intros Hrun.
  apply bind_Ok_inv in Hrun as ([seq' full] & Hloop & Hplan).
  apply plan_loop in Hloop as (_ & items & Hfull & Hlen & Hitems).
  simpl in Hfull. subst full.
  set (kept := filter _ _) in *.
  assert (∀ i it, items !! i = Some it →
            ∃ f, kept !! i = Some f
              ∧ plan_item rules (seq_start rules + Z.of_nat i * seq_step rules) f
                = Ok it) as Hall.
  { intros i it Hi.
    destruct (kept !! i) as [f|] eqn:Hf.
    - destruct (Hitems i f Hf) as (it' & Hi' & ?). exists f. split; [done|].
      congruence.
    - apply lookup_ge_None in Hf. apply lookup_lt_Some in Hi. lia. }
  injection Hplan as <-. cbn zeta.
  destruct (0 <? preview_limit rules) eqn:Hlim; [|by rewrite Hlen].
  rewrite slice_prefix by lia.
  split.
  - rewrite length_take, Hlen. lia.
  - intros i it Hi. apply lookup_take_Some in Hi as [Hi _]. by apply Hall.
Qed.

(** By default the files are taken in the order of their lower-cased
    names. *)
Lemma sort_files_by_name files :
  Sorted (λ a b, name_le a b = true) (sort_files files "name" "asc").
Proof.
  apply stable_sort_Sorted. intros a b Hab. unfold name_le in *.
  destruct (String.leb_total (name_key a) (name_key b)); congruence.
Qed.

(** The kept files are the files of the listing that pass both guards. *)
Lemma kept_files_spec files rules f :
  f ∈ kept_files files rules ↔ f ∈ files ∧ taken rules f = Ok true.
Proof.
  unfold kept_files, sort_files. rewrite list_elem_of_filter.
  repeat case_match; rewrite sorted_perm; tauto.
Qed.

End PlannerFacts.

(** ** Stem and extension *)


Lemma lstrip_by_sapp f s : ∃ pre, s = pre +:+ Str.lstrip_by f s.
Proof.
  induction s as [|c s [pre IH]]; [by exists ""|]. simpl.
  destruct (f c); [|by exists ""].
  exists (String c pre). by rewrite sapp_cons, <-IH.
Qed.

Lemma slice_tail {A} (x : A) l : Seq.slice (x :: l) 1 None = l.
Proof.
  unfold Seq.slice, Seq.bound. change (1 <? 0) with false. cbv iota.
  rewrite Z.min_r by (simpl length; lia).
  change (Z.to_nat 1) with 1%nat. simpl drop.
  apply take_ge. simpl length. lia.
Qed.

Lemma join_dotted l :
  l ≠ [] → Str.join "" ((λ suffix, "." +:+ suffix) <$> l) = "." +:+ Str.join "." l.
Proof.
  induction l as [|x [|y l] IH]; intros Hl; [done|done|].
  rewrite fmap_cons, !join_cons by done.
  rewrite IH by done. rewrite sapp_nil_l. by rewrite !sapp_assoc.
Qed.

(** A name is its stem followed by its extension. *)
Lemma name_all_suffixes p : ∃ x, name p = x +:+ all_suffixes p.
Proof.
  unfold all_suffixes, suffixes.
  destruct (Str.endswith (name p) "."); [exists (name p); by rewrite sapp_nil_r|].
  destruct (lstrip_by_sapp (Char.eqb ".") (name p)) as [pre Hpre].
  set (nm := Str.lstrip_by _ _) in *.
  pose proof (join_split_go "." O "" nm ltac:(done)) as Hjoin.
  destruct (Str.split_go "." O "" nm) as [|hd tl] eqn:Hsplit.
  { by apply split_go_nonempty in Hsplit. }
  rewrite slice_tail. destruct tl as [|y tl].
  - exists (name p). by rewrite sapp_nil_r.
  - rewrite join_dotted by done. rewrite join_cons in Hjoin by done.
    rewrite sapp_nil_l in Hjoin. simpl Str.drop in Hjoin.
    exists (pre +:+ hd). rewrite Hpre at 1. rewrite <-Hjoin.
    by rewrite !sapp_assoc.
Qed.

Lemma take_sapp x y : Str.take (Str.len x) (x +:+ y) = x.
Proof. induction x as [|c x IH]; [by destruct y|]. rewrite sapp_cons. simpl. by rewrite IH. Qed.

Lemma name_stem_ext p : name p = real_stem p +:+ all_suffixes p.
Proof.
  destruct (name_all_suffixes p) as [x Hx]. unfold real_stem.
  destruct (String.eqb_spec (all_suffixes p) "") as [->|Hne].
  { by rewrite sapp_nil_r. }
  rewrite Hx at 2. f_equal. rewrite Hx at 1.
  unfold Seq.str_upto, Seq.bound.
  assert (Str.len (all_suffixes p) ≠ O) by (by destruct (all_suffixes p)).
  destruct (_ <? 0) eqn:?; [|lia].
  rewrite len_sapp.
  replace (Z.to_nat _) with (Str.len x) by lia.
  by rewrite take_sapp.
Qed.

(** ** Extensions, sequence numbers and the changed flag *)

Section PlanTheorems.
Context `{Externals}.

(** C6: when the template does not contain the token [{ext}], the
    destination name of a planned file is the rendered template followed by
    the file's full extension, which is what follows the stem in the file's
    name; [archive.tar.gz] has stem [archive] and
    extension [.tar.gz], and the template [{stem}_backup] sends it to
    [archive_backup.tar.gz]. *)
Theorem extension_appended :
  (∀ rules seq_value f it,
     Str.contains "{ext}" (template rules) = false →
     plan_item rules seq_value f = Ok it →
     ∃ segs vars_map new_stem,
       split_segments (real_stem (path f)) (delimiter rules) = Ok segs
       ∧ item_vars rules seq_value f = Ok vars_map
       ∧ render_template (template rules) vars_map segs (slice_joiner rules)
         = Ok new_stem
       ∧ name (dst it) = new_stem +:+ all_suffixes (path f))
  ∧ (∀ files rules plan i it,
       Str.contains "{ext}" (template rules) = false →
       build_plan files rules = Ok plan → plan !! i = Some it →
       ∃ f new_stem,
         kept_files files rules !! i = Some f ∧ src it = path f
         ∧ name (dst it) = new_stem +:+ all_suffixes (path f))
  ∧ (∀ p, name p = real_stem p +:+ all_suffixes p)
  ∧ (∀ d t seq_value,
       let f := mkFile (mkPath d "archive.tar.gz") t t in
       real_stem (path f) = "archive"
       ∧ all_suffixes (path f) = ".tar.gz"
       ∧ plan_item (with_template "{stem}_backup" default_rules) seq_value f
         = Ok (mkPlanItem (path f) (mkPath d "archive_backup.tar.gz")
                 true "ok")).
Proof.
  split; [|split; [|split]]; cycle 2.
  { apply name_stem_ext. }
  { intros d t seq_value f. by vm_compute. }
  - intros rules seq_value f it Hext Hit.
    apply plan_item_Ok in Hit as (segs & vars_map & new_stem & ? & ? & ? & ->).
    exists segs, vars_map, new_stem. by rewrite Hext.
  - intros files rules plan i it Hext Hplan Hi.
    apply build_plan_Ok in Hplan as [_ Hplan].
    destruct (Hplan i it Hi) as (f & Hf & Hit).
    apply plan_item_Ok in Hit as (segs & vars_map & new_stem & ? & ? & ? & ->).
    exists f, new_stem. by rewrite Hext.
Qed.

Lemma img_seq_rendered rules seq_value f segs :
  render_template "img_{seq}" (builtin_vars f seq_value rules) segs
    (slice_joiner rules)
  = Ok ("img_" +:+ Str.zfill (pretty seq_value) (Z.max 0 (seq_pad rules))).
Proof.
  unfold render_template.
  change (placeholder_sub ?r 0 "img_{seq}")
    with (rest ← (v ← r "seq" None; Ok (v +:+ "")); Ok ("img_" +:+ rest)).
  unfold repl. change (Str.strip "seq") with "seq".
  assert (builtin_vars f seq_value rules !! "seq"
          = Some (PyStr (Str.zfill (pretty seq_value) (Z.max 0 (seq_pad rules)))))
    as Hseq by reflexivity.
  destruct (decide _) as [_|Hn]; [|by rewrite Hseq in Hn; destruct Hn; eauto].
  unfold dict_get. rewrite Hseq. simpl. by rewrite sapp_nil_r.
Qed.

(** C7: the sequence counter starts at the configured start value and
    advances by the configured step once for each file that passes the
    filters, in sort order: the kept files are the files of the listing that
    pass the guards, by default in the order of their lower-cased names, and
    the [i]-th of them is planned at
    [seq_start + i * seq_step], whether or not its name changes.  With start
    1, step 1, pad 3 and the template [img_{seq}], the [i]-th planned
    destination is [img_] followed by the padded [1 + i] and the file's
    extension, whatever the file is called; three files listed in any order
    get [img_001], [img_002], [img_003] in the order of their names. *)
Theorem sequence_numbers :
  (∀ files rules f,
     f ∈ kept_files files rules ↔ f ∈ files ∧ taken rules f = Ok true)
  ∧ (∀ files,
       Sorted (λ a b, name_le a b = true) (sort_files files "name" "asc"))
  ∧ (∀ files rules plan,
     build_plan files rules = Ok plan →
     length plan = (if 0 <? preview_limit rules
                    then Nat.min (Z.to_nat (preview_limit rules))
                           (length (kept_files files rules))
                    else length (kept_files files rules))
     ∧ ∀ i it, plan !! i = Some it →
         ∃ f, kept_files files rules !! i = Some f
           ∧ plan_item rules (seq_start rules + Z.of_nat i * seq_step rules) f
             = Ok it)
  ∧ (∀ files rules plan i it,
       template rules = "img_{seq}" → regex rules = None →
       seq_start rules = 1 → seq_step rules = 1 → seq_pad rules = 3 →
       build_plan files rules = Ok plan → plan !! i = Some it →
       ∃ f, kept_files files rules !! i = Some f ∧ src it = path f
         ∧ name (dst it)
           = "img_" +:+ Str.zfill (pretty (1 + Z.of_nat i)) 3
             +:+ all_suffixes (path f))
  ∧ (let rules := with_seq_pad 3 (with_template "img_{seq}" default_rules) in
     let zebra := file_in_data "zebra" 1 in
     let apple := file_in_data "Apple" 2 in
     let mango := file_in_data "mango" 3 in
     build_plan [zebra; apple; mango] rules
     = Ok [ mkPlanItem (path apple) (mkPath "/data/" "img_001") true "ok";
            mkPlanItem (path mango) (mkPath "/data/" "img_002") true "ok";
            mkPlanItem (path zebra) (mkPath "/data/" "img_003") true "ok" ]).
Proof.
  split; [apply kept_files_spec|]. split; [apply sort_files_by_name|].
  split; [|split].
  - intros files rules plan Hplan. by apply build_plan_Ok in Hplan.
  - intros files rules plan i it Htpl Hre Hstart Hstep Hpad Hplan Hi.
    apply build_plan_Ok in Hplan as [_ Hplan].
    destruct (Hplan i it Hi) as (f & Hf & Hit).
    exists f. split; [done|].
    apply plan_item_Ok in Hit as (segs & vars_map & new_stem & _ & Hv & Hr & ->).
    unfold item_vars in Hv. rewrite Hre in Hv. injection Hv as <-.
    rewrite Htpl in *. rewrite img_seq_rendered in Hr. injection Hr as <-.
    rewrite Hstart, Hstep, Hpad. simpl.
    split; [done|]. by rewrite sapp_assoc, Z.mul_1_r.
  - by vm_compute.
Qed.

Lemma flag_sound_intro s d r :
  flag_sound (mkPlanItem s d (negb (String.eqb (name d) (name s))) r).
Proof.
  unfold flag_sound. simpl.
  destruct (String.eqb_spec (name d) (name s)); simpl; split; congruence.
Qed.

Lemma plan_item_flag rules seq_value f it :
  plan_item rules seq_value f = Ok it → flag_sound it.
Proof.
  intros Hit.
  apply plan_item_Ok in Hit as (segs & vars_map & new_stem & _ & _ & _ & ->).
  apply (flag_sound_intro (path f) (mkPath _ _)).
Qed.

Lemma build_plan_flags files rules plan :
  build_plan files rules = Ok plan → Forall flag_sound plan.
Proof.
  intros Hplan. apply build_plan_Ok in Hplan as [_ Hplan].
  apply Forall_lookup. intros i it Hi.
  destruct (Hplan i it Hi) as (f & _ & Hit). by eapply plan_item_flag.
Qed.

End PlanTheorems.

(** ** Candidate names of the conflict resolver *)

Lemma map_sapp f s t : Str.map f (s +:+ t) = Str.map f s +:+ Str.map f t.
Proof. induction s as [|c s IH]; [done|]. rewrite !sapp_cons. simpl. by rewrite IH. Qed.

Lemma lower_sapp s t : Str.lower (s +:+ t) = Str.lower s +:+ Str.lower t.
Proof. apply map_sapp. Qed.

Lemma sapp_inv_tail (a b e : string) : a +:+ e = b +:+ e → a = b.
Proof.
  revert b. induction a as [|c a IH]; intros [|d b] Heq; try done.
  - apply (f_equal Str.len) in Heq. rewrite sapp_cons, sapp_nil_l in Heq.
    simpl in Heq. rewrite len_sapp in Heq. lia.
  - apply (f_equal Str.len) in Heq. rewrite sapp_cons, sapp_nil_l in Heq.
    simpl in Heq. rewrite len_sapp in Heq. lia.
  - rewrite !sapp_cons in Heq. injection Heq as -> Heq. f_equal. by apply IH.
Qed.

Lemma lower_pretty_N_char x : Char.lower (pretty_N_char x) = pretty_N_char x.
Proof. unfold pretty_N_char. by repeat case_match. Qed.

Lemma lower_pretty_N_go x s :
  Str.lower s = s → Str.lower (pretty_N_go x s) = pretty_N_go x s.
Proof.
  revert s. induction (N.lt_wf_0 x) as [x _ IH]; intros s Hs.
  destruct (decide (x = 0)%N) as [->|].
  - by rewrite pretty_N_go_0.
  - rewrite pretty_N_go_step by lia. apply IH.
    + apply N.div_lt; lia.
    + unfold Str.lower in *. simpl. by rewrite lower_pretty_N_char, Hs.
Qed.

Lemma lower_pretty_N (x : N) : Str.lower (pretty x) = pretty x.
Proof.
  unfold pretty, pretty_N. case_decide; [done|]. by apply lower_pretty_N_go.
Qed.

(** Decimal numerals have no upper-case letters. *)
Lemma lower_pretty (z : Z) : Str.lower (pretty z) = pretty z.
Proof.
  destruct z as [|p|p]; [done|apply lower_pretty_N|].
  unfold pretty, pretty_Z. rewrite lower_sapp.
  change (pretty p) with (pretty (N.pos p)). by rewrite lower_pretty_N.
Qed.

Lemma lower_suffixed stem sep n ext :
  Str.lower (suffixed stem sep n ext)
  = Str.lower stem +:+ Str.lower sep +:+ pretty n +:+ Str.lower ext.
Proof. unfold suffixed. by rewrite !lower_sapp, lower_pretty. Qed.

(** Distinct counters give distinct candidates, also up to case. *)
Lemma lower_suffixed_inj stem sep ext :
  Inj (=) (=) (λ n, Str.lower (suffixed stem sep n ext)).
Proof.
  intros n m Heq. simpl in Heq. rewrite !lower_suffixed in Heq.
  do 2 apply String.app_inj in Heq.
  apply sapp_inv_tail in Heq. by apply (inj pretty).
Qed.

(** ** The probing loop *)

Lemma probe_Ok fuel seen stem sep ext n base n' base' :
  probe fuel seen stem sep ext n base = Ok (n', base') →
  (base' ∉ seen)
  ∧ ((n' = n ∧ base' = base)
     ∨ (n < n' ∧ base' = Str.lower (suffixed stem sep n' ext))).
Proof.
  revert n base. induction fuel as [|fuel IH]; intros n base; simpl.
  - destruct (decide (base ∈ seen)); [done|]. intros [= <- <-]. auto.
  - destruct (decide (base ∈ seen)).
    + intros Hp. apply IH in Hp as [? [[-> ->]|[? ->]]];
        (split; [done|right; split; [lia|done]]).
    + intros [= <- <-]. auto.
Qed.

Lemma probe_Raise fuel seen stem sep ext n base e :
  probe fuel seen stem sep ext n base = Raise e →
  e = LoopBound ∧ base ∈ seen
  ∧ ∀ k, n < k ≤ n + Z.of_nat fuel → Str.lower (suffixed stem sep k ext) ∈ seen.
Proof.
  revert n base. induction fuel as [|fuel IH]; intros n base; simpl.
  - destruct (decide (base ∈ seen)); [|done]. intros [= <-].
    repeat split; [done|]. intros k ?. lia.
  - destruct (decide (base ∈ seen)); [|done].
    intros Hp. apply IH in Hp as (-> & Hnext & Hrest).
    repeat split; [done|]. intros k Hk.
    destruct (decide (k = n + 1)) as [->|]; [done|]. apply Hrest. lia.
Qed.

(** More rounds than claimed names: the loop finds a free name. *)
Lemma probe_total fuel seen stem sep ext n base :
  (size seen < fuel)%nat → is_Ok (probe fuel seen stem sep ext n base).
Proof.
  intros Hfuel.
  destruct (probe fuel seen stem sep ext n base) as [r|e] eqn:Hp;
    [apply is_Ok_Ok|].
  apply probe_Raise in Hp as (_ & _ & Hall). exfalso.
  set (cand := λ k, Str.lower (suffixed stem sep k ext)).
  set (l := cand <$> seqZ (n + 1) (Z.of_nat fuel)).
  assert (NoDup l) as Hnd.
  { assert (Inj (=) (=) cand) by apply lower_suffixed_inj.
    apply (NoDup_fmap_2 cand), NoDup_seqZ. }
  assert (list_to_set l ⊆ seen) as Hsub.
  { intros x Hx. apply elem_of_list_to_set, list_elem_of_fmap in Hx as (k & -> & Hk).
    apply elem_of_seqZ in Hk. apply Hall. lia. }
  apply subseteq_size in Hsub. rewrite size_list_to_set in Hsub by done.
  unfold l in Hsub. rewrite length_fmap, length_seqZ in Hsub. lia.
Qed.

(** ** The loop of the conflict resolver *)

Lemma dedupe_step_Ok rules seen out it seen' out' :
  dedupe_step rules (seen, out) it = Ok (seen', out') →
  (changed it = false ∧ seen' = seen ∧ out' = out ++ [it])
  ∨ (changed it = true
     ∧ ∃ final r,
         out' = out ++ [mkPlanItem (src it) final
                          (negb (String.eqb (name final) (name (src it)))) r]
         ∧ seen' = {[ Str.lower (name final) ]} ∪ seen
         ∧ (Str.lower (name final) ∉ seen)).
Proof.
  unfold dedupe_step. destruct (changed it); simpl negb; cbv iota;
    [|intros [= <- <-]; auto].
  intros Hstep. right. split; [done|].
  apply bind_Ok_inv in Hstep as ([n base] & Hprobe & Hstep).
  apply bind_Ok_inv in Hstep as (final & Hfinal & [= <- <-]).
  exists final, (if 0 <? n then "dedup-suffix" else reason it).
  do 2 (split; [done|]).
  apply probe_Ok in Hprobe as [Hfree Hn].
  destruct (n =? 0) eqn:Hn0.
  - injection Hfinal as <-. destruct Hn as [[_ ->]|[? _]]; [done|lia].
  - apply with_name_Ok in Hfinal as ->. simpl.
    destruct Hn as [[-> _]|[_ ->]]; [lia|done].
Qed.

Lemma dedupe_step_bounded rules st it :
  dedupe_step rules st it ≠ Raise LoopBound.
Proof.
  destruct st as [seen out]. unfold dedupe_step.
  destruct (changed it); simpl negb; cbv iota; [|done].
  destruct (probe_total (S (size seen)) seen (real_stem (dst it))
              (suffix_sep rules) (all_suffixes (dst it)) 0
              (Str.lower (name (dst it)))) as [[n base] ->]; [lia|].
  simpl. destruct (n =? 0); [done|].
  unfold with_name. destruct (String.eqb _ ""); [done|].
  by destruct (_ || _).
Qed.

Lemma foldM_never {S A} (f : S → A → result S) e l s :
  (∀ s x, f s x ≠ Raise e) → foldM f s l ≠ Raise e.
Proof.
  intros Hf. revert s. induction l as [|x l IH]; intros s; simpl; [done|].
  destruct (f s x) as [s'|e'] eqn:Hx; simpl; [apply IH|].
  intros [= ->]. by apply (Hf s x).
Qed.

Lemma dedupe_loop rules plan st :
  foldM (dedupe_step rules) (∅, []) plan = Ok st → dedupe_inv plan st.
Proof.
  revert st. induction plan as [|x plan IH] using rev_ind; intros st.
  { simpl. intros [= <-]. repeat split; simpl; intros; by simplify_list_eq. }
  rewrite foldM_app. intros Hrun.
  apply bind_Ok_inv in Hrun as ([seen out] & Hpre & Hstep).
  apply IH in Hpre as (Hlen & Hitem & Hdiff). clear IH. simpl in *.
  apply bind_Ok_inv in Hstep as ([seen' out'] & Hstep & [= <-]).
  assert (∃ y, out' = out ++ [y] ∧ seen ⊆ seen'
            ∧ (if changed x
               then src y = src x ∧ Str.lower (name (dst y)) ∈ seen'
                    ∧ (Str.lower (name (dst y)) ∉ seen) ∧ flag_sound y
               else y = x)) as (y & -> & Hsub & Hy).
  { apply dedupe_step_Ok in Hstep
      as [(Hc & -> & ->)|(Hc & final & r & -> & -> & Hfree)]; rewrite Hc.
    - by exists x.
    - eexists. split; [done|]. split; [set_solver|]. simpl.
      split; [done|]. split; [set_solver|]. split; [done|].
      apply flag_sound_intro. }
  clear Hstep. unfold dedupe_inv. simpl. split; [|split].
  - rewrite !length_app. simpl. lia.
  - intros j a b Ha Hb.
    apply lookup_snoc_Some in Ha as [[Hj Ha]|[-> <-]];
      apply lookup_snoc_Some in Hb as [[Hj' Hb]|[Hj' <-]]; try lia.
    + specialize (Hitem j a b Ha Hb). destruct (changed a); [|done].
      destruct Hitem as (? & ? & ?). split; [done|]. split; [set_solver|done].
    + destruct (changed x); [|done]. tauto.
  - intros i j a a' b b' Hij Ha Ha' Hc Hc' Hb Hb'.
    apply lookup_snoc_Some in Ha as [[Hi Ha]|[-> <-]];
      apply lookup_snoc_Some in Ha' as [[Hj Ha']|[-> <-]];
      apply lookup_snoc_Some in Hb as [[? Hb]|[? <-]];
      apply lookup_snoc_Some in Hb' as [[? Hb']|[? <-]]; try lia.
    + by eapply Hdiff.
    + specialize (Hitem i a b Ha Hb). rewrite Hc in Hitem. rewrite Hc' in Hy.
      destruct Hitem as (_ & Hin & _), Hy as (_ & _ & Hout & _). congruence.
    + specialize (Hitem j a' b' Ha' Hb'). rewrite Hc' in Hitem. rewrite Hc in Hy.
      destruct Hitem as (_ & Hin & _), Hy as (_ & _ & Hout & _). congruence.
Qed.

(** ** The resolver returns *)

Lemma forallb_sapp f s t :
  Str.forallb f (s +:+ t) = Str.forallb f s && Str.forallb f t.
Proof.
  induction s as [|c s IH]; [done|]. rewrite sapp_cons. simpl.
  by rewrite IH, andb_assoc.
Qed.

Lemma contains_char c s :
  Str.contains (String c "") s
  = negb (Str.forallb (λ x, negb (Char.eqb x c)) s).
Proof.
  induction s as [|d s IH]; [done|]. rewrite contains_eq. simpl.
  unfold Char.eqb. rewrite (Ascii.eqb_sym d c).
  destruct (ascii_dec c d) as [->|Hne].
  - by rewrite prefix_nil, Ascii.eqb_refl.
  - apply Ascii.eqb_neq in Hne. by rewrite Hne, IH.
Qed.

Lemma slash_free_forallb s :
  slash_free s ↔ Str.forallb (λ x, negb (Char.eqb x "/")) s = true.
Proof.
  unfold slash_free. rewrite contains_char. by destruct (Str.forallb _ s).
Qed.

Lemma slash_free_sapp s t : slash_free (s +:+ t) ↔ slash_free s ∧ slash_free t.
Proof. rewrite !slash_free_forallb, forallb_sapp. apply andb_true_iff. Qed.

Lemma pretty_N_go_forallb (P : ascii → bool) x s :
  (∀ y, P (pretty_N_char y) = true) →
  Str.forallb P s = true → Str.forallb P (pretty_N_go x s) = true.
Proof.
  intros HP. revert s. induction (N.lt_wf_0 x) as [x _ IH]; intros s Hs.
  destruct (decide (x = 0)%N) as [->|].
  - by rewrite pretty_N_go_0.
  - rewrite pretty_N_go_step by lia. apply IH.
    + apply N.div_lt; lia.
    + simpl. by rewrite HP, Hs.
Qed.

Lemma pretty_N_go_nonempty x s : s ≠ "" → pretty_N_go x s ≠ "".
Proof.
  revert s. induction (N.lt_wf_0 x) as [x _ IH]; intros s Hs.
  destruct (decide (x = 0)%N) as [->|].
  - by rewrite pretty_N_go_0.
  - rewrite pretty_N_go_step by lia. apply IH; [apply N.div_lt; lia|done].
Qed.

(** A decimal numeral is not empty and is made of digits and the sign. *)
Lemma pretty_shape (P : ascii → bool) (z : Z) :
  (∀ y, P (pretty_N_char y) = true) → P "-"%char = true →
  pretty z ≠ "" ∧ Str.forallb P (pretty z) = true.
Proof.
  intros HP Hminus.
  assert (∀ p : positive,
            pretty (N.pos p) ≠ "" ∧ Str.forallb P (pretty (N.pos p)) = true)
    as Hpos.
  { intros p. unfold pretty, pretty_N. rewrite decide_False by done.
    rewrite pretty_N_go_step by lia. split.
    - by apply pretty_N_go_nonempty.
    - apply pretty_N_go_forallb; [done|]. simpl. by rewrite HP. }
  destruct z as [|p|p].
  - split; [done|].
    change (Str.forallb P (pretty 0)) with (P (pretty_N_char 0) && true).
    by rewrite HP.
  - apply Hpos.
  - unfold pretty, pretty_Z. split; [done|].
    change ("-" +:+ ?s) with (String "-" s). simpl.
    rewrite Hminus. apply Hpos.
Qed.

Lemma slash_free_pretty (z : Z) : slash_free (pretty z).
Proof.
  apply slash_free_forallb, pretty_shape; [|done].
  intros y. unfold pretty_N_char. by repeat case_match.
Qed.

Lemma suffixed_not_dot stem sep n ext : suffixed stem sep n ext ≠ ".".
Proof.
  unfold suffixed. intros Heq.
  destruct (pretty_shape (λ c, negb (Char.eqb c ".")) n) as [Hne Hall];
    [intros y; unfold pretty_N_char; by repeat case_match|done|].
  pose proof (f_equal Str.len Heq) as Hlen. rewrite !len_sapp in Hlen.
  assert (Str.len (pretty n) ≠ O) by by destruct (pretty n).
  assert (stem = "") as -> by (destruct stem; [done|simpl in Hlen; lia]).
  assert (sep = "") as -> by (destruct sep; [done|simpl in Hlen; lia]).
  assert (ext = "") as -> by (destruct ext; [done|simpl in Hlen; lia]).
  rewrite !sapp_nil_l, sapp_nil_r in Heq. by rewrite Heq in Hall.
Qed.

Lemma suffixed_nonempty stem sep n ext : suffixed stem sep n ext ≠ "".
Proof.
  unfold suffixed. intros Heq.
  destruct (pretty_shape (λ _, true) n) as [Hne _]; [done..|].
  apply (f_equal Str.len) in Heq. rewrite !len_sapp in Heq.
  destruct (pretty n); [done|]. simpl in Heq. lia.
Qed.

Lemma with_name_valid p new :
  name p ≠ "" → new ≠ "" → slash_free new → new ≠ "." →
  with_name p new = Ok (mkPath (dir p) new).
Proof.
  intros Hp Hnew Hslash Hdot. unfold with_name.
  rewrite !nonempty_eqb by done. rewrite Hslash.
  by destruct (String.eqb_spec new ".").
Qed.

Lemma with_name_Ok_valid p new q :
  with_name p new = Ok q → name p ≠ "" ∧ new ≠ "" ∧ slash_free new.
Proof.
  unfold with_name, slash_free.
  destruct (String.eqb_spec (name p) ""); [done|].
  destruct (String.eqb_spec new ""); [done|].
  destruct (Str.contains "/" new); [done|]. done.
Qed.

Lemma dedupe_step_total rules st it :
  slash_free (suffix_sep rules) → valid_dst it →
  is_Ok (dedupe_step rules st it).
Proof.
  intros Hsep [Hne Hslash]. destruct st as [seen out]. unfold dedupe_step.
  destruct (changed it); simpl negb; cbv iota; [|apply is_Ok_Ok].
  destruct (probe_total (S (size seen)) seen (real_stem (dst it))
              (suffix_sep rules) (all_suffixes (dst it)) 0
              (Str.lower (name (dst it)))) as [[n base] ->]; [lia|].
  rewrite bind_Ok. cbv beta iota.
  destruct (n =? 0); [apply is_Ok_Ok|].
  rewrite with_name_valid; [apply is_Ok_Ok|done|apply suffixed_nonempty|
                            |apply suffixed_not_dot].
  rewrite (name_stem_ext (dst it)) in Hslash.
  apply slash_free_sapp in Hslash as [? ?].
  unfold suffixed. rewrite !slash_free_sapp.
  auto using slash_free_pretty.
Qed.

Lemma foldM_total_Forall {S A} (f : S → A → result S) (P : A → Prop) l s :
  (∀ s x, P x → is_Ok (f s x)) → Forall P l → is_Ok (foldM f s l).
Proof.
  intros Hf Hl. revert s. induction Hl as [|x l Hx _ IH]; intros s; simpl.
  - apply is_Ok_Ok.
  - destruct (Hf s x Hx) as [s' ->]. apply IH.
Qed.

(** On destinations that [with_name] has made and with a separator-free
    suffix separator, [dedupe] returns a plan. *)
Lemma dedupe_total plan rules :
  slash_free (suffix_sep rules) → Forall valid_dst plan →
  is_Ok (dedupe plan rules).
Proof.
  intros Hsep Hplan. unfold dedupe. destruct (negb _); [apply is_Ok_Ok|].
  destruct (foldM_total_Forall (dedupe_step rules) valid_dst plan (∅, []))
    as [[seen out] ->]; [|done|apply is_Ok_Ok].
  intros. by apply dedupe_step_total.
Qed.

Lemma build_plan_valid `{Externals} files rules plan :
  build_plan files rules = Ok plan → Forall valid_dst plan.
Proof.
  intros Hplan. apply build_plan_Ok in Hplan as [_ Hplan].
  apply Forall_lookup. intros i it Hi.
  destruct (Hplan i it Hi) as (f & _ & Hit).
  unfold plan_item in Hit.
  apply bind_Ok_inv in Hit as (segs & _ & Hit).
  apply bind_Ok_inv in Hit as (vars_map & _ & Hit).
  apply bind_Ok_inv in Hit as (new_stem & _ & Hit).
  apply bind_Ok_inv in Hit as (d & Hd & [= <-]).
  pose proof (with_name_Ok_valid _ _ _ Hd) as (_ & ? & ?).
  apply with_name_Ok in Hd as ->. by split.
Qed.

(** ** Conflict resolution *)

(** C2, as the code has it: an unchanged item of the plan is passed on
    without a look at the claimed names, so its destination can be the
    destination of a changed item.  Here [a.txt] stays and [b.txt] is sent to
    [a.txt] as well. *)
Lemma dedupe_keeps_collision :
  ∃ plan out a b,
    conflict collide_rules = "suffix"
    ∧ @build_plan sample_externals
        [file_in_data "a.txt" 1; file_in_data "b.txt" 2] collide_rules = Ok plan
    ∧ dedupe plan collide_rules = Ok out
    ∧ out !! 0%nat = Some a ∧ out !! 1%nat = Some b
    ∧ changed a = false ∧ changed b = true
    ∧ Str.lower (name (dst a)) = Str.lower (name (dst b)).
Proof. do 4 eexists. repeat split; by vm_compute. Qed.

(** C2, amended: the resolver never runs out of rounds, and it returns a
    plan whenever the destinations are names as [with_name] makes them and
    the suffix separator holds no path separator.  Under the auto-suffix
    policy the plan it returns is as long as the input; the items that were
    unchanged in the input are passed on as they are, and no two items that
    were changed in the input have destination names that are equal up to
    case. *)
Theorem dedupe_changed_distinct :
  (∀ plan rules, dedupe plan rules ≠ Raise LoopBound)
  ∧ (∀ plan rules,
       slash_free (suffix_sep rules) → Forall valid_dst plan →
       is_Ok (dedupe plan rules))
  ∧ ∀ plan rules out,
      conflict rules = "suffix" → dedupe plan rules = Ok out →
      length out = length plan
      ∧ (∀ i a b, plan !! i = Some a → out !! i = Some b →
           changed a = false → b = a)
      ∧ (∀ i j a a' b b', i ≠ j →
           plan !! i = Some a → plan !! j = Some a' →
           changed a = true → changed a' = true →
           out !! i = Some b → out !! j = Some b' →
           Str.lower (name (dst b)) ≠ Str.lower (name (dst b'))).
Proof.
  split.
  - intros plan rules. unfold dedupe. destruct (negb _); [done|].
    destruct (foldM _ _ _) as [[seen out]|e] eqn:Hrun; [done|]. simpl.
    intros [= ->]. revert Hrun. apply foldM_never, dedupe_step_bounded.
  - split; [apply dedupe_total|].
    intros plan rules out Hpol Hrun. unfold dedupe in Hrun.
    rewrite Hpol in Hrun. simpl in Hrun.
    apply bind_Ok_inv in Hrun as ([seen out'] & Hrun & [= ->]).
    apply dedupe_loop in Hrun as (Hlen & Hitem & Hdiff). simpl in *.
    split; [done|]. split; [|done].
    intros i a b Ha Hb Hc. specialize (Hitem i a b Ha Hb). by rewrite Hc in Hitem.
Qed.

(** Three files sent to [a.txt]: the second and third get a counter. *)
Lemma dedupe_changed_distinct_witness :
  let plan :=
    [ mkPlanItem (mkPath "/data/" "x.txt") (mkPath "/data/" "a.txt") true "ok";
      mkPlanItem (mkPath "/data/" "y.txt") (mkPath "/data/" "A.txt") true "ok";
      mkPlanItem (mkPath "/data/" "z.txt") (mkPath "/data/" "a.TXT") true "ok" ] in
  let out :=
    [ mkPlanItem (mkPath "/data/" "x.txt") (mkPath "/data/" "a.txt") true "ok";
      mkPlanItem (mkPath "/data/" "y.txt") (mkPath "/data/" "A_1.txt") true
        "dedup-suffix";
      mkPlanItem (mkPath "/data/" "z.txt") (mkPath "/data/" "a_2.TXT") true
        "dedup-suffix" ] in
  conflict collide_rules = "suffix"
  ∧ dedupe plan collide_rules = Ok out
  ∧ length out = length plan
  ∧ (∀ i a b, plan !! i = Some a → out !! i = Some b →
       changed a = false → b = a)
  ∧ (∀ i j a a' b b', i ≠ j →
       plan !! i = Some a → plan !! j = Some a' →
       changed a = true → changed a' = true →
       out !! i = Some b → out !! j = Some b' →
       Str.lower (name (dst b)) ≠ Str.lower (name (dst b'))).
Proof.
  intros plan out.
  split; [reflexivity|]. split; [by vm_compute|].
  apply (proj2 (proj2 dedupe_changed_distinct) plan collide_rules out);
    [reflexivity|by vm_compute].
Defined.

(** C10: every item of a plan that [build_plan] returns has its changed flag
    set exactly when its destination name differs from its source name, and
    so has every item of the plan that [dedupe] makes of it, under the skip
    and under the auto-suffix policy (whatever the configuration passed);
    [dedupe] does return a plan when the suffix separator holds no path
    separator. *)
Theorem changed_flag_sound `{Externals} (files : list File)
    (rules : Rules) (plan : list PlanItem) :
  build_plan files rules = Ok plan →
  Forall flag_sound plan
  ∧ (∀ rules', slash_free (suffix_sep rules') → is_Ok (dedupe plan rules'))
  ∧ ∀ rules' out, dedupe plan rules' = Ok out → Forall flag_sound out.
Proof.
  intros Hplan. pose proof (build_plan_valid _ _ _ Hplan) as Hvalid.
  apply build_plan_flags in Hplan. split; [done|].
  split; [intros; by apply dedupe_total|].
  intros rules' out. unfold dedupe. destruct (negb _); [by intros [= <-]|].
  intros Hrun. apply bind_Ok_inv in Hrun as ([seen out'] & Hrun & [= ->]).
  apply dedupe_loop in Hrun as (Hlen & Hitem & _). simpl in *.
  apply Forall_lookup. intros i b Hb.
  destruct (plan !! i) as [a|] eqn:Ha.
  - specialize (Hitem i a b Ha Hb). destruct (changed a) eqn:Hc.
    + tauto.
    + subst b. by eapply Forall_lookup_1 in Hplan.
  - apply lookup_ge_None in Ha. apply lookup_lt_Some in Hb. lia.
Qed.

(** In descending order [b.txt] claims [a.txt] first; [a_1.txt] collides,
    gets the counter 1 and is back on its own name: it is marked unchanged. *)
Lemma changed_flag_sound_witness :
  let files := [file_in_data "a_1.txt" 1; file_in_data "b.txt" 2] in
  let rules := with_sort_order "desc" collide_rules in
  let plan :=
    [ mkPlanItem (mkPath "/data/" "b.txt") (mkPath "/data/" "a.txt") true "ok";
      mkPlanItem (mkPath "/data/" "a_1.txt") (mkPath "/data/" "a.txt") true "ok" ] in
  @build_plan sample_externals files rules = Ok plan
  ∧ dedupe plan rules
    = Ok [ mkPlanItem (mkPath "/data/" "b.txt") (mkPath "/data/" "a.txt") true "ok";
           mkPlanItem (mkPath "/data/" "a_1.txt") (mkPath "/data/" "a_1.txt")
             false "dedup-suffix" ]
  ∧ Forall flag_sound plan
  ∧ (∀ rules', slash_free (suffix_sep rules') → is_Ok (dedupe plan rules'))
  ∧ ∀ rules' out, dedupe plan rules' = Ok out → Forall flag_sound out.
Proof.
  intros files rules plan.
  split; [by vm_compute|]. split; [by vm_compute|].
  apply (@changed_flag_sound sample_externals files rules plan).
  by vm_compute.
Defined.

(** ** Two-phase execution *)

Lemma phase1_step_exists tmp_tag fs pairs logs skipped it :
  changed it = true → is_Some (fs !! path_str (dst it)) →
  phase1_step tmp_tag (mkPhase1 fs pairs logs skipped) it
  = Ok (mkPhase1 fs pairs
          (logs ++ [LogDstExists (name (src it)) (name (dst it))])
          (skipped + 1)).
Proof.
  intros Hc Hd. unfold phase1_step, fs_exists.
  cbn [p1_fs temp_pairs p1_logs p1_skipped]. rewrite Hc.
  by rewrite bool_decide_eq_true_2.
Qed.

(** Phase 1 leaves alone every changed item whose destination is there. *)
Lemma phase1_all_exist tmp_tag fs items pairs logs skipped :
  Forall (λ it, changed it = true ∧ is_Some (fs !! path_str (dst it))) items →
  foldM (phase1_step tmp_tag) (mkPhase1 fs pairs logs skipped) items
  = Ok (mkPhase1 fs pairs
          (logs ++ ((λ it, LogDstExists (name (src it)) (name (dst it)))
                      <$> items))
          (skipped + Z.of_nat (length items))).
Proof.
  intros Hall. revert logs skipped.
  induction Hall as [|it items [Hc Hd] _ IH]; intros logs skipped.
  - simpl. by rewrite app_nil_r, Z.add_0_r.
  - change (foldM ?f ?s (it :: items)) with (s' ← f s it; foldM f s' items).
    rewrite phase1_step_exists by done. rewrite bind_Ok, IH, <-app_assoc.
    simpl. do 2 f_equal. lia.
Qed.

(** C1, as the code has it: with [A.txt] and [B.txt] in the directory and
    the template that swaps their stems, both items are changed, each finds
    its destination in place, and the run moves nothing: no success, two
    skips, the contents where they were. *)
Lemma swap_is_skipped :
  ∃ plan,
    @build_plan sample_externals swap_files swap_rules = Ok plan
    ∧ (src <$> plan) = [mkPath "/data/" "A.txt"; mkPath "/data/" "B.txt"]
    ∧ (dst <$> plan) = [mkPath "/data/" "B.txt"; mkPath "/data/" "A.txt"]
    ∧ (changed <$> plan) = [true; true]
    ∧ @run_cli sample_externals "0a1b2c3d" swap_fs swap_files swap_rules
      = Ok (Some (0, 2, [LogDstExists "A.txt" "B.txt";
                         LogDstExists "B.txt" "A.txt"]), swap_fs)
    ∧ swap_fs !! "/data/B.txt" ≠ Some "alpha".
Proof. eexists. repeat split; by vm_compute. Qed.

(** C1, amended: executing the two changed items of a swap, each file
    planned onto the other's name, moves nothing, because each destination
    is found in place in phase 1: no success, two skips, one log line per
    item, and the directory as it was. *)
Theorem swap_skipped (token : string) (fs : FS) (a b : Path)
    (reason_a reason_b : string) :
  is_Some (fs !! path_str a) → is_Some (fs !! path_str b) →
  two_phase_rename token fs
    [mkPlanItem a b true reason_a; mkPlanItem b a true reason_b]
  = Ok (0, 2, [LogDstExists (name a) (name b); LogDstExists (name b) (name a)],
        fs).
Proof.
  intros Ha Hb. unfold two_phase_rename.
  rewrite phase1_all_exist by (repeat constructor; done). done.
Qed.

Lemma swap_skipped_witness :
  is_Some (swap_fs !! path_str (mkPath "/data/" "A.txt"))
  ∧ is_Some (swap_fs !! path_str (mkPath "/data/" "B.txt"))
  ∧ two_phase_rename "0a1b2c3d" swap_fs
      [mkPlanItem (mkPath "/data/" "A.txt") (mkPath "/data/" "B.txt") true "ok";
       mkPlanItem (mkPath "/data/" "B.txt") (mkPath "/data/" "A.txt") true "ok"]
    = Ok (0, 2, [LogDstExists "A.txt" "B.txt"; LogDstExists "B.txt" "A.txt"],
          swap_fs).
Proof.
  assert (is_Some (swap_fs !! path_str (mkPath "/data/" "A.txt"))) as Ha
    by (vm_compute; eexists; reflexivity).
  assert (is_Some (swap_fs !! path_str (mkPath "/data/" "B.txt"))) as Hb
    by (vm_compute; eexists; reflexivity).
  split; [exact Ha|]. split; [exact Hb|].
  exact (swap_skipped "0a1b2c3d" swap_fs _ _ "ok" "ok" Ha Hb).
Defined.

(** ** Capture groups that take no part in the match *)

Lemma repl_named vars_map segs joiner key filters v :
  vars_map !! Str.strip key = Some v →
  repl vars_map segs joiner key filters = _apply_filters (py_str v) filters.
Proof.
  intros Hv. unfold repl, dict_get. rewrite Hv.
  destruct (decide _) as [_|Hn]; [done|]. destruct Hn. eauto.
Qed.

(** C3, as the code has it: [groupdict()] lists a named group that took no
    part in the match with the value [None]; [vars_map.update] stores it, the
    key is found, and [str(None)] is rendered.  With the pattern
    [(?P<tag>[A-Z]+)?(?P<num>[0-9]+)] on the file [12.txt] and the template
    [{tag}{num}], the destination is [None12.txt]. *)
Theorem unmatched_group_renders_None :
  (∀ vars_map segs joiner key filters,
     vars_map !! Str.strip key = Some PyNone →
     repl vars_map segs joiner key filters = _apply_filters "None" filters)
  ∧ (let rules := with_regex sample_pattern
                    (with_template "{tag}{num}" default_rules) in
     let f := file_in_data "12.txt" 1 in
     @parse_with_regex sample_externals "12" sample_pattern = Ok sample_groupdict
     ∧ sample_groupdict !! "tag" = Some PyNone
     ∧ (∃ vars_map,
          @item_vars sample_externals rules 1 f = Ok vars_map
          ∧ vars_map !! "tag" = Some PyNone
          ∧ render_template "{tag}" vars_map ["12"] "-" = Ok "None"
          ∧ render_template "{tag}{num}" vars_map ["12"] "-" = Ok "None12")
     ∧ @plan_item sample_externals rules 1 f
       = Ok (mkPlanItem (mkPath "/data/" "12.txt") (mkPath "/data/" "None12.txt")
               true "ok")).
Proof.
  split.
  - intros. by apply (repl_named _ _ _ _ _ PyNone).
  - repeat split; try by vm_compute.
    eexists. repeat split; by vm_compute.
Qed.

(** ** The extension filter *)


Section ExtensionFilter.
Context `{Externals}.




End ExtensionFilter.



(** ** Runs of the renderer and the planner *)

Example pad_filter :
  render_template "{1|pad=3}/{2|pad=3}" ∅ ["7"; "abc"] "-" = Ok "007/abc".
Proof. by vm_compute. Qed.

Example slices_and_filters :
  render_template "{2+|upper}_{1:2}_{-1|title}_{9}_{nope}_{1|bogus}" ∅
    ["ab"; "cd"; "ef"] "+"
  = Ok "CD+EF_ab+cd_Ef___ab".
Proof. by vm_compute. Qed.

Example unclosed_brace_is_text :
  render_template "{1}{|x}{}{2" ∅ ["a"; "b"] "-" = Ok "a{|x}{}{2".
Proof. by vm_compute. Qed.

Example default_template_changes_nothing :
  @build_plan sample_externals
    [file_in_data "b.tar.gz" 1; file_in_data ".hidden" 2; file_in_data "A-1.txt" 3]
    default_rules
  = Ok [ mkPlanItem (mkPath "/data/" ".hidden") (mkPath "/data/" ".hidden")
           false "no-change";
         mkPlanItem (mkPath "/data/" "A-1.txt") (mkPath "/data/" "A-1.txt")
           false "no-change";
         mkPlanItem (mkPath "/data/" "b.tar.gz") (mkPath "/data/" "b.tar.gz")
           false "no-change" ].
Proof. by vm_compute. Qed.

(** A move onto a free name goes through the temporary name space. *)
Example free_destination_is_renamed :
  two_phase_rename "0a1b2c3d" swap_fs
    [mkPlanItem (mkPath "/data/" "A.txt") (mkPath "/data/" "C.txt") true "ok"]
  = Ok (1, 0, [LogDone "A.txt" "C.txt"],
        <["/data/C.txt" := "alpha"]> (<["/data/B.txt" := "beta"]> ∅)).
Proof. by vm_compute. Qed.

(** * Further properties of the renderer *)

(** ** White space, digits and numerals *)

Lemma lstrip_by_id f s :
  Str.forallb (λ c, negb (f c)) s = true → Str.lstrip_by f s = s.
Proof.
  destruct s as [|c s]; [done|]. simpl. intros [Hc _]%andb_prop.
  apply negb_true_iff in Hc. by rewrite Hc.
Qed.

Lemma rstrip_by_id f s :
  Str.forallb (λ c, negb (f c)) s = true → Str.rstrip_by f s = s.
Proof.
  induction s as [|c s IH]; [done|]. simpl. intros [Hc Hs]%andb_prop.
  apply negb_true_iff in Hc. rewrite IH by done.
  destruct s; [by rewrite Hc|done].
Qed.

Lemma strip_id s :
  Str.forallb (λ c, negb (Char.isspace c)) s = true → Str.strip s = s.
Proof. intros Hs. unfold Str.strip. by rewrite lstrip_by_id, rstrip_by_id. Qed.

Lemma rstrip_by_nil f s :
  Str.rstrip_by f s = "" → Str.forallb f s = true.
Proof.
  induction s as [|c s IH]; [done|]. simpl.
  destruct (Str.rstrip_by f s); [|done].
  destruct (f c); [|done]. intros _. by rewrite IH.
Qed.

Lemma lstrip_by_all f s :
  Str.forallb f (Str.lstrip_by f s) = true → Str.forallb f s = true.
Proof.
  induction s as [|c s IH]; [done|]. simpl.
  destruct (f c) eqn:Hc; [done|]. simpl. by rewrite Hc.
Qed.

(** Only white space strips to nothing. *)
Lemma strip_nil s : Str.strip s = "" → Str.forallb Char.isspace s = true.
Proof. intros Hs. by apply lstrip_by_all, rstrip_by_nil. Qed.

Lemma forallb_impl (f g : ascii → bool) s :
  (∀ c, f c = true → g c = true) →
  Str.forallb f s = true → Str.forallb g s = true.
Proof.
  intros Hfg. induction s as [|c s IH]; [done|]. simpl.
  intros [Hc Hs]%andb_prop. by rewrite (Hfg c Hc), IH.
Qed.

Lemma pretty_N_char_digit y : Char.isdigit (pretty_N_char y) = true.
Proof. unfold pretty_N_char. by repeat case_match. Qed.

Lemma pretty_N_char_value y :
  (y < 10)%N → Char.digit (pretty_N_char y) = Z.of_N y.
Proof.
  intros Hy.
  assert (y = 0 ∨ y = 1 ∨ y = 2 ∨ y = 3 ∨ y = 4 ∨ y = 5 ∨ y = 6 ∨ y = 7
          ∨ y = 8 ∨ y = 9)%N as Hcases by lia.
  by repeat destruct Hcases as [->|Hcases]; [..|subst y].
Qed.

Lemma pretty_numeral (z : Z) :
  pretty z ≠ "" ∧ Str.forallb numeral_char (pretty z) = true.
Proof.
  apply pretty_shape; [|done]. intros y. unfold numeral_char.
  by rewrite pretty_N_char_digit.
Qed.

Lemma pretty_forallb (P : ascii → bool) (z : Z) :
  (∀ c, numeral_char c = true → P c = true) →
  Str.forallb P (pretty z) = true.
Proof. intros HP. eapply forallb_impl; [done|apply pretty_numeral]. Qed.

Lemma numeral_char_not_space c :
  numeral_char c = true → negb (Char.isspace c) = true.
Proof. by destruct c as [[] [] [] [] [] [] [] []]. Qed.

(** Reading the digits the printer wrote. *)
Lemma digits_go_pretty_N_go x :
  (0 < x)%N →
  ∃ m, ∀ acc b s,
    Str.digits_go acc b (pretty_N_go x s)
    = Str.digits_go (acc * m + Z.of_N x) true s.
Proof.
  induction (N.lt_wf_0 x) as [x _ IH]. intros Hx.
  assert (∀ acc b s,
            Str.digits_go acc b (String (pretty_N_char (x `mod` 10)) s)
            = Str.digits_go (10 * acc + Z.of_N (x `mod` 10)) true s) as Hlast.
  { intros. simpl. rewrite pretty_N_char_digit, pretty_N_char_value; [done|].
    apply N.mod_lt. lia. }
  destruct (decide (x `div` 10 = 0)%N) as [Hsmall|Hbig].
  - exists 10. intros. rewrite pretty_N_go_step by done.
    rewrite Hsmall, pretty_N_go_0, Hlast. f_equal.
    rewrite (N.div_mod x 10) at 2 by done. rewrite Hsmall. lia.
  - destruct (IH (x `div` 10)%N) as [m Hm];
      [apply N.div_lt; lia|by apply N.neq_0_lt_0|].
    exists (10 * m). intros. rewrite pretty_N_go_step by done.
    rewrite Hm, Hlast. f_equal.
    rewrite (N.div_mod x 10) at 3 by done. lia.
Qed.

Lemma digits_go_pretty_pos (p : positive) :
  Str.digits_go 0 false (pretty (N.pos p)) = Some (Z.pos p).
Proof.
  unfold pretty, pretty_N. rewrite decide_False by done.
  destruct (digits_go_pretty_N_go (N.pos p)) as [m ->]; [lia|]. done.
Qed.

(** [int(str(z))] is [z]. *)
Lemma int_pretty (z : Z) : Str.int (pretty z) = Ok z.
Proof.
  unfold Str.int.
  rewrite strip_id by apply pretty_forallb, numeral_char_not_space.
  destruct z as [|p|p]; [done| |].
  - change (pretty (Z.pos p)) with (pretty (N.pos p)).
    assert (pretty (N.pos p) ≠ "" ∧ Str.forallb Char.isdigit (pretty (N.pos p)) = true)
      as [Hne Hd].
    { unfold pretty, pretty_N. rewrite decide_False by done.
      rewrite pretty_N_go_step by lia. split.
      - by apply pretty_N_go_nonempty.
      - apply pretty_N_go_forallb; [apply pretty_N_char_digit|].
        simpl. by rewrite pretty_N_char_digit. }
    pose proof (digits_go_pretty_pos p) as Hgo.
    destruct (pretty (N.pos p)) as [|c r]; [done|].
    simpl in Hd. apply andb_prop in Hd as [Hc _].
    assert (Char.eqb c "-" = false ∧ Char.eqb c "+" = false) as [-> ->].
    { by destruct c as [[] [] [] [] [] [] [] []]. }
    by rewrite Hgo.
  - change (pretty (Z.neg p)) with (String "-" (pretty (N.pos p))).
    change (Char.eqb "-" "-") with true. cbv iota.
    by rewrite digits_go_pretty_pos.
Qed.

Lemma safe_int_pretty z d : safe_int (pretty z) d = z.
Proof. unfold safe_int. by rewrite int_pretty. Qed.


(** ** Templates without placeholders *)

Lemma span_rest stop s a b :
  span stop s = (a, b) →
  b = "" ∨ ∃ c r, b = String c r ∧ stop c = true.
Proof.
  revert a b. induction s as [|c s IH]; intros a b; simpl.
  - intros [= <- <-]. by left.
  - destruct (stop c) eqn:Hc.
    + intros [= <- <-]. right. eauto.
    + destruct (span stop s) as [a' b']. intros [= <- <-]. by eapply IH.
Qed.

Lemma span_forallb P stop s a b :
  span stop s = (a, b) → Str.forallb P s = true → Str.forallb P b = true.
Proof.
  revert a b. induction s as [|c s IH]; intros a b; simpl.
  - by intros [= <- <-].
  - destruct (stop c).
    + by intros [= <- <-].
    + destruct (span stop s) as [a' b']. intros [= <- <-] [_ Hs]%andb_prop.
      by eapply IH.
Qed.

(** Without a closing brace no placeholder is found. *)
Lemma placeholder_at_no_close s :
  Str.forallb chain_char s = true → placeholder_at s = None.
Proof.
  intros Hs. unfold placeholder_at.
  destruct (span _ s) as [key rest] eqn:Hspan.
  destruct (String.eqb key ""); [done|].
  pose proof (span_forallb _ _ _ _ _ Hspan Hs) as Hrest.
  destruct rest as [|c rest']; [done|].
  simpl in Hrest. apply andb_prop in Hrest as [Hc Hrest'].
  unfold chain_char in Hc. apply negb_true_iff in Hc. rewrite Hc.
  destruct (span _ rest') as [filters rest''] eqn:Hspan'.
  destruct (String.eqb filters ""); [done|].
  pose proof (span_forallb _ _ _ _ _ Hspan' Hrest') as Hrest''.
  destruct (span_rest _ _ _ _ Hspan') as [->|(d & r & -> & Hd)]; [done|].
  simpl in Hrest''. unfold chain_char in Hrest''. by rewrite Hd in Hrest''.
Qed.

Lemma placeholder_sub_no_close f s :
  Str.forallb chain_char s = true → placeholder_sub f O s = Ok s.
Proof.
  induction s as [|c s IH]; [done|]. simpl. intros [_ Hs]%andb_prop.
  rewrite placeholder_at_no_close by done. rewrite IH by done.
  by destruct (Char.eqb c "{").
Qed.

(** X1: a template without an opening brace, or without a closing brace,
    is rendered as it stands, whatever the variables and segments are. *)
Theorem literal_template_unchanged (template : string)
    (vars_map : gmap string pyval) (segs : list string) (joiner : string) :
  Str.forallb (λ c, negb (Char.eqb c "{")) template = true
  ∨ Str.forallb (λ c, negb (Char.eqb c "}")) template = true →
  render_template template vars_map segs joiner = Ok template.
Proof.
  unfold render_template. intros [Hopen|Hclose].
  - rewrite <-(sapp_nil_r template) at 1.
    rewrite placeholder_sub_literal by done. simpl. by rewrite sapp_nil_r.
  - by apply placeholder_sub_no_close.
Qed.

Lemma literal_template_unchanged_witness :
  (Str.forallb (λ c, negb (Char.eqb c "{")) "IMG-2024}x|y" = true
   ∨ Str.forallb (λ c, negb (Char.eqb c "}")) "IMG-2024}x|y" = true)
  ∧ render_template "IMG-2024}x|y" ∅ ["a"; "b"] "-" = Ok "IMG-2024}x|y".
Proof.
  assert (Str.forallb (λ c, negb (Char.eqb c "{")) "IMG-2024}x|y" = true
          ∨ Str.forallb (λ c, negb (Char.eqb c "}")) "IMG-2024}x|y" = true)
    as Hlit by (left; reflexivity).
  split; [exact Hlit|].
  exact (literal_template_unchanged "IMG-2024}x|y" ∅ ["a"; "b"] "-" Hlit).
Defined.

(** ** Reading integers *)


(** ** Index and slice keys *)

Lemma endswith_char_false c s :
  Str.forallb (λ x, negb (Char.eqb x c)) s = true →
  Str.endswith s (String c "") = false.
Proof.
  induction s as [|d s IH]; [done|]. rewrite endswith_eq. cbn [Str.forallb].
  intros [Hd Hs]%andb_prop. rewrite IH by done.
  destruct (String.eqb_spec (String d s) (String c "")) as [[= -> ->]|]; [|done].
  unfold Char.eqb in Hd. by rewrite Ascii.eqb_refl in Hd.
Qed.

Lemma contains_char_false c s :
  Str.forallb (λ x, negb (Char.eqb x c)) s = true →
  Str.contains (String c "") s = false.
Proof. intros Hs. by rewrite contains_char, Hs. Qed.

Lemma numeral_char_plain c :
  numeral_char c = true →
  negb (Char.eqb c "+") = true ∧ negb (Char.eqb c ":") = true
  ∧ negb (Char.eqb c "=") = true ∧ negb (Char.eqb c "|") = true.
Proof. by destruct c as [[] [] [] [] [] [] [] []]. Qed.

Lemma index_lookup {A} (l : list A) i x :
  0 ≤ i → l !! Z.to_nat i = Some x → Seq.index l i = Ok x.
Proof.
  intros Hi Hx. pose proof (lookup_lt_Some _ _ _ Hx).
  unfold Seq.index. destruct (i <? 0) eqn:?; [lia|].
  replace (_ && _) with true by (symmetry; apply andb_true_intro; split; lia).
  by rewrite Hx.
Qed.

(** The key that is the numeral of [k], away from the named variables. *)
Lemma repl_numeral vars_map segs joiner filters k :
  vars_map !! pretty k = None →
  repl vars_map segs joiner (pretty k) filters
  = (if k =? 0 then Ok ""
     else
       let idx := if k <? 0 then seg_len segs + 1 + k else k in
       if (1 <=? idx) && (idx <=? seg_len segs)
       then x ← Seq.index segs (idx - 1); _apply_filters x filters
       else Ok "").
Proof.
  intros Hv. unfold repl.
  rewrite strip_id by apply pretty_forallb, numeral_char_not_space.
  rewrite Hv. destruct (decide _) as [[? ?]|_]; [done|].
  rewrite endswith_char_false, contains_char_false, safe_int_pretty;
    try (apply pretty_forallb; intros c Hc; apply numeral_char_plain in Hc; tauto).
  by destruct (k =? 0).
Qed.

(** X3: a key that is the decimal numeral of [k], when it is not the name of
    a variable, resolves for [1 ≤ k ≤ N] to the [k]-th segment and for
    [-N ≤ k ≤ -1] to the [k]-th segment from the end ([-1] the last), with
    the filter chain applied; for every other [k] it resolves to the empty
    string. *)
Theorem index_key_resolves (vars_map : gmap string pyval)
    (segs : list string) (joiner : string) (filters : option string) (k : Z) :
  vars_map !! pretty k = None →
  let N := seg_len segs in
  (∀ x, 1 ≤ k → segs !! Z.to_nat (k - 1) = Some x →
     repl vars_map segs joiner (pretty k) filters = _apply_filters x filters)
  ∧ (∀ x, k < 0 → - N ≤ k → segs !! Z.to_nat (N + k) = Some x →
       repl vars_map segs joiner (pretty k) filters = _apply_filters x filters)
  ∧ (k = 0 ∨ N < k ∨ k < - N →
     repl vars_map segs joiner (pretty k) filters = Ok "").
Proof.
  intros Hv N. rewrite repl_numeral by done. unfold N, seg_len.
  split; [|split].
  - intros x Hk Hx. pose proof (lookup_lt_Some _ _ _ Hx).
    destruct (k =? 0) eqn:?; [lia|]. destruct (k <? 0) eqn:?; [lia|].
    replace (_ && _) with true by (symmetry; apply andb_true_intro; split; lia).
    cbv zeta. by rewrite (index_lookup _ _ x) by (done || lia).
  - intros x Hk HN Hx. pose proof (lookup_lt_Some _ _ _ Hx).
    destruct (k =? 0) eqn:?; [lia|]. destruct (k <? 0) eqn:?; [|lia].
    replace (_ && _) with true by (symmetry; apply andb_true_intro; split; lia).
    cbv zeta.
    replace (Z.of_nat (length segs) + 1 + k - 1) with (Z.of_nat (length segs) + k)
      by lia.
    by rewrite (index_lookup _ _ x) by (done || lia).
  - intros Hk. destruct (k =? 0) eqn:?; [done|].
    destruct (k <? 0) eqn:?; cbv zeta;
      (replace (_ && _) with false; [done|]);
      symmetry; apply andb_false_iff; lia.
Qed.

Lemma index_key_resolves_witness :
  let segs := ["2024"; "holiday"; "0042"] in
  (∅ : gmap string pyval) !! pretty (-2) = None
  ∧ (∀ x, 1 ≤ -2 → segs !! Z.to_nat (-2 - 1) = Some x →
       repl ∅ segs "-" (pretty (-2)) (Some "upper")
       = _apply_filters x (Some "upper"))
  ∧ (∀ x, -2 < 0 → - seg_len segs ≤ -2 →
       segs !! Z.to_nat (seg_len segs + -2) = Some x →
       repl ∅ segs "-" (pretty (-2)) (Some "upper")
       = _apply_filters x (Some "upper"))
  ∧ (-2 = 0 ∨ seg_len segs < -2 ∨ -2 < - seg_len segs →
     repl ∅ segs "-" (pretty (-2)) (Some "upper") = Ok "").
Proof.
  intros segs. split; [reflexivity|].
  apply (index_key_resolves ∅ segs "-" (Some "upper") (-2)). reflexivity.
Defined.

Lemma traverse_Ok {A} (l : list A) : traverse Ok l = Ok l.
Proof. induction l as [|x l IH]; [done|]. simpl. by rewrite IH. Qed.

Lemma _slice_join_None items joiner :
  _slice_join items joiner None = Ok (Str.join joiner items).
Proof. unfold _slice_join. simpl. by rewrite traverse_Ok. Qed.





Example slice_keys :
  render_template "{2+}|{-2+}|{-9+}|{9+}|{2:3}|{-3:-2}|{3:2}|{1:99}" ∅
    ["a"; "b"; "c"; "d"] "."
  = Ok "b.c.d|c.d|a.b.c.d||b.c|b.c||a.b.c.d".
Proof. by vm_compute. Qed.

(** ** Filter chains *)

Lemma split_go_eq sep skip cur s :
  Str.split_go sep skip cur s =
  match s with
  | EmptyString => [cur]
  | String c r =>
      match skip with
      | S k => Str.split_go sep k cur r
      | O => if String.prefix sep s
             then cur :: Str.split_go sep (Str.len sep - 1) "" r
             else Str.split_go sep O (Str.snoc cur c) r
      end
  end.
Proof. by destruct s. Qed.

Lemma prefix_char c d r :
  String.prefix (String c "") (String d r) = bool_decide (c = d).
Proof. simpl. rewrite prefix_nil. by destruct (ascii_dec c d); case_bool_decide. Qed.

(** Splitting at a character: the segments of the text before an occurrence,
    then the segments of the text behind it. *)
Lemma split_go_char_sapp c cur a b :
  Str.split_go (String c "") O cur (a +:+ String c b)
  = Str.split_go (String c "") O cur a ++ Str.split_go (String c "") O "" b.
Proof.
  revert cur. induction a as [|d a IH]; intros cur.
  - rewrite sapp_nil_l, split_go_eq, prefix_char, bool_decide_eq_true_2 by done.
    done.
  - rewrite sapp_cons, !(split_go_eq _ O _ (String d _)), !prefix_char.
    case_bool_decide; simpl; by rewrite IH.
Qed.

Lemma split_go_char_none c cur s :
  Str.forallb (λ x, negb (Char.eqb x c)) s = true →
  Str.split_go (String c "") O cur s = [cur +:+ s].
Proof.
  revert cur. induction s as [|d s IH]; intros cur; cbn [Str.forallb].
  - by rewrite sapp_nil_r.
  - intros [Hd Hs]%andb_prop. rewrite split_go_eq, prefix_char.
    rewrite bool_decide_eq_false_2.
    + by rewrite IH, snoc_app.
    + intros ->. unfold Char.eqb in Hd. by rewrite Ascii.eqb_refl in Hd.
Qed.

(** The chain is a fold over its parts, also when it is only white space. *)
Lemma _apply_filters_fold val chain :
  _apply_filters val (Some chain)
  = foldM apply_filter val (Str.split_go "|" O "" chain).
Proof.
  unfold _apply_filters. destruct (String.eqb_spec (Str.strip chain) "") as [Hws|_].
  - pose proof (strip_nil _ Hws) as Hall.
    rewrite split_go_char_none, sapp_nil_l.
    + simpl. unfold apply_filter. by rewrite Hws.
    + eapply forallb_impl; [|done]. by intros [[] [] [] [] [] [] [] []].
  - done.
Qed.

(** X5: a filter chain works from left to right: applying [f1|f2] is
    applying [f1] and then [f2] to what it returned (and raising nothing
    more), for all texts [f1] and [f2], empty or blank ones included. *)
Theorem filter_chain_composes (val f1 f2 : string) :
  _apply_filters val (Some (f1 +:+ "|" +:+ f2))
  = v ← _apply_filters val (Some f1); _apply_filters v (Some f2).
Proof.
  rewrite !_apply_filters_fold.
  change (f1 +:+ "|" +:+ f2) with (f1 +:+ String "|" f2).
  rewrite split_go_char_sapp, foldM_app.
  destruct (foldM apply_filter val _) as [v|e]; [|done].
  by rewrite !bind_Ok, _apply_filters_fold.
Qed.

(** ** The filters that take an argument *)

Lemma rstrip_by_sapp f p a :
  Str.rstrip_by f p = p → Str.rstrip_by f a = a → Str.rstrip_by f (p +:+ a) = p +:+ a.
Proof.
  intros Hp Ha. induction p as [|c p IH]; [done|].
  assert (Str.rstrip_by f p = p ∧ (p = "" → f c = false)) as [Hp' Hc].
  { simpl in Hp. destruct (Str.rstrip_by f p) as [|d r] eqn:Hr.
    - destruct (f c); [done|]. by injection Hp as <-.
    - by injection Hp as <-. }
  rewrite sapp_cons. simpl. rewrite IH by done.
  destruct (p +:+ a) as [|d r] eqn:Hpa; [|done].
  destruct p; [|done]. by rewrite Hc.
Qed.

(** A part [name=arg] that [strip] leaves alone: the name starts with a
    letter and the argument does not end in white space. *)
Lemma strip_filter_part c nm a :
  Char.isspace c = false →
  Str.rstrip_by Char.isspace (String c nm) = String c nm →
  Str.rstrip_by Char.isspace a = a →
  Str.strip (String c nm +:+ a) = String c nm +:+ a.
Proof.
  intros Hc Hnm Ha. unfold Str.strip. rewrite sapp_cons. simpl Str.lstrip_by.
  rewrite Hc, <-sapp_cons. by apply rstrip_by_sapp.
Qed.

Lemma startswith_sapp p s : Str.startswith (p +:+ s) p = true.
Proof.
  unfold Str.startswith. induction p as [|c p IH]; [apply prefix_nil|].
  rewrite sapp_cons. simpl. by destruct (ascii_dec c c).
Qed.

(** Passing the tests of [apply_filter] that the text of the part decides. *)
Ltac skip_test :=
  match goal with
  | |- context [if ?b then _ else _] => change b with false; cbv iota
  end.

(** Taking the branch of the filter [nm] (with its equals sign) and reading
    its argument [a]. *)
Ltac take_filter nm key a :=
  unfold apply_filter;
  rewrite (strip_filter_part _ _ a) by done;
  repeat skip_test;
  rewrite ?(startswith_sapp nm a), ?orb_true_r; cbv iota;
  rewrite (split1_arg key) by (reflexivity || apply (startswith_sapp nm a));
  rewrite bind_Ok, index_pair_1, bind_Ok;
  change (Str.drop (S (Str.len key)) (nm +:+ a)) with a.







(** X7: the filter [prefix=a] puts [a] in front of the text and [suffix=a]
    behind it, for every argument that does not end in white space (an equals
    sign in it included); [replace=old:new] replaces every occurrence of
    [old], the text before the first colon of the argument, by what follows
    that colon, and an argument without a colon leaves the text unchanged. *)
Theorem argument_filters (t a : string) :
  Str.rstrip_by Char.isspace a = a →
  apply_filter t ("prefix=" +:+ a) = Ok (a +:+ t)
  ∧ apply_filter t ("suffix=" +:+ a) = Ok (t +:+ a)
  ∧ (Str.contains ":" a = false → apply_filter t ("replace=" +:+ a) = Ok t)
  ∧ (∀ old new,
       a = old +:+ ":" +:+ new → Str.contains ":" old = false →
       apply_filter t ("replace=" +:+ a) = Ok (Str.replace t old new)).
Proof.
  intros Ha. split; [by take_filter "prefix=" "prefix" a|].
  split; [by take_filter "suffix=" "suffix" a|]. split.
  - intros Hc. take_filter "replace=" "replace" a. by rewrite Hc.
  - intros old new Heq Hold. take_filter "replace=" "replace" a.
    assert (Str.split1 a ":" = Ok [old; new]) as Hsplit.
    { rewrite Heq. unfold Str.split1. simpl.
      change (":" +:+ new) with (String ":" new).
      rewrite split1_go_char, sapp_nil_l; [done|].
      rewrite contains_char in Hold. by destruct (Str.forallb _ old). }
    assert (Str.contains ":" a = true) as ->.
    { rewrite Heq, contains_char.
      change (old +:+ ":" +:+ new) with (old +:+ String ":" new).
      rewrite forallb_sapp. simpl. by rewrite andb_false_r. }
    by rewrite Hsplit.
Qed.

Lemma argument_filters_witness :
  Str.rstrip_by Char.isspace "a=b:c:d" = "a=b:c:d"
  ∧ apply_filter "ba=ba=b" ("prefix=" +:+ "a=b:c:d") = Ok ("a=b:c:d" +:+ "ba=ba=b")
  ∧ apply_filter "ba=ba=b" ("suffix=" +:+ "a=b:c:d") = Ok ("ba=ba=b" +:+ "a=b:c:d")
  ∧ (Str.contains ":" "a=b:c:d" = false →
     apply_filter "ba=ba=b" ("replace=" +:+ "a=b:c:d") = Ok "ba=ba=b")
  ∧ (∀ old new,
       "a=b:c:d" = old +:+ ":" +:+ new → Str.contains ":" old = false →
       apply_filter "ba=ba=b" ("replace=" +:+ "a=b:c:d")
       = Ok (Str.replace "ba=ba=b" old new)).
Proof.
  split; [reflexivity|]. apply (argument_filters "ba=ba=b" "a=b:c:d").
  reflexivity.
Defined.

Example replace_first_colon :
  apply_filter "ba=ba=b" "replace=a=b:c:d" = Ok "bc:dc:d".
Proof. by vm_compute. Qed.

(** * Further properties of the planner *)

(** ** The extension of a name *)

Lemma span_sapp_eq stop s a b : span stop s = (a, b) → s = a +:+ b.
Proof.
  revert a b. induction s as [|c s IH]; intros a b; simpl.
  - by intros [= <- <-].
  - destruct (stop c); [by intros [= <- <-]|].
    destruct (span stop s) as [a' b']. intros [= <- <-].
    rewrite sapp_cons. f_equal. by apply IH.
Qed.

Lemma span_prefix stop s a b :
  span stop s = (a, b) → Str.forallb (λ c, negb (stop c)) a = true.
Proof.
  revert a b. induction s as [|c s IH]; intros a b; simpl.
  - by intros [= <- <-].
  - destruct (stop c) eqn:Hc; [by intros [= <- <-]|].
    destruct (span stop s) as [a' b']. intros [= <- <-]. simpl.
    rewrite Hc. simpl. by eapply IH.
Qed.

Lemma lstrip_by_head f s c r : Str.lstrip_by f s = String c r → f c = false.
Proof.
  induction s as [|d s IH]; [done|]. simpl.
  destruct (f d) eqn:Hd; [done|]. by intros [= <- <-].
Qed.

(** The dotted suffixes of a text, glued: the text from its first dot on. *)
Lemma suffixes_from_first_dot s :
  Str.join "" ((λ suffix, "." +:+ suffix)
               <$> Seq.slice (Str.split_go "." O "" s) 1 None)
  = (span (Char.eqb ".") s).2.
Proof.
  destruct (span (Char.eqb ".") s) as [a b] eqn:Hspan. simpl.
  pose proof (span_sapp_eq _ _ _ _ Hspan) as ->.
  pose proof (span_prefix _ _ _ _ Hspan) as Ha.
  assert (Str.forallb (λ x, negb (Char.eqb x ".")) a = true) as Ha'.
  { eapply forallb_impl; [|exact Ha]. intros c. unfold Char.eqb.
    by rewrite Ascii.eqb_sym. }
  destruct (span_rest _ _ _ _ Hspan) as [->|(c & r & -> & Hc)].
  - rewrite sapp_nil_r, split_go_char_none by done. by rewrite slice_tail.
  - apply Ascii.eqb_eq in Hc as <-.
    rewrite split_go_char_sapp, split_go_char_none by done.
    simpl app. rewrite slice_tail, join_dotted by apply split_go_nonempty.
    by rewrite join_split_go.
Qed.

(** X8: the extension [all_suffixes] of a path is empty when the name ends
    with a dot; otherwise it is the name from the first dot behind its first
    character that is not a dot, to the end (so [v1.2.tar.gz] has the stem
    [v1]), and it is empty when there is no such dot (as for [.bashrc]).  It
    is empty or starts with a dot, and the stem of a non-empty name is not
    empty. *)
Theorem extension_from_first_dot (p : Path) :
  all_suffixes p
  = (if Str.endswith (name p) "." then ""
     else (span (Char.eqb ".") (Str.lstrip_by (Char.eqb ".") (name p))).2)
  ∧ (all_suffixes p = "" ∨ Str.startswith (all_suffixes p) "." = true)
  ∧ (name p ≠ "" → real_stem p ≠ "").
Proof.
  assert (all_suffixes p
          = (if Str.endswith (name p) "." then ""
             else (span (Char.eqb ".")
                     (Str.lstrip_by (Char.eqb ".") (name p))).2)) as Hext.
  { unfold all_suffixes, suffixes. destruct (Str.endswith (name p) "."); [done|].
    apply suffixes_from_first_dot. }
  split; [done|]. split.
  - rewrite Hext. destruct (Str.endswith _ _); [by left|].
    destruct (span _ _) as [a b] eqn:Hspan. simpl.
    destruct (span_rest _ _ _ _ Hspan) as [->|(c & r & -> & Hc)]; [by left|].
    right. apply Ascii.eqb_eq in Hc as <-. unfold Str.startswith. simpl.
    by rewrite prefix_nil.
  - intros Hne Hstem. pose proof (name_stem_ext p) as Hname.
    rewrite Hstem, sapp_nil_l, Hext in Hname.
    destruct (Str.endswith (name p) "."); [done|].
    destruct (span _ _) as [a b] eqn:Hspan. simpl in Hname.
    pose proof (span_sapp_eq _ _ _ _ Hspan) as Hsplit.
    destruct (lstrip_by_sapp (Char.eqb ".") (name p)) as [pre Hpre].
    rewrite Hsplit in Hpre. rewrite Hpre, <-sapp_assoc in Hname at 1.
    rewrite <-(sapp_nil_l b) in Hname at 2. apply sapp_inv_tail in Hname.
    assert (a = "") as -> by by destruct pre, a.
    rewrite sapp_nil_l in Hsplit.
    destruct (span_rest _ _ _ _ Hspan) as [->|(c & r & -> & Hc)].
    + destruct pre; [|done]. by rewrite Hpre in Hne.
    + apply lstrip_by_head in Hsplit. congruence.
Qed.

Example extension_of_dotted_names :
  (λ nm, (real_stem (mkPath "" nm), all_suffixes (mkPath "" nm)))
  <$> ["v1.2.tar.gz"; ".bashrc"; "..a.b"; "a."; "README"; ".x.y."; "a..b"]
  = [("v1", ".2.tar.gz"); (".bashrc", ""); ("..a", ".b"); ("a.", "");
     ("README", ""); (".x.y.", ""); ("a", "..b")].
Proof. by vm_compute. Qed.

(** ** The default template *)

Lemma _apply_filters_None val : _apply_filters val None = Ok val.
Proof. done. Qed.

Lemma render_stem vars_map segs joiner stem :
  vars_map !! "stem" = Some (PyStr stem) →
  render_template "{stem}" vars_map segs joiner = Ok stem.
Proof.
  intros Hv. unfold render_template.
  rewrite (placeholder_sub_bare _ "stem" "") by done.
  rewrite (repl_named _ _ _ _ _ (PyStr stem)) by done.
  simpl. by rewrite sapp_nil_r.
Qed.

Lemma render_stem_ext vars_map segs joiner stem ext :
  vars_map !! "stem" = Some (PyStr stem) →
  vars_map !! "ext" = Some (PyStr ext) →
  render_template "{stem}{ext}" vars_map segs joiner = Ok (stem +:+ ext).
Proof.
  intros Hs He. unfold render_template.
  rewrite (placeholder_sub_bare _ "stem" "{ext}") by done.
  rewrite (repl_named _ _ _ _ _ (PyStr stem)) by done.
  rewrite (placeholder_sub_bare _ "ext" "") by done.
  rewrite (repl_named _ _ _ _ _ (PyStr ext)) by done.
  simpl. by rewrite sapp_nil_r.
Qed.

Lemma dedupe_unchanged plan rules :
  Forall (λ it, changed it = false) plan → dedupe plan rules = Ok plan.
Proof.
  intros Hplan. unfold dedupe. destruct (negb _); [done|].
  assert (∀ seen out,
            foldM (dedupe_step rules) (seen, out) plan = Ok (seen, out ++ plan))
    as ->; [|done].
  induction Hplan as [|it plan Hit _ IH]; intros seen out; simpl.
  - by rewrite app_nil_r.
  - rewrite Hit. simpl. by rewrite IH, <-app_assoc.
Qed.

Section DefaultTemplate.
Context `{Externals}.

(** X9: with the template [{stem}] (the default) or [{stem}{ext}] and no
    regular expression, every item of the plan keeps its name: the
    destination is the source, the item is marked unchanged with the reason
    [no-change]; [dedupe] returns the plan as it is, and a run of the command
    line without an export path, applied or not, leaves the directory as it
    was and reports no rename. *)
Theorem default_template_is_noop (files : list File) (rules : Rules)
    (plan : list PlanItem) :
  template rules = "{stem}" ∨ template rules = "{stem}{ext}" →
  regex rules = None →
  export_plan rules = None →
  build_plan files rules = Ok plan →
  Forall (λ it, dst it = src it ∧ changed it = false ∧ reason it = "no-change")
    plan
  ∧ dedupe plan rules = Ok plan
  ∧ ∀ token fs,
      ∃ report, run_cli token fs files rules = Ok (report, fs)
                ∧ (report = None ∨ report = Some (0, 0, [])).
Proof.
  intros Htpl Hre _ Hplan.
  assert (Forall (λ it, dst it = src it ∧ changed it = false
                        ∧ reason it = "no-change") plan) as Hall.
  { pose proof Hplan as [_ Hitems]%build_plan_Ok.
    apply Forall_lookup. intros i it Hi.
    destruct (Hitems i it Hi) as (f & _ & Hit).
    apply plan_item_Ok in Hit as (segs & vars_map & new_stem & _ & Hv & Hr & ->).
    unfold item_vars in Hv. rewrite Hre in Hv. injection Hv as <-.
    assert ((if Str.contains "{ext}" (template rules)
             then new_stem else new_stem +:+ all_suffixes (path f))
            = name (path f)) as ->.
    { destruct Htpl as [Htpl|Htpl]; rewrite Htpl in *.
      - rewrite (render_stem _ _ _ (real_stem (path f))) in Hr by done.
        injection Hr as <-. symmetry. apply name_stem_ext.
      - rewrite (render_stem_ext _ _ _ (real_stem (path f))
                   (all_suffixes (path f))) in Hr by done.
        injection Hr as <-. symmetry. apply name_stem_ext. }
    simpl. rewrite String.eqb_refl. by destruct (path f). }
  assert (Forall (λ it, changed it = false) plan) as Hunchanged
    by (eapply Forall_impl; [exact Hall|]; by intros it (_ & ? & _)).
  split; [done|]. split; [by apply dedupe_unchanged|].
  intros token fs. unfold run_cli. rewrite Hplan, bind_Ok.
  case_bool_decide; [eauto|]. rewrite dedupe_unchanged, bind_Ok by done.
  destruct (dry_run rules); [eauto|].
  assert (filter (λ it, changed it = true) plan = []) as ->.
  { clear -Hunchanged. induction Hunchanged as [|it plan Hit _ IH]; [done|].
    rewrite filter_cons, decide_False by congruence. done. }
  eexists. split; [done|]. by right.
Qed.

(** X10: the preview limit cuts the plan after it has been computed: with a
    positive limit [n] the plan is the first [n] items of the plan without
    limit, item by item (sequence numbers included), and it fails exactly
    when the plan without limit fails. *)
Theorem preview_limit_is_prefix (files : list File) (rules : Rules) (n : Z) :
  0 < n →
  build_plan files (with_preview_limit n rules)
  = plan ← build_plan files (with_preview_limit 0 rules);
    Ok (take (Z.to_nat n) plan).
Proof.
  intros Hn. unfold build_plan.
  change (plan_step (with_preview_limit n rules))
    with (plan_step (with_preview_limit 0 rules)).
  change (sort_files files (sort_key (with_preview_limit n rules))
            (sort_order (with_preview_limit n rules)))
    with (sort_files files (sort_key (with_preview_limit 0 rules))
            (sort_order (with_preview_limit 0 rules))).
  change (seq_start (with_preview_limit n rules))
    with (seq_start (with_preview_limit 0 rules)).
  destruct (foldM _ _ _) as [[seq plan]|e]; [|done].
  rewrite !bind_Ok. change (preview_limit (with_preview_limit n rules)) with n.
  replace (0 <? n) with true by (symmetry; lia).
  rewrite slice_prefix by lia. done.
Qed.

End DefaultTemplate.

Lemma default_template_is_noop_witness :
  let files := [file_in_data "b.tar.gz" 1; file_in_data ".hidden" 2;
                file_in_data "A-1.txt" 3] in
  let rules := with_dry_run false default_rules in
  let plan :=
    [ mkPlanItem (mkPath "/data/" ".hidden") (mkPath "/data/" ".hidden")
        false "no-change";
      mkPlanItem (mkPath "/data/" "A-1.txt") (mkPath "/data/" "A-1.txt")
        false "no-change";
      mkPlanItem (mkPath "/data/" "b.tar.gz") (mkPath "/data/" "b.tar.gz")
        false "no-change" ] in
  (template rules = "{stem}" ∨ template rules = "{stem}{ext}")
  ∧ regex rules = None
  ∧ export_plan rules = None
  ∧ @build_plan sample_externals files rules = Ok plan
  ∧ Forall (λ it, dst it = src it ∧ changed it = false ∧ reason it = "no-change")
      plan
  ∧ dedupe plan rules = Ok plan
  ∧ ∀ token fs,
      ∃ report, @run_cli sample_externals token fs files rules = Ok (report, fs)
                ∧ (report = None ∨ report = Some (0, 0, [])).
Proof.
  intros files rules plan.
  assert (template rules = "{stem}" ∨ template rules = "{stem}{ext}") as Htpl
    by (left; reflexivity).
  assert (@build_plan sample_externals files rules = Ok plan) as Hplan
    by (vm_compute; reflexivity).
  split; [exact Htpl|]. do 2 (split; [reflexivity|]). split; [exact Hplan|].
  exact (@default_template_is_noop sample_externals files rules plan Htpl
           eq_refl eq_refl Hplan).
Defined.

Lemma preview_limit_is_prefix_witness :
  let files := [file_in_data "c" 1; file_in_data "a" 2; file_in_data "b" 3] in
  let rules := with_template "{seq}_{stem}" default_rules in
  0 < 2
  ∧ @build_plan sample_externals files (with_preview_limit 2 rules)
    = plan ← @build_plan sample_externals files (with_preview_limit 0 rules);
      Ok (take (Z.to_nat 2) plan).
Proof.
  intros files rules. split; [lia|].
  apply (@preview_limit_is_prefix sample_externals files rules 2). lia.
Defined.

(** * Further properties of the sort *)

Lemma sort_files_sort_le files sort_key sort_order :
  sort_files files sort_key sort_order
  = Seq.sorted (sort_le sort_key) files (String.eqb sort_order "desc").
Proof. unfold sort_files, sort_le. by repeat case_match. Qed.

Lemma name_le_total a b : name_le a b = false → name_le b a = true.
Proof.
  unfold name_le. intros Hab.
  destruct (String.leb_total (name_key a) (name_key b)); congruence.
Qed.

Lemma name_le_trans a b c :
  name_le a b = true → name_le b c = true → name_le a c = true.
Proof.
  unfold name_le. intros Hab%Is_true_true Hbc%Is_true_true.
  apply Is_true_true.
  exact (transitivity (R:=String.le) Hab Hbc).
Qed.

Lemma name_le_antisym a b :
  name_le a b = true → name_le b a = true → name_key a = name_key b.
Proof. unfold name_le. apply String.leb_antisym. Qed.

Lemma time_le_total t a b : time_le t a b = false → time_le t b a = true.
Proof.
  unfold time_le. intros Hab.
  apply orb_false_iff in Hab as [Hlt Heq].
  apply Z.ltb_ge in Hlt.
  destruct (Z.eq_dec (t a) (t b)) as [E|E].
  - rewrite E, Z.eqb_refl in *. simpl in Heq.
    rewrite (name_le_total _ _ Heq). by rewrite orb_true_r.
  - assert ((t b <? t a) = true) as -> by (apply Z.ltb_lt; lia). done.
Qed.

Lemma time_le_spec t a b :
  time_le t a b = true ↔ t a < t b ∨ (t a = t b ∧ name_le a b = true).
Proof.
  unfold time_le.
  rewrite orb_true_iff, andb_true_iff, Z.ltb_lt, Z.eqb_eq. tauto.
Qed.

Lemma time_le_trans t a b c :
  time_le t a b = true → time_le t b c = true → time_le t a c = true.
Proof.
  rewrite !time_le_spec.
  intros [?|[? Hab]] [?|[? Hbc]]; [left; lia..|].
  right. split; [lia|]. by eapply name_le_trans.
Qed.

Lemma time_le_antisym t a b :
  time_le t a b = true → time_le t b a = true → name_key a = name_key b.
Proof.
  rewrite !time_le_spec.
  intros [?|[? Hab]] [?|[? Hba]]; [lia..|]. by apply name_le_antisym.
Qed.

Lemma sort_le_total k a b : sort_le k a b = false → sort_le k b a = true.
Proof.
  unfold sort_le. repeat case_match;
    [apply time_le_total..|apply name_le_total].
Qed.

Lemma sort_le_trans k a b c :
  sort_le k a b = true → sort_le k b c = true → sort_le k a c = true.
Proof.
  unfold sort_le. repeat case_match;
    [apply time_le_trans..|apply name_le_trans].
Qed.

Lemma sort_le_antisym k a b :
  sort_le k a b = true → sort_le k b a = true → name_key a = name_key b.
Proof.
  unfold sort_le. repeat case_match;
    [apply time_le_antisym..|apply name_le_antisym].
Qed.

Lemma rev_reverse {A} (l : list A) : rev l = reverse l.
Proof. unfold reverse. apply rev_alt. Qed.

(** Whatever the order asked for, the sorted list is ascending or
    descending in the order of the key. *)
Lemma sorted_Sorted {A} (le : A → A → bool) l (reverse : bool) :
  (∀ a b, le a b = false → le b a = true) →
  Sorted (λ a b, if reverse then le b a = true else le a b = true)
    (Seq.sorted le l reverse).
Proof.
  intros Htotal. unfold Seq.sorted. destruct reverse.
  - rewrite rev_reverse.
    apply (Sorted_reverse (λ a b, le a b = true)).
    by apply stable_sort_Sorted.
  - by apply stable_sort_Sorted.
Qed.

Lemma fmap_inj_in {A B} (f : A → B) (l : list A) x y :
  NoDup (f <$> l) → x ∈ l → y ∈ l → f x = f y → x = y.
Proof.
  induction l as [|z l IH]; [by intros _ ?%elem_of_nil|].
  rewrite fmap_cons, NoDup_cons. intros [Hz Hl].
  rewrite !elem_of_cons. intros [->|Hx] [->|Hy] Hxy; [done| | |by apply IH].
  - destruct Hz. rewrite Hxy. by apply list_elem_of_fmap_2.
  - destruct Hz. rewrite <-Hxy. by apply list_elem_of_fmap_2.
Qed.

(** A list has one arrangement that is ascending in a total order whose
    ties are equal elements. *)
Lemma stable_sort_unique {A} (le : A → A → bool) l l' :
  (∀ a b, le a b = false → le b a = true) →
  (∀ a b c, le a b = true → le b c = true → le a c = true) →
  (∀ a b, a ∈ l → b ∈ l → le a b = true → le b a = true → a = b) →
  l ≡ₚ l' →
  Seq.stable_sort le l = Seq.stable_sort le l'.
Proof.
  intros Htotal Htrans Hanti Hperm.
  assert (Transitive (λ a b, le a b = true)) by (intros a b c; apply Htrans).
  apply (Sorted_unique_strong (λ a b, le a b = true)).
  - intros a b Ha Hb. rewrite stable_sort_perm in Ha.
    rewrite stable_sort_perm, <-Hperm in Hb. by apply Hanti.
  - by apply stable_sort_Sorted.
  - by apply stable_sort_Sorted.
  - by rewrite !stable_sort_perm.
Qed.

(** X11: whatever the sort key and the order, [sort_files] returns the
    files it was given, each as often as it was listed, arranged so that
    every file's key (the lower-cased name, or the time stamp paired with
    it) is at most its successor's when ascending and at least its
    successor's with the order [desc]. *)
Theorem sort_files_sorts (files : list File) (sort_key sort_order : string) :
  sort_files files sort_key sort_order ≡ₚ files
  ∧ Sorted (λ a b, if String.eqb sort_order "desc"
                   then sort_le sort_key b a = true
                   else sort_le sort_key a b = true)
      (sort_files files sort_key sort_order).
Proof.
  rewrite sort_files_sort_le. split; [apply sorted_perm|].
  apply (sorted_Sorted (sort_le sort_key)), sort_le_total.
Qed.

Section ListingOrder.
Context `{Externals}.

(** X12: when no two files of a listing have the same lower-cased name, the
    order in which the directory was enumerated does not matter: two
    listings of the same files are sorted alike and give the same plan,
    for every sort key, order and configuration. *)
Theorem plan_ignores_listing_order (files files' : list File) (rules : Rules)
    (Hnames : NoDup (name_key <$> files))
    (Hperm : files ≡ₚ files') :
  (∀ sort_key sort_order,
     sort_files files sort_key sort_order
     = sort_files files' sort_key sort_order)
  ∧ build_plan files rules = build_plan files' rules.
Proof.
  assert (∀ sort_key sort_order,
     sort_files files sort_key sort_order
     = sort_files files' sort_key sort_order) as Hsort.
  { intros k o. rewrite !sort_files_sort_le. unfold Seq.sorted.
    assert (∀ l l' : list File, l ≡ₚ files → l ≡ₚ l' →
      Seq.stable_sort (sort_le k) l = Seq.stable_sort (sort_le k) l') as Huniq.
    { intros l l' Hl Hll'. apply stable_sort_unique; [| | |done].
      - apply sort_le_total.
      - apply sort_le_trans.
      - intros a b Ha Hb Hab Hba. rewrite Hl in Ha, Hb.
        eapply fmap_inj_in; [exact Hnames|done..|].
        by eapply sort_le_antisym. }
    destruct (String.eqb o "desc").
    - f_equal. apply Huniq.
      + by rewrite <-Permutation_rev.
      + by rewrite <-!Permutation_rev.
    - by apply Huniq. }
  split; [done|]. unfold build_plan. by rewrite Hsort.
Qed.

End ListingOrder.

Lemma plan_ignores_listing_order_witness :
  let a := mkFile (mkPath "/data/" "b.txt") 2 2 in
  let b := mkFile (mkPath "/data/" "A.txt") 1 3 in
  NoDup (name_key <$> [a; b]) ∧ [a; b] ≡ₚ [b; a]
  ∧ build_plan (H:=sample_externals) [a; b] default_rules
    = build_plan (H:=sample_externals) [b; a] default_rules.
Proof.
  intros a b.
  assert (NoDup (name_key <$> [a; b])) as Hnd.
  { apply (bool_decide_unpack _). by vm_compute. }
  assert ([a; b] ≡ₚ [b; a]) as Hp by apply Permutation_swap.
  split; [done|]. split; [done|].
  exact (proj2 (plan_ignores_listing_order (H:=sample_externals)
                  [a; b] [b; a] default_rules Hnd Hp)).
Defined.

(** * Further properties of the conflict resolver *)

(** The loop leaves at the first free name: the names it went through are
    all claimed. *)
Lemma probe_Ok_min fuel seen stem sep ext n base n' base' :
  probe fuel seen stem sep ext n base = Ok (n', base') →
  (base' ∉ seen)
  ∧ ((n' = n ∧ base' = base)
     ∨ (n < n' ∧ base' = Str.lower (suffixed stem sep n' ext)
        ∧ base ∈ seen
        ∧ ∀ k, n < k < n' → Str.lower (suffixed stem sep k ext) ∈ seen)).
Proof.
  revert n base. induction fuel as [|fuel IH]; intros n base; simpl.
  - destruct (decide (base ∈ seen)); [done|]. intros [= <- <-]. auto.
  - destruct (decide (base ∈ seen)) as [Hin|].
    + intros Hp. apply IH in Hp as [Hfree [[-> ->]|(? & -> & Hin' & Hmin)]].
      * split; [done|]. right. repeat split; [lia|done|]. intros k ?. lia.
      * split; [done|]. right. repeat split; [lia|done|]. intros k ?.
        destruct (decide (k = n + 1)) as [->|]; [done|]. apply Hmin. lia.
    + intros [= <- <-]. auto.
Qed.

(** A changed item whose name is free is passed on with its flag
    recomputed. *)
Lemma dedupe_step_free rules seen out it :
  changed it = true → Str.lower (name (dst it)) ∉ seen →
  dedupe_step rules (seen, out) it
  = Ok ({[ Str.lower (name (dst it)) ]} ∪ seen,
        out ++ [mkPlanItem (src it) (dst it)
                  (negb (String.eqb (name (dst it)) (name (src it))))
                  (reason it)]).
Proof.
  intros Hc Hfree. unfold dedupe_step. rewrite Hc. simpl.
  by rewrite decide_False by done.
Qed.

Lemma dedupe_step_changed rules seen out it seen' out' :
  changed it = true →
  dedupe_step rules (seen, out) it = Ok (seen', out') →
  let cand n :=
    suffixed (real_stem (dst it)) (suffix_sep rules) n
      (all_suffixes (dst it)) in
  ∃ n final,
    ((n = 0 ∧ final = dst it ∧ Str.lower (name (dst it)) ∉ seen)
     ∨ (0 < n ∧ final = mkPath (dir (dst it)) (cand n)
        ∧ Str.lower (name (dst it)) ∈ seen
        ∧ (∀ k, 0 < k < n → Str.lower (cand k) ∈ seen)
        ∧ Str.lower (cand n) ∉ seen))
    ∧ seen' = {[ Str.lower (name final) ]} ∪ seen
    ∧ out' = out ++ [mkPlanItem (src it) final
                       (negb (String.eqb (name final) (name (src it))))
                       (if 0 <? n then "dedup-suffix" else reason it)].
Proof.
  intros Hc Hstep cand. unfold dedupe_step in Hstep. rewrite Hc in Hstep.
  simpl negb in Hstep. cbv iota in Hstep.
  apply bind_Ok_inv in Hstep as ([n base] & Hprobe & Hstep).
  apply bind_Ok_inv in Hstep as (final & Hfinal & [= <- <-]).
  exists n, final. split; [|done].
  apply probe_Ok_min in Hprobe as [Hfree Hn].
  destruct (n =? 0) eqn:Hn0.
  - injection Hfinal as <-. left.
    destruct Hn as [[-> ->]|[? _]]; [done|lia].
  - apply with_name_Ok in Hfinal as ->. right.
    destruct Hn as [[-> _]|(? & -> & ? & ?)]; [lia|done].
Qed.

Lemma foldM_snoc {S A} (f : S → A → result S) l x s :
  foldM f s (l ++ [x]) = s' ← foldM f s l; f s' x.
Proof.
  rewrite foldM_app. destruct (foldM f s l) as [s'|]; simpl; [|done].
  by destruct (f s' x).
Qed.

Lemma claimed_before_app plan out p o j s :
  length out = length plan → (j ≤ length plan)%nat →
  claimed_before (plan ++ p) (out ++ o) j s ↔ claimed_before plan out j s.
Proof.
  intros Hlen Hj. unfold claimed_before.
  split; intros (i & a & b & Hi & Ha & Hc & Hb & Hs); exists i, a, b.
  - rewrite lookup_app_l in Ha by lia. rewrite lookup_app_l in Hb by lia. done.
  - rewrite !lookup_app_l by lia. done.
Qed.

Lemma claimed_before_snoc plan out x y s :
  length out = length plan →
  claimed_before (plan ++ [x]) (out ++ [y]) (S (length plan)) s
  ↔ claimed_before plan out (length plan) s
    ∨ (changed x = true ∧ Str.lower (name (dst y)) = s).
Proof.
  intros Hlen. unfold claimed_before. split.
  - intros (i & a & b & Hi & Ha & Hc & Hb & Hs).
    destruct (decide (i = length plan)) as [->|].
    + right. rewrite list_lookup_middle in Ha by done.
      rewrite list_lookup_middle in Hb by done. by simplify_eq.
    + left. exists i, a, b.
      rewrite lookup_app_l in Ha by lia. rewrite lookup_app_l in Hb by lia.
      repeat split; [lia|done..].
  - intros [(i & a & b & Hi & Ha & Hc & Hb & Hs)|[Hc Hs]].
    + exists i, a, b. rewrite !lookup_app_l by lia.
      repeat split; [lia|done..].
    + exists (length plan), x, y.
      rewrite !list_lookup_middle by done. repeat split; [lia|done..].
Qed.

Lemma resolved_app rules plan out p o j a b :
  length out = length plan → (j ≤ length plan)%nat →
  resolved rules plan out j a b → resolved rules (plan ++ p) (out ++ o) j a b.
Proof.
  intros Hlen Hj. unfold resolved.
  intros (Hsrc & Hflag & Hres). do 2 (split; [done|]).
  destruct Hres as [(? & ? & ?)|(n & ? & ? & ? & ? & ? & ?)]; [left|right].
  - by rewrite claimed_before_app.
  - exists n. rewrite !claimed_before_app by done.
    repeat split; [done..| |done].
    intros k Hk. rewrite claimed_before_app by done. auto.
Qed.

(** The state of the loop of the resolver after a prefix of the plan: the
    claimed set holds what was given to the changed items, and each of them
    got the first free name. *)
Lemma dedupe_loop_min rules plan seen out :
  foldM (dedupe_step rules) (∅, []) plan = Ok (seen, out) →
  length out = length plan
  ∧ (∀ s, s ∈ seen ↔ claimed_before plan out (length plan) s)
  ∧ (∀ j a b, plan !! j = Some a → out !! j = Some b →
       if changed a then resolved rules plan out j a b else b = a).
Proof.
  revert seen out. induction plan as [|x plan IH] using rev_ind;
    intros seen out.
  { simpl. intros [= <- <-]. split; [done|]. split; [|done].
    intros s. split; [set_solver|]. intros (i & _ & _ & ? & _). lia. }
  rewrite foldM_snoc. intros Hrun.
  apply bind_Ok_inv in Hrun as ([seen0 out0] & Hpre & Hstep).
  apply IH in Hpre as (Hlen & Hseen & Hitem). clear IH.
  assert (∃ y, out = out0 ++ [y]
            ∧ (∀ s, s ∈ seen ↔ s ∈ seen0
                 ∨ (changed x = true ∧ Str.lower (name (dst y)) = s))
            ∧ (if changed x
               then resolved rules plan out0 (length plan) x y
               else y = x)) as (y & -> & Hseen' & Hy).
  { destruct (changed x) eqn:Hc.
    - apply dedupe_step_changed in Hstep
        as (n & final & Hn & -> & ->); [|done].
      eexists. split; [done|]. split.
      { intros s. rewrite elem_of_union, elem_of_singleton. cbn [dst].
        split; [intros [->|?]; auto|intros [?|[_ <-]]; auto]. }
      unfold resolved. cbn [src dst reason].
      split; [done|]. split; [apply flag_sound_intro|].
      destruct Hn as [(-> & -> & Hfree)|(Hpos & -> & Hin & Hmin & Hfree)].
      + left. by rewrite <-Hseen.
      + right. exists n. rewrite <-!Hseen.
        assert ((0 <? n) = true) as -> by lia.
        repeat split; [done..| |done].
        intros k Hk. rewrite <-Hseen. auto.
    - unfold dedupe_step in Hstep. rewrite Hc in Hstep. simpl in Hstep.
      injection Hstep as <- <-. exists x. split; [done|]. split; [|done].
      intros s. split; [auto|]. by intros [?|[? _]]. }
  split; [rewrite !length_app; simpl; lia|]. split.
  - intros s. rewrite length_app, Nat.add_1_r, claimed_before_snoc by done.
    by rewrite Hseen', Hseen.
  - intros j a b Ha Hb.
    apply lookup_snoc_Some in Ha as [[Hj Ha]|[-> <-]];
      apply lookup_snoc_Some in Hb as [[Hj' Hb]|[Hj' <-]]; try lia.
    + specialize (Hitem j a b Ha Hb). destruct (changed a); [|done].
      apply resolved_app; [done|lia|done].
    + destruct (changed x); [|done]. by apply resolved_app.
Qed.

(** X13: under the auto-suffix policy a changed item keeps its source, and
    its destination is the planned one when no earlier changed item was
    given that name (compared in lower case), with the reason kept;
    otherwise the name is stem, separator, counter, extension with the
    smallest positive counter whose lower-cased name no earlier changed
    item was given, in the directory of the planned destination and with
    the reason [dedup-suffix].  The flag of the item says whether its final
    name differs from the source name. *)
Theorem dedupe_smallest_suffix (plan out : list PlanItem) (rules : Rules)
    (j : nat) (a b : PlanItem) :
  conflict rules = "suffix" →
  dedupe plan rules = Ok out →
  plan !! j = Some a → out !! j = Some b → changed a = true →
  resolved rules plan out j a b.
Proof.
  intros Hpol Hrun Ha Hb Hc. unfold dedupe in Hrun. rewrite Hpol in Hrun.
  simpl in Hrun.
  apply bind_Ok_inv in Hrun as ([seen out'] & Hloop & [= ->]).
  apply dedupe_loop_min in Hloop as (_ & _ & Hitem).
  specialize (Hitem j a b Ha Hb). by rewrite Hc in Hitem.
Qed.

Lemma dedupe_smallest_suffix_witness :
  let rules := with_conflict "suffix" default_rules in
  let d := "/data/" in
  let plan := [mkPlanItem (mkPath d "a.txt") (mkPath d "x.txt") true "ok";
               mkPlanItem (mkPath d "b.txt") (mkPath d "X.txt") true "ok";
               mkPlanItem (mkPath d "c.txt") (mkPath d "x.TXT") true "ok"] in
  let out := [mkPlanItem (mkPath d "a.txt") (mkPath d "x.txt") true "ok";
              mkPlanItem (mkPath d "b.txt") (mkPath d "X_1.txt") true
                "dedup-suffix";
              mkPlanItem (mkPath d "c.txt") (mkPath d "x_2.TXT") true
                "dedup-suffix"] in
  dedupe plan rules = Ok out
  ∧ resolved rules plan out 2
      (mkPlanItem (mkPath d "c.txt") (mkPath d "x.TXT") true "ok")
      (mkPlanItem (mkPath d "c.txt") (mkPath d "x_2.TXT") true "dedup-suffix").
Proof.
  intros rules d plan out.
  assert (dedupe plan rules = Ok out) as Hrun by (by vm_compute).
  split; [done|].
  by apply (dedupe_smallest_suffix plan out rules 2).
Defined.

(** The loop of the resolver run again on its own output claims no more
    than the first run did and changes nothing. *)
Lemma dedupe_loop_again rules plan seen out :
  foldM (dedupe_step rules) (∅, []) plan = Ok (seen, out) →
  ∃ seen2, seen2 ⊆ seen
    ∧ foldM (dedupe_step rules) (∅, []) out = Ok (seen2, out).
Proof.
  revert seen out. induction plan as [|x plan IH] using rev_ind;
    intros seen out.
  { simpl. intros [= <- <-]. by exists ∅. }
  rewrite foldM_snoc. intros Hrun.
  apply bind_Ok_inv in Hrun as ([seen0 out0] & Hpre & Hstep).
  apply IH in Hpre as (seen2 & Hsub & Hagain). clear IH.
  apply dedupe_step_Ok in Hstep
    as [(Hc & -> & ->)|(Hc & final & r & -> & -> & Hfree)].
  - exists seen2. split; [done|]. rewrite foldM_snoc, Hagain, bind_Ok.
    unfold dedupe_step. by rewrite Hc.
  - set (y := mkPlanItem _ _ _ _). destruct (changed y) eqn:Hy.
    + exists ({[ Str.lower (name final) ]} ∪ seen2).
      split; [by apply union_mono_l|].
      rewrite foldM_snoc, Hagain, bind_Ok.
      rewrite dedupe_step_free; [|done|by intros ?%Hsub].
      unfold y in *. simpl in Hy |- *. by rewrite Hy.
    + exists seen2. split; [by apply union_subseteq_r'|].
      rewrite foldM_snoc, Hagain, bind_Ok.
      unfold dedupe_step. by rewrite Hy.
Qed.

(** X14: the conflict resolver is idempotent: run on a plan it has
    returned, it returns that plan. *)
Theorem dedupe_idempotent (plan out : list PlanItem) (rules : Rules) :
  dedupe plan rules = Ok out → dedupe out rules = Ok out.
Proof.
  unfold dedupe. destruct (negb _); [by intros [= ->]|].
  intros Hrun. apply bind_Ok_inv in Hrun as ([seen out'] & Hloop & [= ->]).
  apply dedupe_loop_again in Hloop as (seen2 & _ & ->). done.
Qed.

Lemma dedupe_idempotent_witness :
  let rules := with_conflict "suffix" default_rules in
  let d := "/data/" in
  let plan := [mkPlanItem (mkPath d "a.txt") (mkPath d "x.txt") true "ok";
               mkPlanItem (mkPath d "x_1.txt") (mkPath d "X.txt") true "ok";
               mkPlanItem (mkPath d "c.txt") (mkPath d "c.txt") false
                 "no-change"] in
  let out := [mkPlanItem (mkPath d "a.txt") (mkPath d "x.txt") true "ok";
              mkPlanItem (mkPath d "x_1.txt") (mkPath d "X_1.txt") true
                "dedup-suffix";
              mkPlanItem (mkPath d "c.txt") (mkPath d "c.txt") false
                "no-change"] in
  dedupe plan rules = Ok out ∧ dedupe out rules = Ok out.
Proof.
  intros rules d plan out.
  assert (dedupe plan rules = Ok out) as Hrun by (by vm_compute).
  split; [done|]. by apply (dedupe_idempotent plan).
Defined.

(** X15: a plan is returned as it is when the flags of its changed items
    are right and no two of them have destination names that are equal up
    to case. *)
Theorem dedupe_keeps_clash_free (plan : list PlanItem) (rules : Rules) :
  (∀ it, it ∈ plan → changed it = true → name (dst it) ≠ name (src it)) →
  NoDup ((λ it, Str.lower (name (dst it)))
           <$> filter (λ it, changed it = true) plan) →
  dedupe plan rules = Ok plan.
Proof.
  intros Hflags Hnd. unfold dedupe. destruct (negb _); [done|].
  cut (foldM (dedupe_step rules) (∅, []) plan
       = Ok (list_to_set ((λ it, Str.lower (name (dst it)))
                            <$> filter (λ it, changed it = true) plan),
             plan)); [by intros ->|].
  induction plan as [|x plan IH] using rev_ind; [done|].
  rewrite foldM_snoc, IH; clear IH.
  - rewrite bind_Ok. rewrite filter_app, fmap_app in Hnd |- *.
    apply NoDup_app in Hnd as (_ & Hfresh & _).
    rewrite filter_cons, filter_nil. rewrite filter_cons, filter_nil in Hfresh.
    destruct (changed x) eqn:Hc.
    + rewrite decide_True in Hfresh |- * by done.
      rewrite dedupe_step_free; [|done|].
      * simpl. f_equal. f_equal.
        { rewrite list_to_set_app_L. simpl.
          by rewrite (right_id_L ∅ (∪)), (comm_L (∪)). }
        f_equal. destruct x as [s d c r]. simpl in *. subst c. f_equal.
        assert (name d ≠ name s) as Hne.
        { apply (Hflags (mkPlanItem s d true r)); [|done].
          apply elem_of_app. right. by apply list_elem_of_singleton. }
        by destruct (String.eqb_spec (name d) (name s)).
      * rewrite elem_of_list_to_set. intros Hin.
        apply (Hfresh _ Hin). by apply list_elem_of_singleton.
    + rewrite decide_False by done.
      unfold dedupe_step. rewrite Hc. simpl. by rewrite app_nil_r.
  - intros it Hit. apply Hflags, elem_of_app. by left.
  - rewrite filter_app, fmap_app in Hnd. by apply NoDup_app in Hnd as (? & _).
Qed.

Lemma dedupe_keeps_clash_free_witness :
  let rules := with_conflict "suffix" default_rules in
  let d := "/data/" in
  let plan := [mkPlanItem (mkPath d "a.txt") (mkPath d "x.txt") true "ok";
               mkPlanItem (mkPath d "b.txt") (mkPath d "x.txt") false "ok";
               mkPlanItem (mkPath d "c.txt") (mkPath d "y.txt") true "ok"] in
  dedupe plan rules = Ok plan.
Proof.
  intros rules d plan. apply dedupe_keeps_clash_free.
  - intros it Hit Hc.
    repeat (apply elem_of_cons in Hit as [->|Hit]); try done.
    by apply elem_of_nil in Hit.
  - apply (bool_decide_unpack _). by vm_compute.
Defined.

(** * Further properties of the executor *)





Lemma two_phase_rename_eq token fs to_apply :
  two_phase_rename token fs to_apply
  = (st1 ← foldM (phase1_step (tmp_tag token)) (mkPhase1 fs [] [] 0) to_apply;
     let st2 := foldl (phase2_step (tmp_tag token))
                  (mkPhase2 (p1_fs st1) (p1_logs st1) 0) (temp_pairs st1) in
     Ok (p2_ok st2, p1_skipped st1, p2_logs st2, p2_fs st2)).
Proof. reflexivity. Qed.

Lemma foldM_cons {S A} (f : S → A → result S) x l s :
  foldM f s (x :: l) = s' ← f s x; foldM f s' l.
Proof. reflexivity. Qed.

(** One round of phase 1: the item is skipped with a line in the log, or
    its source is moved to the temporary name. *)
Lemma phase1_step_cases tag st it st' :
  phase1_step tag st it = Ok st' →
  (∃ l, log_skip l = true
      ∧ st' = mkPhase1 (p1_fs st) (temp_pairs st) (p1_logs st ++ [l])
                (p1_skipped st + 1))
  ∨ (∃ c, changed it = true
        ∧ p1_fs st !! src_path it = Some c
        ∧ p1_fs st !! dst_path it = None
        ∧ st' = mkPhase1 (<[tmp_path tag it := c]>
                            (delete (src_path it) (p1_fs st)))
                  (temp_pairs st ++ [(tmp_of tag it, dst it)])
                  (p1_logs st) (p1_skipped st)).
Proof.
  unfold phase1_step. destruct (changed it) eqn:Hc; simpl negb; cbv iota.
  2: { intros [= <-]. left. eexists. split; [|reflexivity]; reflexivity. }
  unfold fs_exists. case_bool_decide as Hd.
  { intros [= <-]. left. eexists. split; [|reflexivity]; reflexivity. }
  intros Hstep. apply bind_Ok_inv in Hstep as (tmp & Htmp & Hstep).
  apply with_name_Ok in Htmp as ->. unfold fs_rename in Hstep.
  destruct (p1_fs st !! path_str (src it)) as [c|] eqn:Hs.
  - injection Hstep as <-. right. exists c.
    split; [done|]. split; [done|]. split; [|done].
    by apply eq_None_not_Some.
  - injection Hstep as <-. left. eexists. split; [|reflexivity]; reflexivity.
Qed.

Lemma phase1_loop tag items st st' :
  foldM (phase1_step tag) st items = Ok st' →
  ∃ moved new,
    temp_pairs st'
    = temp_pairs st ++ ((λ it, (tmp_of tag it, dst it)) <$> moved)
    ∧ moved ⊆ items
    ∧ p1_logs st' = p1_logs st ++ new
    ∧ Forall (λ l, log_skip l = true) new
    ∧ p1_skipped st' = p1_skipped st + Z.of_nat (length new)
    ∧ (length moved + length new)%nat = length items
    ∧ ∀ p, (∀ it, it ∈ items → p ≠ src_path it ∧ p ≠ tmp_path tag it) →
           p1_fs st' !! p = p1_fs st !! p.
Proof.
  revert st. induction items as [|x items IH]; intros st.
  { simpl. intros [= <-]. exists [], []. rewrite !app_nil_r.
    do 3 (split; [done|]). split; [constructor|].
    split; [simpl; lia|]. by split. }
  rewrite foldM_cons. intros Hrun.
  apply bind_Ok_inv in Hrun as (st1 & Hstep & Hrun).
  apply IH in Hrun
    as (moved & new & Hpairs & Hsub & Hlogs & Hskip & Hcount & Hlen & Hframe).
  clear IH.
  apply phase1_step_cases in Hstep
    as [(l & Hl & ->)|(c & Hc & Hs & Hd & ->)]; simpl in *.
  - exists moved, (l :: new). split; [done|].
    split; [by intros y Hy; apply elem_of_cons; right; apply Hsub|].
    split; [by rewrite Hlogs, <-app_assoc|].
    split; [by constructor|]. split; [simpl length; lia|].
    split; [simpl length; lia|].
    intros p Hp. apply Hframe. intros it Hit. apply Hp, elem_of_cons. by right.
  - exists (x :: moved), new. split; [by rewrite Hpairs, <-app_assoc|].
    split.
    { intros y [->|Hy]%elem_of_cons; apply elem_of_cons; [by left|].
      right. by apply Hsub. }
    do 3 (split; [done|]). split; [simpl length; lia|].
    intros p Hp. rewrite Hframe.
    + destruct (Hp x) as [? ?]; [apply elem_of_cons; by left|].
      by rewrite lookup_insert_ne, lookup_delete_ne.
    + intros it Hit. apply Hp, elem_of_cons. by right.
Qed.

Lemma phase2_step_cases tag st tmp d :
  (∃ c, p2_fs st !! path_str tmp = Some c
      ∧ phase2_step tag st (tmp, d)
        = mkPhase2 (<[path_str d := c]> (delete (path_str tmp) (p2_fs st)))
            (p2_logs st ++ [LogDone (Str.replace1 tag "" (name tmp)) (name d)])
            (p2_ok st + 1))
  ∨ (p2_fs st !! path_str tmp = None
     ∧ phase2_step tag st (tmp, d)
       = mkPhase2 (p2_fs st)
           (p2_logs st ++ [LogFailed2 (name tmp) (name d) OSError])
           (p2_ok st)).
Proof.
  unfold phase2_step, fs_rename.
  destruct (p2_fs st !! path_str tmp) as [c|]; [left|right]; eauto.
Qed.

Lemma phase2_loop tag pairs st st' :
  foldl (phase2_step tag) st pairs = st' →
  ∃ new,
    p2_logs st' = p2_logs st ++ new
    ∧ length new = length pairs
    ∧ Forall (λ l, log_skip l = false) new
    ∧ p2_ok st'
      = p2_ok st + Z.of_nat (length (filter (λ l, log_done l = true) new))
    ∧ ∀ p, (∀ pr, pr ∈ pairs → p ≠ path_str pr.1 ∧ p ≠ path_str pr.2) →
           p2_fs st' !! p = p2_fs st !! p.
Proof.
  revert st. induction pairs as [|[tmp d] pairs IH]; intros st.
  { simpl. intros <-. exists []. rewrite app_nil_r. do 2 (split; [done|]).
    split; [constructor|]. split; [simpl; lia|done]. }
  intros Hrun.
  change (foldl (phase2_step tag) (phase2_step tag st (tmp, d)) pairs = st')
    in Hrun.
  apply IH in Hrun as (new & Hlogs & Hlen & Hskip & Hok & Hframe). clear IH.
  destruct (phase2_step_cases tag st tmp d) as [(c & Htmp & Hst)|[Htmp Hst]];
    rewrite Hst in *; clear Hst; simpl in *.
  - eexists (_ :: new). split; [by rewrite Hlogs, <-app_assoc|].
    split; [by simpl; rewrite Hlen|]. split; [by constructor|].
    split; [rewrite filter_cons_True by done; simpl length; lia|].
    intros p Hp. rewrite Hframe.
    + destruct (Hp (tmp, d)) as [? ?]; [apply elem_of_cons; by left|].
      simpl in *. by rewrite lookup_insert_ne, lookup_delete_ne.
    + intros pr Hpr. apply Hp, elem_of_cons. by right.
  - eexists (_ :: new). split; [by rewrite Hlogs, <-app_assoc|].
    split; [by simpl; rewrite Hlen|]. split; [by constructor|].
    split; [rewrite filter_cons_False by done; lia|].
    intros p Hp. rewrite Hframe; [done|].
    intros pr Hpr. apply Hp, elem_of_cons. by right.
Qed.

Lemma filter_all {A} (P : A → Prop) `{!∀ x, Decision (P x)} l :
  Forall P l → filter P l = l.
Proof.
  induction 1 as [|x l Hx _ IH]; [done|].
  by rewrite filter_cons_True, IH.
Qed.

Lemma filter_none {A} (P : A → Prop) `{!∀ x, Decision (P x)} l :
  Forall (λ x, ¬ P x) l → filter P l = [].
Proof.
  induction 1 as [|x l Hx _ IH]; [done|].
  by rewrite filter_cons_False.
Qed.

(** X16: the executor accounts for every item it is given with exactly one
    line of the log; the success count is the number of lines that report a
    rename as done, the skip count the number of lines that report an item
    as unchanged, as blocked by an existing destination or as failed in
    phase 1 (a failure in phase 2 adds to neither count), so the two counts
    together never exceed the number of items. *)
Theorem two_phase_accounts (token : string) (fs fs' : FS)
    (to_apply : list PlanItem) (ok skipped : Z) (logs : list log_line) :
  two_phase_rename token fs to_apply = Ok (ok, skipped, logs, fs') →
  length logs = length to_apply
  ∧ ok = Z.of_nat (length (filter (λ l, log_done l = true) logs))
  ∧ skipped = Z.of_nat (length (filter (λ l, log_skip l = true) logs))
  ∧ 0 ≤ ok ∧ 0 ≤ skipped ∧ ok + skipped ≤ Z.of_nat (length to_apply).
Proof.
  rewrite two_phase_rename_eq. intros Hrun.
  apply bind_Ok_inv in Hrun as (st1 & Hp1 & Hrun).
  apply phase1_loop in Hp1
    as (moved & new1 & Hpairs & _ & Hlogs1 & Hskip1 & Hcount & Hlen & _).
  cbn zeta in Hrun.
  remember (foldl (phase2_step (tmp_tag token))
              (mkPhase2 (p1_fs st1) (p1_logs st1) 0) (temp_pairs st1))
    as st2 eqn:Hst2.
  symmetry in Hst2.
  apply phase2_loop in Hst2 as (new2 & Hlogs2 & Hlen2 & Hskip2 & Hok & _).
  injection Hrun as <- <- <- <-.
  cbn [p2_logs p2_ok p2_fs] in *.
  rewrite Hlogs2, Hlogs1, Hcount, Hok. clear Hlogs2 Hok.
  rewrite Hpairs in Hlen2. cbn [temp_pairs app] in Hlen2.
  rewrite length_fmap in Hlen2.
  assert (filter (λ l, log_skip l = true) new1 = new1) as Hs1
    by by apply filter_all.
  assert (filter (λ l, log_skip l = true) new2 = []) as Hs2.
  { apply filter_none. eapply Forall_impl; [exact Hskip2|].
    intros l Hl. simpl. congruence. }
  assert (filter (λ l, log_done l = true) new1 = []) as Hd1.
  { apply filter_none. eapply Forall_impl; [exact Hskip1|].
    intros l Hl. simpl. by destruct l. }
  pose proof (length_filter (λ l, log_done l = true) new2).
  rewrite !filter_app, Hs1, Hs2, Hd1, app_nil_r, !length_app. simpl.
  repeat split; lia.
Qed.

Lemma two_phase_accounts_witness :
  let d := "/data/" in
  let fs : FS := <["/data/a.txt" := "alpha"]> (<["/data/c.txt" := "gamma"]> ∅) in
  let items := [mkPlanItem (mkPath d "a.txt") (mkPath d "b.txt") true "ok";
                mkPlanItem (mkPath d "c.txt") (mkPath d "c.txt") false
                  "no-change";
                mkPlanItem (mkPath d "x.txt") (mkPath d "y.txt") true "ok"] in
  let logs := [LogNoChange "c.txt"; LogFailed1 "x.txt" "y.txt" OSError;
               LogDone "a.txt" "b.txt"] in
  two_phase_rename "0a1b2c3d" fs items
  = Ok (1, 2, logs, <["/data/b.txt" := "alpha"]> (<["/data/c.txt" := "gamma"]> ∅))
  ∧ length logs = length items.
Proof.
  intros d fs items logs.
  assert (two_phase_rename "0a1b2c3d" fs items
          = Ok (1, 2, logs,
                <["/data/b.txt" := "alpha"]> (<["/data/c.txt" := "gamma"]> ∅)))
    as Hrun by (by vm_compute).
  split; [done|].
  exact (proj1 (two_phase_accounts _ _ _ _ _ _ _ Hrun)).
Defined.

(** X17: the executor touches nothing but the paths of its items: a path
    that is no source, no destination and no temporary name of an item
    holds after the run what it held before. *)
Theorem two_phase_frame (token : string) (fs fs' : FS)
    (to_apply : list PlanItem) (ok skipped : Z) (logs : list log_line) :
  two_phase_rename token fs to_apply = Ok (ok, skipped, logs, fs') →
  ∀ p, (∀ it, it ∈ to_apply →
          p ≠ src_path it ∧ p ≠ dst_path it ∧ p ≠ tmp_path (tmp_tag token) it) →
       fs' !! p = fs !! p.
Proof.
  rewrite two_phase_rename_eq. intros Hrun p Hp.
  apply bind_Ok_inv in Hrun as (st1 & Hp1 & Hrun).
  apply phase1_loop in Hp1 as (moved & _ & Hpairs & Hsub & _ & _ & _ & _ & Hf1).
  cbn zeta in Hrun.
  remember (foldl (phase2_step (tmp_tag token))
              (mkPhase2 (p1_fs st1) (p1_logs st1) 0) (temp_pairs st1))
    as st2 eqn:Hst2.
  symmetry in Hst2.
  apply phase2_loop in Hst2 as (_ & _ & _ & _ & _ & Hf2).
  injection Hrun as <- <- <- <-. cbn [p2_logs p2_ok p2_fs p1_fs] in *.
  rewrite Hf2, Hf1; [done| |].
  - intros it Hit. destruct (Hp it Hit) as (? & ? & ?). done.
  - intros pr Hpr. rewrite Hpairs in Hpr.
    apply list_elem_of_fmap in Hpr as (it & -> & Hit%Hsub).
    destruct (Hp it Hit) as (? & ? & ?). done.
Qed.

Lemma two_phase_frame_witness :
  let d := "/data/" in
  let fs : FS := <["/data/a.txt" := "alpha"]> (<["/data/c.txt" := "gamma"]> ∅) in
  let fs' : FS := <["/data/b.txt" := "alpha"]> (<["/data/c.txt" := "gamma"]> ∅) in
  let items := [mkPlanItem (mkPath d "a.txt") (mkPath d "b.txt") true "ok"] in
  two_phase_rename "0a1b2c3d" fs items
  = Ok (1, 0, [LogDone "a.txt" "b.txt"], fs')
  ∧ fs' !! "/data/c.txt" = fs !! "/data/c.txt".
Proof.
  intros d fs fs' items.
  assert (two_phase_rename "0a1b2c3d" fs items
          = Ok (1, 0, [LogDone "a.txt" "b.txt"], fs')) as Hrun
    by (by vm_compute).
  split; [done|].
  apply (two_phase_frame _ _ _ _ _ _ _ Hrun).
  intros it ->%list_elem_of_singleton. by vm_compute.
Defined.

(** ** A batch without clashes *)














(** * Further properties of the file filter *)

Section Filters.
Context `{Externals}.

Lemma any_Ok {A} (f : A → result bool) (m : A → bool) l :
  (∀ x, x ∈ l → f x = Ok (m x)) → Seq.any f l = Ok (existsb m l).
Proof.
  induction l as [|x l IH]; intros Hf; [done|]. simpl.
  rewrite Hf, bind_Ok by (by left). destruct (m x); [done|].
  apply IH. intros y Hy. apply Hf. by right.
Qed.

(** X20: the three filters of [should_take] are conjunctive and the
    exclusion has the last word: when the glob matcher answers on every
    pattern that is configured, a path is taken exactly if it passes the
    extension filter (none configured, or the path text ends with one), it
    matches one of the inclusion patterns (or none is configured), and it
    matches no exclusion pattern. *)
Theorem should_take_filters (p : Path) (rules : Rules) (m : string → bool) :
  (∀ g, g ∈ include rules ++ exclude rules → path_match p g = Ok (m g)) →
  should_take p rules
  = Ok ((bool_decide (exts rules = []) || ext_allowed p rules)
        && (bool_decide (include rules = []) || existsb m (include rules))
        && negb (existsb m (exclude rules))).
Proof.
  intros Hm. unfold should_take.
  rewrite (any_Ok _ m (include rules)), (any_Ok _ m (exclude rules)).
  - assert ((if bool_decide (exclude rules = []) then Ok false
             else Ok (existsb m (exclude rules)))
            = Ok (existsb m (exclude rules))) as ->
      by (case_bool_decide as He; [by rewrite He|done]).
    by destruct (bool_decide (exts rules = [])), (ext_allowed p rules),
      (bool_decide (include rules = [])), (existsb m (include rules)).
  - intros g Hg. apply Hm, elem_of_app. by right.
  - intros g Hg. apply Hm, elem_of_app. by left.
Qed.

Lemma taken_not_temporary rules f :
  taken rules f = Ok true →
  Str.startswith (name (path f)) "__tmp_rename__" = false.
Proof. unfold taken. by destruct (Str.startswith _ _). Qed.

(** Where the items of a resolved plan come from. *)
Lemma resolved_plan_items files rules plan out :
  build_plan files rules = Ok plan → dedupe plan rules = Ok out →
  length out = length plan
  ∧ ∀ i it, out !! i = Some it →
      ∃ f a, f ∈ files ∧ taken rules f = Ok true
           ∧ plan !! i = Some a ∧ src a = path f
           ∧ src it = path f
           ∧ dir (dst it) = dir (path f)
           ∧ (changed a = false → it = a).
Proof.
  intros Hplan Hout.
  apply build_plan_Ok in Hplan as [_ Hitems].
  assert (∀ i a, plan !! i = Some a →
            ∃ f, f ∈ files ∧ taken rules f = Ok true
               ∧ src a = path f ∧ dir (dst a) = dir (path f)) as Hsrc.
  { intros i a Ha. destruct (Hitems i a Ha) as (f & Hf & Hit).
    apply list_elem_of_lookup_2, kept_files_spec in Hf as [Hf Htaken].
    apply plan_item_Ok in Hit as (segs & vars_map & new_stem & _ & _ & _ & ->).
    by exists f. }
  clear Hitems. unfold dedupe in Hout.
  destruct (negb _).
  { injection Hout as <-. split; [done|]. intros i it Hi.
    destruct (Hsrc i it Hi) as (f & ? & ? & ? & ?). by exists f, it. }
  apply bind_Ok_inv in Hout as ([seen out'] & Hloop & [= ->]).
  apply dedupe_loop_min in Hloop as (Hlen & _ & Hres).
  split; [done|]. intros i it Hi.
  destruct (plan !! i) as [a|] eqn:Ha.
  2: { apply lookup_ge_None in Ha. apply lookup_lt_Some in Hi. lia. }
  destruct (Hsrc i a Ha) as (f & Hf & Htaken & Hsa & Hda).
  exists f, a. do 4 (split; [done|]).
  specialize (Hres i a it Ha Hi). destruct (changed a).
  - destruct Hres as (Hs & _ & [(_ & Hd & _)|(n & _ & Hd & _)]);
      rewrite Hs, Hd; by repeat split.
  - subst it. by repeat split.
Qed.

(** X21: every item of a resolved plan comes from a listed file that got
    past both guards of the planning loop: the resolver returns as many
    items as it was given, the source of the item at each position is the
    path of such a file (the source of the planned item at that position),
    its name does not begin with the prefix of the temporary names, the
    destination lies in the directory of the source, and an item that was
    planned as unchanged is passed on as it is. *)
Theorem plan_items_come_from_listing (files : list File) (rules : Rules)
    (plan out : list PlanItem) :
  build_plan files rules = Ok plan → dedupe plan rules = Ok out →
  length out = length plan
  ∧ ∀ i it, out !! i = Some it →
      ∃ f a, f ∈ files ∧ taken rules f = Ok true
           ∧ plan !! i = Some a ∧ src a = path f
           ∧ src it = path f
           ∧ Str.startswith (name (src it)) "__tmp_rename__" = false
           ∧ dir (dst it) = dir (src it)
           ∧ (changed a = false → it = a).
Proof.
  intros Hplan Hout.
  destruct (resolved_plan_items _ _ _ _ Hplan Hout) as [Hlen Hitems].
  split; [done|]. intros i it Hi.
  destruct (Hitems i it Hi) as (f & a & ? & Htaken & ? & ? & Hs & ? & ?).
  exists f, a. do 5 (split; [done|]). rewrite Hs.
  split; [by apply (taken_not_temporary rules)|done].
Qed.

(** X22: a run of the command line without an export path touches nothing
    outside the directories of the files it takes: a path that does not lie
    in the directory of a listed file that gets past the guards holds after
    the run what it held before, whatever the template, the conflict policy
    and the outcome of the renames. *)
Theorem run_cli_stays_in_directories (token : string) (fs fs' : FS)
    (files : list File) (rules : Rules)
    (report : option (Z * Z * list log_line)) :
  export_plan rules = None →
  run_cli token fs files rules = Ok (report, fs') →
  ∀ p, (∀ f rest, f ∈ files → taken rules f = Ok true →
          p ≠ dir (path f) +:+ rest) →
       fs' !! p = fs !! p.
Proof.
  intros _ Hrun p Hp. unfold run_cli in Hrun.
  apply bind_Ok_inv in Hrun as (plan & Hplan & Hrun).
  case_bool_decide; [by injection Hrun as <- <-|].
  apply bind_Ok_inv in Hrun as (out & Hout & Hrun).
  destruct (dry_run rules); [by injection Hrun as <- <-|].
  apply bind_Ok_inv in Hrun as ([[[ok skipped] logs] fs2] & Hrun & [= <- <-]).
  destruct (resolved_plan_items _ _ _ _ Hplan Hout) as [_ Hitems].
  rewrite two_phase_rename_eq in Hrun.
  apply bind_Ok_inv in Hrun as (st1 & Hp1 & Hrun).
  apply phase1_loop in Hp1 as (moved & _ & Hpairs & Hsub & _ & _ & _ & _ & Hf1).
  cbn zeta in Hrun.
  remember (foldl (phase2_step (tmp_tag token))
              (mkPhase2 (p1_fs st1) (p1_logs st1) 0) (temp_pairs st1))
    as st2 eqn:Hst2.
  symmetry in Hst2.
  apply phase2_loop in Hst2 as (_ & _ & _ & _ & _ & Hf2).
  injection Hrun as <- <- <- <-. cbn [p2_logs p2_ok p2_fs p1_fs] in *.
  assert (∀ it, it ∈ filter (λ it, changed it = true) out →
            p ≠ src_path it ∧ p ≠ dst_path it
            ∧ p ≠ tmp_path (tmp_tag token) it) as Hout_of.
  { intros it [_ Hit]%list_elem_of_filter.
    apply list_elem_of_lookup_1 in Hit as [i Hi].
    destruct (Hitems i it Hi) as (f & a & Hf & Htaken & _ & _ & Hs & Hd & _).
    unfold src_path, dst_path, tmp_path, tmp_of, path_str. cbn [dir name].
    rewrite Hs, Hd. repeat split; by apply Hp. }
  rewrite Hf2, Hf1; [done| |].
  - intros it Hit. destruct (Hout_of it Hit) as (? & ? & ?). done.
  - intros pr Hpr. rewrite Hpairs in Hpr.
    apply list_elem_of_fmap in Hpr as (it & -> & Hit%Hsub).
    destruct (Hout_of it Hit) as (? & ? & ?). done.
Qed.

End Filters.

Lemma should_take_filters_witness :
  let rules :=
    mkRules "-" None false ["*.txt"; "*"] ["*.bak"] [".txt"] "{stem}" "-"
      "skip" "_" true 0 None "name" "asc" 1 1 4 in
  let p := mkPath "/data/" "a.txt" in
  should_take (H:=sample_externals) p rules = Ok true.
Proof.
  intros rules p.
  apply (should_take_filters (H:=sample_externals) p rules
           (λ g, String.eqb g "*")).
  intros g Hg.
  repeat (apply elem_of_cons in Hg as [->|Hg]); try done.
  by apply elem_of_nil in Hg.
Defined.

Lemma plan_items_come_from_listing_witness :
  let files := [file_in_data "a.txt" 1; file_in_data "b.txt" 2] in
  let plan :=
    [mkPlanItem (mkPath "/data/" "a.txt") (mkPath "/data/" "a.txt") false
       "no-change";
     mkPlanItem (mkPath "/data/" "b.txt") (mkPath "/data/" "a.txt") true "ok"] in
  build_plan (H:=sample_externals) files collide_rules = Ok plan
  ∧ dedupe plan collide_rules = Ok plan
  ∧ length plan = length plan.
Proof.
  intros files plan.
  assert (build_plan (H:=sample_externals) files collide_rules = Ok plan)
    as Hplan by (by vm_compute).
  assert (dedupe plan collide_rules = Ok plan) as Hout by (by vm_compute).
  split; [done|]. split; [done|].
  exact (proj1 (plan_items_come_from_listing (H:=sample_externals)
                  files collide_rules plan plan Hplan Hout)).
Defined.

Lemma run_cli_stays_in_directories_witness :
  let files := [file_in_data "a.txt" 1] in
  let rules := with_dry_run false (with_template "x" default_rules) in
  let fs : FS :=
    <["/data/a.txt" := "alpha"]> (<["/other/a.txt" := "omega"]> ∅) in
  let fs' : FS :=
    <["/data/x.txt" := "alpha"]> (<["/other/a.txt" := "omega"]> ∅) in
  run_cli (H:=sample_externals) "0a1b2c3d" fs files rules
  = Ok (Some (1, 0, [LogDone "a.txt" "x.txt"]), fs')
  ∧ fs' !! "/other/a.txt" = fs !! "/other/a.txt".
Proof.
  intros files rules fs fs'.
  assert (run_cli (H:=sample_externals) "0a1b2c3d" fs files rules
          = Ok (Some (1, 0, [LogDone "a.txt" "x.txt"]), fs')) as Hrun
    by (by vm_compute).
  split; [done|].
  apply (run_cli_stays_in_directories (H:=sample_externals) "0a1b2c3d" fs fs'
           files rules _ eq_refl Hrun).
  intros f rest ->%list_elem_of_singleton _. by vm_compute.
Defined.

(** * The selection of the graphical front end *)

Lemma tree_set_iids i flag rows rows' :
  tree_set i flag rows = Some rows' → iid <$> rows' = iid <$> rows.
Proof.
  unfold tree_set. case_bool_decide; [|done]. intros [= <-]. clear.
  induction rows as [|r rows IH]; [done|].
  rewrite !fmap_cons, IH. f_equal. by destruct (String.eqb _ _).
Qed.

(** On a row of the table [_set_checked] returns, and the table goes on
    showing what is checked. *)
Lemma set_checked_consistent i flag st :
  consistent st → i ∈ iid <$> tree st →
  ∃ st', _set_checked i flag st = Returned st'
       ∧ consistent st'
       ∧ checked st' = (if flag then {[ i ]} ∪ checked st
                        else checked st ∖ {[ i ]})
       ∧ iid <$> tree st' = iid <$> tree st
       ∧ ui_plan st' = ui_plan st
       ∧ drag st' = drag st.
Proof.
  intros (Hnd & Hsel & Hsub & Hlbl) Hi. unfold _set_checked.
  destruct (tree_set i flag (tree st)) as [rows|] eqn:Hset.
  2: { unfold tree_set in Hset. by rewrite bool_decide_eq_true_2 in Hset. }
  pose proof (tree_set_iids _ _ _ _ Hset) as Hiids.
  eexists. split; [done|]. split; [|done].
  unfold consistent. cbn [tree checked ui_plan lbl_count].
  split; [by rewrite Hiids|]. split; [|split; [|done]].
  - unfold tree_set in Hset. rewrite bool_decide_eq_true_2 in Hset by done.
    injection Hset as <-. intros r' Hr'.
    apply list_elem_of_fmap in Hr' as (r & -> & Hr).
    destruct (String.eqb_spec (iid r) i) as [Heq|Hne]; cbn [iid sel].
    + rewrite Heq. symmetry. destruct flag.
      * apply bool_decide_eq_true_2, elem_of_union. left.
        by apply elem_of_singleton.
      * apply bool_decide_eq_false_2. intros [_ Hn]%elem_of_difference.
        apply Hn. by apply elem_of_singleton.
    + rewrite (Hsel r Hr). apply bool_decide_ext. destruct flag.
      * rewrite elem_of_union, elem_of_singleton.
        split; [auto|by intros [?|?]].
      * rewrite elem_of_difference, elem_of_singleton.
        split; [auto|by intros [? _]].
  - rewrite Hiids. intros j Hj. destruct flag.
    + apply elem_of_union in Hj as [->%elem_of_singleton|Hj]; auto.
    + apply elem_of_difference in Hj as [Hj _]. auto.
Qed.

Lemma on_click_consistent col row st :
  consistent st → row = "" ∨ row ∈ iid <$> tree st →
  ∃ st', on_click col row st = Returned st'
       ∧ consistent st'
       ∧ iid <$> tree st' = iid <$> tree st
       ∧ ui_plan st' = ui_plan st.
Proof.
  intros Hst Hrow. unfold on_click.
  destruct (String.eqb col "#1"); [|by exists st].
  destruct (String.eqb_spec row "") as [->|Hne]; [by exists st|].
  destruct Hrow as [?|Hrow]; [done|]. cbn [andb negb].
  destruct (set_checked_consistent row
              (negb (bool_decide (row ∈ checked st))) st Hst Hrow)
    as (st' & -> & Hst' & _ & Hiids & Hplan & _).
  eexists. split; [done|]. split; [exact Hst'|]. by split.
Qed.

Lemma on_drag_consistent row st :
  consistent st → row = "" ∨ row ∈ iid <$> tree st →
  ∃ st', on_drag row st = Returned st'
       ∧ consistent st'
       ∧ iid <$> tree st' = iid <$> tree st
       ∧ ui_plan st' = ui_plan st.
Proof.
  intros Hst Hrow. unfold on_drag.
  destruct (active (drag st)); [|by exists st]. cbn [negb].
  destruct (String.eqb_spec row "") as [->|Hne]; [by exists st|].
  destruct Hrow as [?|Hrow]; [done|]. cbn [andb negb].
  case_bool_decide; [by exists st|]. cbn [negb].
  destruct (set_checked_consistent row (truthy (target (drag st))) st Hst Hrow)
    as (st' & -> & Hst' & _ & Hiids & Hplan & _).
  eexists. split; [done|]. split; [exact Hst'|]. by split.
Qed.

Lemma for_children_consistent flag children st :
  consistent st → (∀ i, i ∈ children → i ∈ iid <$> tree st) →
  ∃ st', for_children flag children st = Returned st'
       ∧ consistent st'
       ∧ iid <$> tree st' = iid <$> tree st
       ∧ ui_plan st' = ui_plan st
       ∧ drag st' = drag st.
Proof.
  revert st. induction children as [|i children IH]; intros st Hst Hrows.
  { by exists st. }
  cbn [for_children].
  destruct (set_checked_consistent i (flag i st) st Hst)
    as (st1 & -> & Hst1 & _ & Hiids & Hplan & Hdrag); [apply Hrows; by left|].
  destruct (IH st1 Hst1) as (st' & -> & Hst' & Hiids' & Hplan' & Hdrag').
  { intros j Hj. rewrite Hiids. apply Hrows. by right. }
  exists st'. split; [done|]. split; [done|].
  split; [congruence|]. split; congruence.
Qed.

Lemma handle_consistent ev st :
  consistent st → event_in (iid <$> tree st) ev →
  ∃ st', handle ev st = Returned st'
       ∧ consistent st'
       ∧ iid <$> tree st' = iid <$> tree st
       ∧ ui_plan st' = ui_plan st.
Proof.
  intros Hst Hev. destruct ev as [col row|row| | | |]; cbn [handle].
  - by apply on_click_consistent.
  - by apply on_drag_consistent.
  - exists (on_release st). split; [done|]. split; [exact Hst|]. by split.
  - destruct (for_children_consistent (λ _ _, true) (iid <$> tree st) st)
      as (st' & ? & ? & ? & ? & _); [done..|]. by exists st'.
  - destruct (for_children_consistent (λ _ _, false) (iid <$> tree st) st)
      as (st' & ? & ? & ? & ? & _); [done..|]. by exists st'.
  - destruct (for_children_consistent
                (λ i st, negb (bool_decide (i ∈ checked st)))
                (iid <$> tree st) st)
      as (st' & ? & ? & ? & ? & _); [done..|]. by exists st'.
Qed.

(** X23: what the table shows is what is checked, whatever the user does.
    From a state in which every row carries the mark of its iid, only rows
    are checked and the label counts right, every sequence of clicks,
    pointer motions, releases and presses of the three buttons on rows of
    the table is handled without an error of the widget and leads to such a
    state again, with the same rows and the same plan. *)
Theorem selection_display_consistent (evs : list event) (st : UI) :
  consistent st → Forall (event_in (iid <$> tree st)) evs →
  ∃ st', run_events evs st = Returned st'
       ∧ consistent st'
       ∧ iid <$> tree st' = iid <$> tree st
       ∧ ui_plan st' = ui_plan st.
Proof.
  revert st. induction evs as [|ev evs IH]; intros st Hst Hevs.
  { by exists st. }
  apply Forall_cons in Hevs as [Hev Hevs]. cbn [run_events].
  destruct (handle_consistent ev st Hst Hev) as (st1 & -> & Hst1 & Hiids & Hplan).
  destruct (IH st1 Hst1) as (st' & -> & Hst' & Hiids' & Hplan').
  { by rewrite Hiids. }
  exists st'. split; [done|]. split; [done|]. split; congruence.
Qed.

Lemma run_events_app evs evs' st st' :
  run_events evs st = Returned st' →
  run_events (evs ++ evs') st = run_events evs' st'.
Proof.
  revert st. induction evs as [|ev evs IH]; intros st; cbn [run_events app].
  { by intros [= ->]. }
  destruct (handle ev st) as [st1|st1]; [apply IH|].
  by destruct (run_events evs st1).
Qed.

Lemma paint_more flag x painted marked :
  paint flag {[ x ]} (paint flag painted marked)
  = paint flag ({[ x ]} ∪ painted) marked.
Proof.
  unfold paint. destruct flag; apply set_eq; intros y.
  - rewrite !elem_of_union. tauto.
  - rewrite !elem_of_difference, elem_of_union. tauto.
Qed.

(** The motions of a gesture: every row that the pointer reaches for the
    first time is set to the target. *)
Lemma drag_loop flag base rs st painted :
  consistent st →
  drag st = mkDrag true (Some flag) painted →
  checked st = paint flag painted base →
  Forall (λ x, x = "" ∨ x ∈ iid <$> tree st) rs →
  let reached := list_to_set (filter (λ x, x ≠ "") rs) ∪ painted in
  ∃ st', run_events (Motion <$> rs) st = Returned st'
       ∧ consistent st'
       ∧ iid <$> tree st' = iid <$> tree st
       ∧ ui_plan st' = ui_plan st
       ∧ drag st' = mkDrag true (Some flag) reached
       ∧ checked st' = paint flag reached base.
Proof.
  revert st painted.
  induction rs as [|x rs IH]; intros st painted Hst Hdrag Hmarked Hrs; cbn zeta.
  { exists st. rewrite filter_nil. cbn [list_to_set foldr].
    rewrite (left_id_L ∅ (∪)). by repeat (split; [done|]). }
  apply Forall_cons in Hrs as [Hx Hrs].
  rewrite fmap_cons. cbn [run_events handle]. unfold on_drag.
  rewrite Hdrag. cbn [active seen target truthy negb].
  destruct (String.eqb_spec x "") as [->|Hne]; cbn [negb andb].
  { destruct (IH st painted Hst Hdrag Hmarked Hrs)
      as (st' & -> & ? & ? & ? & ? & ?).
    exists st'. rewrite filter_cons_False by (by intros ?). by repeat (split; [done|]). }
  rewrite filter_cons_True by done. cbn [list_to_set foldr].
  destruct Hx as [?|Hx]; [done|].
  case_bool_decide as Hseen; cbn [negb].
  { destruct (IH st painted Hst Hdrag Hmarked Hrs)
      as (st' & -> & ? & ? & ? & Hd & Hc).
    exists st'. do 4 (split; [done|]).
    assert ({[x]} ∪ list_to_set (filter (λ x0, x0 ≠ "") rs) ∪ painted
            = list_to_set (filter (λ x0, x0 ≠ "") rs) ∪ painted) as ->; [|done].
    apply set_eq. intros y. rewrite !elem_of_union, elem_of_singleton.
    split; [intros [[->|?]|?]; auto|intros [?|?]; auto]. }
  destruct (set_checked_consistent x flag st Hst Hx)
    as (st1 & -> & Hst1 & Hc1 & Hiids1 & Hplan1 & Hdrag1).
  rewrite Hdrag1, Hdrag. cbn [active target].
  set (st2 := mkUI _ _ _ _ _).
  destruct (IH st2 ({[x]} ∪ painted)) as (st' & -> & ? & ? & ? & Hd & Hc).
  - exact Hst1.
  - done.
  - cbn [st2 checked]. rewrite Hc1, Hmarked. exact (paint_more _ _ _ _).
  - cbn [st2 tree]. by rewrite Hiids1.
  - exists st'. split; [done|]. split; [done|].
    split; [cbn [st2 tree] in *; congruence|].
    split; [cbn [st2 ui_plan] in *; congruence|].
    assert ({[x]} ∪ list_to_set (filter (λ x0, x0 ≠ "") rs) ∪ painted
            = list_to_set (filter (λ x0, x0 ≠ "") rs) ∪ ({[x]} ∪ painted))
      as ->; [|done].
    apply set_eq. intros y. rewrite !elem_of_union, elem_of_singleton. tauto.
Qed.

(** X24: a gesture paints.  A click on the mark column of a row toggles
    that row, and every row that the pointer then passes over with the
    button held gets the state the first row was given, once, however often
    and in whatever order the pointer comes by; releasing the button ends
    the gesture.  The rows not reached keep their marks. *)
Theorem drag_paints (st : UI) (r : string) (rs : list string) :
  consistent st → r ≠ "" → r ∈ iid <$> tree st →
  Forall (λ x, x = "" ∨ x ∈ iid <$> tree st) rs →
  let flag := negb (bool_decide (r ∈ checked st)) in
  let reached := list_to_set (filter (λ x, x ≠ "") rs) ∪ {[ r ]} in
  ∃ st', run_events (Click "#1" r :: (Motion <$> rs) ++ [Release]) st
         = Returned st'
       ∧ checked st' = paint flag reached (checked st)
       ∧ drag st' = mkDrag false None ∅
       ∧ consistent st'
       ∧ iid <$> tree st' = iid <$> tree st.
Proof.
  intros Hst Hne Hr Hrs flag reached.
  cbn [run_events handle]. unfold on_click.
  rewrite String.eqb_refl, (proj2 (String.eqb_neq r "")) by done.
  cbn [andb negb]. fold flag.
  destruct (set_checked_consistent r flag st Hst Hr)
    as (st1 & -> & Hst1 & Hc1 & Hiids1 & Hplan1 & Hdrag1).
  set (st2 := mkUI _ _ _ _ _).
  destruct (drag_loop flag (checked st) rs st2 {[ r ]})
    as (st3 & Hrun & Hst3 & Hiids3 & Hplan3 & Hdrag3 & Hc3).
  - exact Hst1.
  - done.
  - cbn [st2 checked]. rewrite Hc1. unfold paint. by destruct flag.
  - cbn [st2 tree]. by rewrite Hiids1.
  - rewrite (run_events_app _ _ _ _ Hrun). cbn [run_events handle].
    exists (on_release st3). split; [done|].
    split; [exact Hc3|]. split; [done|]. split; [exact Hst3|].
    cbn [on_release tree]. cbn [st2 tree] in Hiids3. congruence.
Qed.

Lemma drag_paints_witness :
  let rows := [mkRow "0" false "a" "x" true; mkRow "1" true "b" "b" false;
               mkRow "2" true "c" "z" true] in
  let st := mkUI [] {[ "1"; "2" ]} (mkDrag false None ∅) rows
              (count_label [] {[ "1"; "2" ]}) in
  ∃ st', run_events
           (Click "#1" "0" :: (Motion <$> ["1"; ""; "0"; "1"]) ++ [Release]) st
         = Returned st'
       ∧ checked st' = {[ "0"; "1"; "2" ]}.
Proof.
  intros rows st.
  assert (consistent st) as Hst.
  { split; [apply (bool_decide_unpack _); by vm_compute|].
    split; [|split; [|done]].
    - intros r Hr.
      repeat (apply elem_of_cons in Hr as [->|Hr]);
        try (by apply elem_of_nil in Hr); by vm_compute.
    - intros i Hi. apply elem_of_union in Hi as [Hi|Hi];
        apply elem_of_singleton in Hi as ->;
        apply (bool_decide_unpack _); by vm_compute. }
  destruct (drag_paints st "0" ["1"; ""; "0"; "1"] Hst)
    as (st' & Hrun & Hc & _); [done| | |].
  - apply (bool_decide_unpack _). by vm_compute.
  - repeat (apply Forall_cons; split); [..|by apply Forall_nil];
      first [by left | right; apply (bool_decide_unpack _); by vm_compute].
  - exists st'. split; [exact Hrun|]. rewrite Hc.
    apply (bool_decide_unpack _). by vm_compute.
Defined.

(** What a button leaves checked, for a flag that depends on the row and on
    whether it is checked. *)
Lemma for_children_marks (g : string → bool → bool) children st :
  consistent st → NoDup children →
  (∀ i, i ∈ children → i ∈ iid <$> tree st) →
  ∃ st', for_children (λ i st, g i (bool_decide (i ∈ checked st))) children st
         = Returned st'
       ∧ consistent st'
       ∧ iid <$> tree st' = iid <$> tree st
       ∧ ∀ j, j ∈ checked st'
              ↔ (j ∈ children ∧ g j (bool_decide (j ∈ checked st)) = true)
                ∨ ((j ∉ children) ∧ j ∈ checked st).
Proof.
  revert st. induction children as [|i children IH]; intros st Hst Hnd Hrows.
  { exists st. do 3 (split; [done|]). intros j. split; [|by intros [[[]%elem_of_nil _]|[_ ?]]].
    intros Hj. right. split; [by intros ?%elem_of_nil|done]. }
  apply NoDup_cons in Hnd as [Hi Hnd]. cbn [for_children].
  destruct (set_checked_consistent i (g i (bool_decide (i ∈ checked st))) st Hst)
    as (st1 & -> & Hst1 & Hc1 & Hiids1 & _); [apply Hrows; by left|].
  destruct (IH st1 Hst1 Hnd) as (st' & -> & Hst' & Hiids' & Hmarks).
  { intros j Hj. rewrite Hiids1. apply Hrows. by right. }
  exists st'. split; [done|]. split; [done|]. split; [congruence|].
  assert (∀ j, j ≠ i → j ∈ checked st1 ↔ j ∈ checked st) as Hother.
  { intros j Hji. rewrite Hc1. destruct (g i _).
    - rewrite elem_of_union, elem_of_singleton. split; [by intros [?|?]|auto].
    - rewrite elem_of_difference, elem_of_singleton.
      split; [by intros [? _]|auto]. }
  assert (i ∈ checked st1 ↔ g i (bool_decide (i ∈ checked st)) = true) as Hthis.
  { rewrite Hc1. destruct (g i _).
    - rewrite elem_of_union, elem_of_singleton. split; auto.
    - rewrite elem_of_difference, elem_of_singleton. split; [|done].
      by intros [_ ?]. }
  intros j. specialize (Hmarks j).
  destruct (decide (j = i)) as [->|Hji].
  - split.
    + intros Hj. left. split; [by left|]. apply Hthis.
      apply Hmarks in Hj as [[? _]|[_ ?]]; done.
    + intros [[_ Hg]|[Hn _]]; [|destruct Hn; by left].
      apply Hmarks. right. split; [done|]. by apply Hthis.
  - assert (bool_decide (j ∈ checked st1) = bool_decide (j ∈ checked st)) as Hbd
      by (apply bool_decide_ext; auto).
    rewrite Hbd in Hmarks. split.
    + intros Hj. apply Hmarks in Hj as [[? ?]|[? Hj]].
      * left. split; [by right|done].
      * right. split; [by intros [?|?]%elem_of_cons|]. by apply Hother.
    + intros [[[?|?]%elem_of_cons ?]|[Hn ?]]; [done| |]; apply Hmarks.
      * by left.
      * right. split; [|by apply Hother]. intros ?. apply Hn. by right.
Qed.

(** X25: the three buttons.  On a table that shows what is checked, "all"
    leaves every row checked, "none" leaves nothing checked, and "invert"
    leaves checked exactly the rows that were not; inverting twice gives
    the selection back.  The table shows the new selection. *)
Theorem buttons_select (st : UI) :
  consistent st →
  (∃ st', select_all st = Returned st' ∧ consistent st'
        ∧ checked st' = list_to_set (iid <$> tree st))
  ∧ (∃ st', select_none st = Returned st' ∧ consistent st'
          ∧ checked st' = ∅)
  ∧ (∃ st', select_invert st = Returned st' ∧ consistent st'
          ∧ checked st' = list_to_set (iid <$> tree st) ∖ checked st
          ∧ ∃ st'', select_invert st' = Returned st''
                  ∧ checked st'' = checked st).
Proof.
  intros Hst. pose proof Hst as (Hnd & _ & Hsub & _).
  split; [|split].
  - destruct (for_children_marks (λ _ _, true) (iid <$> tree st) st)
      as (st' & Hrun & Hst' & _ & Hmarks); [done..|].
    exists st'. split; [exact Hrun|]. split; [done|].
    apply set_eq. intros j. rewrite Hmarks, elem_of_list_to_set.
    split; [intros [[? _]|[Hn ?]]; [done|]; destruct Hn; auto|auto].
  - destruct (for_children_marks (λ _ _, false) (iid <$> tree st) st)
      as (st' & Hrun & Hst' & _ & Hmarks); [done..|].
    exists st'. split; [exact Hrun|]. split; [done|].
    apply set_eq. intros j. rewrite Hmarks.
    split; [intros [[_ ?]|[Hn ?]]; [done|]; destruct Hn; auto|].
    by intros ?%elem_of_empty.
  - destruct (for_children_marks (λ _ b, negb b) (iid <$> tree st) st)
      as (st' & Hrun & Hst' & Hiids & Hmarks); [done..|].
    assert (∀ j, j ∈ checked st'
                 ↔ j ∈ iid <$> tree st ∧ j ∉ checked st) as Hinv.
    { intros j. rewrite Hmarks. split.
      - intros [[? Hb]|[Hn ?]]; [|destruct Hn; auto].
        split; [done|]. apply negb_true_iff in Hb.
        by apply bool_decide_eq_false in Hb.
      - intros [? ?]. left. split; [done|].
        apply negb_true_iff. by apply bool_decide_eq_false. }
    exists st'. split; [exact Hrun|]. split; [done|]. split.
    { apply set_eq. intros j.
      by rewrite Hinv, elem_of_difference, elem_of_list_to_set. }
    pose proof Hst' as (Hnd' & _).
    destruct (for_children_marks (λ _ b, negb b) (iid <$> tree st') st')
      as (st'' & Hrun' & _ & _ & Hmarks'); [done..|].
    exists st''. split; [exact Hrun'|].
    apply set_eq. intros j. rewrite Hmarks', Hiids. split.
    + intros [[? Hb]|[Hn ?]].
      * apply negb_true_iff in Hb. apply bool_decide_eq_false in Hb.
        rewrite Hinv in Hb. destruct (decide (j ∈ checked st)); [done|].
        destruct Hb. auto.
      * destruct Hn. by apply Hinv.
    + intros Hj. left. split; [auto|].
      apply negb_true_iff, bool_decide_eq_false. rewrite Hinv. tauto.
Qed.

Lemma buttons_select_witness :
  let rows := [mkRow "0" false "a" "x" true; mkRow "1" true "b" "b" false] in
  let st := mkUI [] {[ "1" ]} (mkDrag false None ∅) rows
              (count_label [] {[ "1" ]}) in
  ∃ st', select_invert st = Returned st' ∧ checked st' = {[ "0" ]}.
Proof.
  intros rows st.
  assert (consistent st) as Hst.
  { split; [apply (bool_decide_unpack _); by vm_compute|].
    split; [|split; [|done]].
    - intros r Hr.
      repeat (apply elem_of_cons in Hr as [->|Hr]);
        try (by apply elem_of_nil in Hr); by vm_compute.
    - intros i Hi. change (i ∈ ({[ "1" ]} : gset string)) in Hi.
      apply elem_of_singleton in Hi as ->.
      apply (bool_decide_unpack _). by vm_compute. }
  destruct (buttons_select st Hst) as (_ & _ & st' & Hrun & _ & Hc & _).
  exists st'. split; [exact Hrun|]. rewrite Hc.
  apply (bool_decide_unpack _). by vm_compute.
Defined.

Lemma selection_display_consistent_witness :
  let rows := [mkRow "0" false "a" "x" true; mkRow "1" true "b" "b" false] in
  let st := mkUI [] {[ "1" ]} (mkDrag false None ∅) rows
              (count_label [] {[ "1" ]}) in
  let evs := [Click "#1" "0"; Motion "1"; Motion ""; Invert; Release;
              Click "#2" "1"; SelectAll] in
  ∃ st', run_events evs st = Returned st' ∧ consistent st'.
Proof.
  intros rows st evs.
  assert (consistent st) as Hst.
  { split; [apply (bool_decide_unpack _); by vm_compute|].
    split; [|split; [|done]].
    - intros r Hr.
      repeat (apply elem_of_cons in Hr as [->|Hr]);
        try (by apply elem_of_nil in Hr); by vm_compute.
    - intros i Hi. change (i ∈ ({[ "1" ]} : gset string)) in Hi.
      apply elem_of_singleton in Hi as ->.
      apply (bool_decide_unpack _). by vm_compute. }
  destruct (selection_display_consistent evs st Hst) as (st' & Hrun & Hst' & _).
  { repeat (apply Forall_cons; split); [..|by apply Forall_nil];
      first [exact I | by left
            | right; apply (bool_decide_unpack _); by vm_compute]. }
  exists st'. split; [exact Hrun|exact Hst'].
Defined.

(** ** Refreshing the table *)

Lemma index_Ok_lookup {A} (l : list A) z x :
  0 ≤ z → Seq.index l z = Ok x → l !! Z.to_nat z = Some x.
Proof.
  intros Hz. unfold Seq.index.
  destruct (z <? 0) eqn:Hneg; [lia|].
  destruct (_ && _); [|done]. by destruct (l !! Z.to_nat z); intros [= ->].
Qed.

(** The name remembered for the iid of a position is the name at that
    position. *)
Lemma prev_name_position plan (i : nat) :
  prev_name plan (pretty (Z.of_nat i)) = (λ it, name (src it)) <$> plan !! i.
Proof.
  unfold prev_name. rewrite int_pretty, bind_Ok.
  destruct (plan !! i) as [it|] eqn:Hi; simpl.
  - rewrite (index_lookup plan (Z.of_nat i) it); [done|lia|].
    by rewrite Nat2Z.id.
  - destruct (Seq.index plan (Z.of_nat i)) as [it|] eqn:Hidx; [|done].
    apply index_Ok_lookup in Hidx; [|lia]. rewrite Nat2Z.id in Hidx. congruence.
Qed.

Lemma position_inj (i j : nat) :
  pretty (Z.of_nat i) = pretty (Z.of_nat j) → i = j.
Proof. intros Heq%(inj pretty). lia. Qed.

Lemma refresh_rows_elem prev_names plan r :
  r ∈ imap (refresh_row prev_names) plan
  ↔ ∃ i it, plan !! i = Some it ∧ r = refresh_row prev_names i it.
Proof.
  rewrite list_elem_of_lookup. split.
  - intros [i Hi]. rewrite list_lookup_imap in Hi.
    destruct (plan !! i) as [it|] eqn:Hit; [|done].
    injection Hi as <-. eauto.
  - intros (i & it & Hit & ->). exists i.
    by rewrite list_lookup_imap, Hit.
Qed.

Lemma refresh_rows_iids prev_names plan :
  iid <$> imap (refresh_row prev_names) plan
  = (λ i, pretty (Z.of_nat i)) <$> seq 0 (length plan).
Proof.
  apply list_eq. intros i.
  rewrite !list_lookup_fmap, list_lookup_imap.
  destruct (plan !! i) as [it|] eqn:Hit; simpl.
  - rewrite lookup_seq_lt by (by eapply lookup_lt_Some). done.
  - rewrite lookup_seq_ge; [done|]. by apply lookup_ge_None.
Qed.

Section Refresh.
Context `{Externals}.

(** X26: refreshing the table.  When planning succeeds, the table gets one
    row per item of the new plan, with the position as iid, and shows what
    is checked; every changed item is checked, and so is every position of
    the new plan that was checked before.  The marks are carried over by
    position: when no two items of the new plan have sources of the same
    name and the iids checked before are positions, a position is checked
    after the refresh exactly if its item is changed or the position was
    checked before, whichever file is now at that position. *)
Theorem refresh_keeps_positions (files : list File) (rules : Rules) (st : UI)
    (plan : list PlanItem) :
  (planned ← build_plan files rules; dedupe planned rules) = Ok plan →
  let st' := (refresh_plan files rules st).1 in
  (refresh_plan files rules st).2 = None
  ∧ ui_plan st' = plan
  ∧ consistent st'
  ∧ iid <$> tree st' = (λ i, pretty (Z.of_nat i)) <$> seq 0 (length plan)
  ∧ (∀ i it, plan !! i = Some it → changed it = true →
       pretty (Z.of_nat i) ∈ checked st')
  ∧ (∀ i, (i < length plan)%nat → pretty (Z.of_nat i) ∈ checked st →
       pretty (Z.of_nat i) ∈ checked st')
  ∧ (NoDup ((λ it, name (src it)) <$> plan) →
     (∀ j, j ∈ checked st → ∃ i : nat, j = pretty (Z.of_nat i)) →
     ∀ i : nat,
       pretty (Z.of_nat i) ∈ checked st'
       ↔ (i < length plan)%nat
         ∧ (pretty (Z.of_nat i) ∈ checked st
            ∨ ∃ it, plan !! i = Some it ∧ changed it = true)).
Proof.
  intros Hplan. unfold refresh_plan. rewrite Hplan. cbn zeta. cbn [fst snd].
  set (prev_names := list_to_set (omap (prev_name plan) (elements (checked st)))
                     : gset string).
  set (rows := imap (refresh_row prev_names) plan).
  set (marked := list_to_set (iid <$> filter (λ r, sel r = true) rows)
                 : gset string).
  cbn [ui_plan checked tree].
  assert (∀ n, n ∈ prev_names
               ↔ ∃ j, j ∈ checked st ∧ prev_name plan j = Some n) as Hprev.
  { intros n. unfold prev_names.
    rewrite elem_of_list_to_set, list_elem_of_omap.
    by setoid_rewrite elem_of_elements. }
  assert (∀ j, j ∈ marked
               ↔ ∃ i it, plan !! i = Some it ∧ j = pretty (Z.of_nat i)
                         ∧ (name (src it) ∈ prev_names ∨ changed it = true))
    as Hmarked.
  { intros j. unfold marked.
    rewrite elem_of_list_to_set, list_elem_of_fmap. split.
    - intros (r & -> & [Hsel Hr]%list_elem_of_filter).
      apply refresh_rows_elem in Hr as (i & it & Hit & ->).
      exists i, it. split; [done|]. split; [done|].
      cbn [refresh_row sel] in Hsel. apply orb_true_iff in Hsel as [Hp|?]; auto.
      left. by apply bool_decide_eq_true in Hp.
    - intros (i & it & Hit & -> & Hor).
      exists (refresh_row prev_names i it). split; [done|].
      apply list_elem_of_filter. split; [|apply refresh_rows_elem; eauto].
      cbn [refresh_row sel]. apply orb_true_iff.
      destruct Hor as [?|?]; [left; by apply bool_decide_eq_true|by right]. }
  assert (iid <$> rows = (λ i, pretty (Z.of_nat i)) <$> seq 0 (length plan))
    as Hiids by apply refresh_rows_iids.
  split; [done|]. split; [done|]. split; [|split; [done|]].
  { (* the table shows what is checked *)
    split; [|split; [|split; [|done]]].
    - cbn [tree]. rewrite Hiids. apply NoDup_fmap_2; [|apply NoDup_seq].
      intros i j. apply position_inj.
    - cbn [tree checked]. intros r Hr.
      apply refresh_rows_elem in Hr as (i & it & Hit & ->).
      destruct (sel (refresh_row prev_names i it)) eqn:Hsel; symmetry.
      + apply bool_decide_eq_true, Hmarked. exists i, it.
        split; [done|]. split; [done|].
        cbn [refresh_row sel] in Hsel.
        apply orb_true_iff in Hsel as [Hp|?]; auto.
        left. by apply bool_decide_eq_true in Hp.
      + apply bool_decide_eq_false. intros (i' & it' & Hit' & Heq & Hor)%Hmarked.
        cbn [refresh_row iid] in Heq. apply position_inj in Heq as <-.
        assert (it' = it) as -> by congruence.
        cbn [refresh_row sel] in Hsel.
        apply orb_false_iff in Hsel as [Hp Hc].
        apply bool_decide_eq_false in Hp. destruct Hor; congruence.
    - cbn [tree checked]. intros j (i & it & Hit & -> & _)%Hmarked.
      rewrite Hiids. apply list_elem_of_fmap. exists i. split; [done|].
      apply elem_of_seq. apply lookup_lt_Some in Hit. lia. }
  split; [|split].
  - intros i it Hit Hc. apply Hmarked. exists i, it. auto.
  - intros i Hi Hchecked.
    destruct (lookup_lt_is_Some_2 plan i Hi) as [it Hit].
    apply Hmarked. exists i, it. split; [done|]. split; [done|]. left.
    apply Hprev. exists (pretty (Z.of_nat i)). split; [done|].
    by rewrite prev_name_position, Hit.
  - intros Hnames Hpos i. rewrite Hmarked. split.
    + intros (i' & it & Hit & <-%position_inj & Hor).
      split; [by eapply lookup_lt_Some|].
      destruct Hor as [Hp|Hc]; [left|right; eauto].
      apply Hprev in Hp as (j & Hj & Hn).
      destruct (Hpos j Hj) as [k ->].
      rewrite prev_name_position in Hn.
      destruct (plan !! k) as [it'|] eqn:Hk; [|done]. injection Hn as Hn.
      assert (k = i) as ->; [|done].
      eapply (NoDup_lookup _ _ _ _ Hnames).
      * by rewrite list_lookup_fmap, Hk.
      * rewrite list_lookup_fmap, Hit. simpl. by rewrite Hn.
    + intros [Hi [Hchecked|(it & Hit & Hc)]].
      * destruct (lookup_lt_is_Some_2 plan i Hi) as [it Hit].
        exists i, it. split; [done|]. split; [done|]. left.
        apply Hprev. exists (pretty (Z.of_nat i)). split; [done|].
        by rewrite prev_name_position, Hit.
      * exists i, it. auto.
Qed.

End Refresh.

Lemma refresh_keeps_positions_witness :
  let files := [file_in_data "a.txt" 1; file_in_data "b.txt" 2] in
  let rules := with_template "{stem|replace=b:c}" default_rules in
  let st := mkUI [] {[ "0" ]} (mkDrag false None ∅) [] (0, 0, 1)%nat in
  let plan :=
    [mkPlanItem (mkPath "/data/" "a.txt") (mkPath "/data/" "a.txt") false
       "no-change";
     mkPlanItem (mkPath "/data/" "b.txt") (mkPath "/data/" "c.txt") true "ok"] in
  (planned ← build_plan (H:=sample_externals) files rules;
   dedupe planned rules) = Ok plan
  ∧ consistent (refresh_plan (H:=sample_externals) files rules st).1.
Proof.
  intros files rules st plan.
  assert ((planned ← build_plan (H:=sample_externals) files rules;
           dedupe planned rules) = Ok plan) as Hplan by (by vm_compute).
  split; [exact Hplan|].
  exact (proj1 (proj2 (proj2
    (refresh_keeps_positions (H:=sample_externals) files rules st plan
       Hplan)))).
Defined.

(** ** What is handed to the executor *)

Lemma selected_step_position plan items (i : nat) it :
  plan !! i = Some it →
  selected_step plan items (pretty (Z.of_nat i))
  = Ok (if changed it then items ++ [it] else items).
Proof.
  intros Hit. unfold selected_step.
  rewrite int_pretty, !bind_Ok.
  rewrite (index_lookup plan (Z.of_nat i) it), !bind_Ok;
    [|lia|by rewrite Nat2Z.id].
  by destruct (changed it).
Qed.

Lemma selected_loop plan order items :
  (∀ j, j ∈ order → ∃ i : nat, j = pretty (Z.of_nat i) ∧ is_Some (plan !! i)) →
  ∃ more,
    foldM (selected_step plan) items order = Ok (items ++ more)
    ∧ ∀ it, it ∈ more
            ↔ ∃ i : nat, pretty (Z.of_nat i) ∈ order
                         ∧ plan !! i = Some it ∧ changed it = true.
Proof.
  revert items. induction order as [|j order IH]; intros items Hpos.
  { exists []. rewrite app_nil_r. split; [done|]. intros it.
    split; [by intros ?%elem_of_nil|by intros (? & ?%elem_of_nil & _)]. }
  destruct (Hpos j) as (i & -> & [x Hx]); [by left|].
  rewrite foldM_cons, (selected_step_position _ _ _ x Hx), bind_Ok.
  destruct (IH (if changed x then items ++ [x] else items))
    as (more & -> & Hmore); [intros k Hk; apply Hpos; by right|].
  destruct (changed x) eqn:Hc.
  - exists (x :: more). split; [by rewrite <-app_assoc|]. intros it.
    rewrite elem_of_cons, Hmore. split.
    + intros [->|(k & ? & ? & ?)].
      * exists i. split; [by left|done].
      * exists k. split; [by right|done].
    + intros (k & [Hk|Hk]%elem_of_cons & Hit & Hch).
      * apply position_inj in Hk as ->. left. congruence.
      * right. eauto.
  - exists more. split; [done|]. intros it. rewrite Hmore. split.
    + intros (k & ? & ? & ?). exists k. split; [by right|done].
    + intros (k & [Hk|Hk]%elem_of_cons & Hit & Hch); [|eauto].
      apply position_inj in Hk as ->. congruence.
Qed.

(** X27: what the front end hands to the executor.  When the table shows
    what is checked and its iids are the positions of the plan, the
    comprehension of [on_apply_selected] raises nothing, in whatever order
    the set of checked iids is gone through, and it yields exactly the
    items of the plan that are checked and changed. *)
Theorem apply_takes_checked_changed (st : UI) (order : list string) :
  consistent st → positional st → order ≡ₚ elements (checked st) →
  ∃ items,
    selected_items order (ui_plan st) = Ok items
    ∧ ∀ it, it ∈ items
            ↔ ∃ i : nat, pretty (Z.of_nat i) ∈ checked st
                         ∧ ui_plan st !! i = Some it ∧ changed it = true.
Proof.
  intros (_ & _ & Hsub & _) Hpos Horder. unfold selected_items.
  destruct (selected_loop (ui_plan st) order []) as (items & Hrun & Hitems).
  { intros j Hj. rewrite Horder in Hj. apply elem_of_elements, Hsub in Hj.
    rewrite Hpos in Hj. apply list_elem_of_fmap in Hj as (i & -> & Hi).
    exists i. split; [done|]. apply lookup_lt_is_Some_2.
    apply elem_of_seq in Hi. lia. }
  exists items. split; [exact Hrun|]. intros it. rewrite Hitems.
  by setoid_rewrite Horder; setoid_rewrite elem_of_elements.
Qed.

Lemma apply_takes_checked_changed_witness :
  let plan :=
    [mkPlanItem (mkPath "/data/" "a.txt") (mkPath "/data/" "a.txt") false
       "no-change";
     mkPlanItem (mkPath "/data/" "b.txt") (mkPath "/data/" "c.txt") true "ok"] in
  let rows := [mkRow "0" true "a.txt" "a.txt" false;
               mkRow "1" true "b.txt" "c.txt" true] in
  let st := mkUI plan {[ "0"; "1" ]} (mkDrag false None ∅) rows
              (count_label plan {[ "0"; "1" ]}) in
  ∃ items, selected_items ["1"; "0"] plan = Ok items.
Proof.
  intros plan rows st.
  assert (consistent st) as Hst.
  { split; [apply (bool_decide_unpack _); by vm_compute|].
    split; [|split; [|done]].
    - intros r Hr.
      repeat (apply elem_of_cons in Hr as [->|Hr]);
        try (by apply elem_of_nil in Hr); by vm_compute.
    - intros i Hi. apply elem_of_union in Hi as [Hi|Hi];
        apply elem_of_singleton in Hi as ->;
        apply (bool_decide_unpack _); by vm_compute. }
  destruct (apply_takes_checked_changed st ["1"; "0"] Hst)
    as (items & Hrun & _); [done| |exists items; exact Hrun].
  apply NoDup_Permutation.
  - apply (bool_decide_unpack _). by vm_compute.
  - apply NoDup_elements.
  - intros j. rewrite elem_of_elements. cbn [st checked].
    rewrite elem_of_union, !elem_of_singleton, !elem_of_cons, elem_of_nil.
    tauto.
Defined.

(** * The export of the plan *)

(** A text is cut at the first occurrence of a character in one way. *)
Lemma cut_at_char (c : ascii) x y r r' :
  Str.forallb (λ d, negb (Char.eqb d c)) x = true →
  Str.forallb (λ d, negb (Char.eqb d c)) y = true →
  x +:+ String c r = y +:+ String c r' → x = y ∧ r = r'.
Proof.
  revert y. induction x as [|a x IH]; intros [|b y] Hx Hy Heq.
  - rewrite !sapp_nil_l in Heq. by injection Heq as ->.
  - rewrite sapp_nil_l, sapp_cons in Heq. injection Heq as <- _.
    simpl in Hy. unfold Char.eqb in Hy. by rewrite Ascii.eqb_refl in Hy.
  - rewrite sapp_nil_l, sapp_cons in Heq. injection Heq as -> _.
    simpl in Hx. unfold Char.eqb in Hx. by rewrite Ascii.eqb_refl in Hx.
  - rewrite !sapp_cons in Heq. injection Heq as -> Heq.
    simpl in Hx, Hy. apply andb_prop in Hx as [_ Hx], Hy as [_ Hy].
    destruct (IH y Hx Hy Heq) as [-> ->]. done.
Qed.

Lemma not_free_of (c : ascii) x r :
  Str.forallb (λ d, negb (Char.eqb d c)) (x +:+ String c r) = false.
Proof.
  rewrite forallb_sapp. simpl. unfold Char.eqb at 2.
  rewrite Ascii.eqb_refl. simpl. apply andb_false_r.
Qed.

(** Lines without a line break are read back from their join. *)
Lemma join_lines_inj (c : ascii) h h' l l' :
  Forall (λ s, Str.forallb (λ d, negb (Char.eqb d c)) s = true) (h :: l) →
  Forall (λ s, Str.forallb (λ d, negb (Char.eqb d c)) s = true) (h' :: l') →
  Str.join (String c "") (h :: l) = Str.join (String c "") (h' :: l') →
  h :: l = h' :: l'.
Proof.
  revert h h' l'. induction l as [|x l IH]; intros h h' [|x' l'] Hl Hl' Heq.
  - simpl in Heq. by subst.
  - rewrite (join_cons _ h' (x' :: l')) in Heq by done.
    apply Forall_cons in Hl as [Hh _]. simpl in Heq. subst h.
    change (String c "" +:+ ?s) with (String c s) in Hh.
    by rewrite not_free_of in Hh.
  - rewrite (join_cons _ h (x :: l)) in Heq by done.
    apply Forall_cons in Hl' as [Hh _]. simpl in Heq. subst h'.
    change (String c "" +:+ ?s) with (String c s) in Hh.
    by rewrite not_free_of in Hh.
  - rewrite (join_cons _ h (x :: l)), (join_cons _ h' (x' :: l')) in Heq
      by done.
    change (String c "" +:+ ?s) with (String c s) in Heq.
    apply Forall_cons in Hl as [Hh Hl], Hl' as [Hh' Hl'].
    apply cut_at_char in Heq as [-> Heq]; [|done..].
    f_equal. by apply IH.
Qed.

Lemma csv_clean_quote s :
  csv_clean s → Str.forallb (λ d, negb (Char.eqb d dquote)) s = true.
Proof.
  apply forallb_impl. by intros c [? _]%andb_prop.
Qed.

Lemma csv_clean_newline s :
  csv_clean s → Str.forallb (λ d, negb (Char.eqb d newline)) s = true.
Proof.
  apply forallb_impl. by intros c [_ ?]%andb_prop.
Qed.

Lemma py_bool_inj b b' : py_bool b = py_bool b' → b = b'.
Proof. by destruct b, b'. Qed.

(** A line gives its fields back when they hold no double quote. *)
Lemma csv_line_inj it it' :
  csv_clean_item it → csv_clean_item it' →
  csv_line it = csv_line it' → plan_fields it = plan_fields it'.
Proof.
  intros (Hs & Hd & Hr) (Hs' & Hd' & Hr') Heq.
  unfold csv_line in Heq. injection Heq as Heq.
  apply cut_at_char in Heq as [Hsrc Heq]; [|by apply csv_clean_quote..].
  change ("," +:+ ?s) with (String "," s) in Heq. injection Heq as Heq.
  apply cut_at_char in Heq as [Hdst Heq]; [|by apply csv_clean_quote..].
  change ("," +:+ ?s) with (String "," s) in Heq. injection Heq as Heq.
  apply cut_at_char in Heq as [Hch Heq];
    [|by destruct (changed it)|by destruct (changed it')].
  change ("," +:+ ?s) with (String "," s) in Heq. injection Heq as Heq.
  apply cut_at_char in Heq as [Hreason _]; [|by apply csv_clean_quote..].
  apply py_bool_inj in Hch. unfold plan_fields. congruence.
Qed.

Lemma csv_line_one_line it :
  csv_clean_item it →
  Str.forallb (λ d, negb (Char.eqb d newline)) (csv_line it) = true.
Proof.
  intros (Hs%csv_clean_newline & Hd%csv_clean_newline & Hr%csv_clean_newline).
  unfold csv_line.
  repeat (first [ rewrite forallb_sapp
                | change (Str.forallb ?f (String ?c ?s))
                    with (f c && Str.forallb f s) ]).
  rewrite Hs, Hd, Hr. by destruct (changed it).
Qed.

(** X28: the CSV export loses nothing when no field holds a double quote or
    a line break: two plans of such items that are exported to the same
    text under a name whose suffix is not [.json] have the same fields,
    item by item (the fields are written between double quotes without any
    escaping, one item per line, so a quote-free field ends at the next
    quote). *)
Theorem csv_export_lossless
    (json_dumps : list (string * string * bool * string) → string)
    (plan plan' : list PlanItem) (out_path : Path) (fs fs' : FS) :
  Str.lower (path_suffix out_path) ≠ ".json" →
  Forall csv_clean_item plan → Forall csv_clean_item plan' →
  export_plan_file json_dumps plan out_path fs
  = export_plan_file json_dumps plan' out_path fs' →
  plan_fields <$> plan = plan_fields <$> plan'.
Proof.
  intros Hcsv%String.eqb_neq Hplan Hplan' Heq.
  apply (f_equal (λ m : FS, m !! path_str out_path)) in Heq.
  unfold export_plan_file in Heq. rewrite Hcsv, !lookup_insert_eq in Heq.
  injection Heq as Heq.
  apply join_lines_inj in Heq.
  - injection Heq as Heq. clear Hcsv.
    revert plan' Hplan' Heq.
    induction Hplan as [|it plan Hit _ IH]; intros [|it' plan'] Hplan' Heq;
      try done.
    rewrite !fmap_cons in Heq. rewrite !fmap_cons.
    remember (csv_line it) as line eqn:Hl.
    remember (csv_line it') as line' eqn:Hl'.
    injection Heq as -> Heq. subst line'.
    apply Forall_cons in Hplan' as [Hit' Hplan'].
    f_equal; [by apply csv_line_inj|by apply IH].
  - apply Forall_cons. split; [done|].
    apply Forall_fmap. eapply Forall_impl; [exact Hplan|].
    intros it Hit. by apply csv_line_one_line.
  - apply Forall_cons. split; [done|].
    apply Forall_fmap. eapply Forall_impl; [exact Hplan'|].
    intros it Hit. by apply csv_line_one_line.
Qed.

Lemma csv_export_lossless_witness :
  let plan :=
    [mkPlanItem (mkPath "/data/" "a.txt") (mkPath "/data/" "x.txt") true "ok";
     mkPlanItem (mkPath "/data/" "b.txt") (mkPath "/data/" "b.txt") false
       "no-change"] in
  let out := mkPath "/data/" "plan.json.csv" in
  Str.lower (path_suffix out) ≠ ".json"
  ∧ plan_fields <$> plan = plan_fields <$> plan.
Proof.
  intros plan out.
  assert (Str.lower (path_suffix out) ≠ ".json") as Hcsv by (by vm_compute).
  split; [exact Hcsv|].
  apply (csv_export_lossless (λ _, "") plan plan out ∅ ∅ Hcsv);
    [| |done];
    (repeat (apply Forall_cons; split); [..|by apply Forall_nil];
     by repeat split).
Defined.
